(** * Segment derivation and aggregation of the bus / metro segment processors

    Shallow embedding of the core of [Bus_Segment_Processor.py] and
    [Metro_Segment_Processor.py] (the two files hold the same code up to
    log messages and comments):

    - [get_route_stops_ordered], [project_point_to_line],
      [extract_line_segment], [calculate_segment_distance],
      [create_segments_from_route];
    - [aggregate_segments] and [create_unique_stops].

    Conventions of the model.
    - A length or a distance is a Python [float]: a value of the type
      [float] of the interface [Floats], whose operations ([sum], [/],
      [*], [<], [round(x, 3)]) are those of the interpreter and are used
      through the interface only, so that rounding errors, infinities and
      NaN are whatever the interpreter makes them.  [Binary64] is the
      arithmetic of IEEE 754 doubles, on which the examples are run.
    - An arc-length position along a route and a coordinate are finite
      numbers, written as rationals [Q]; the code compares them and hands
      them to the library.
    - A cell of a data frame is a [pyval]; [str(row.get(col, ''))] is
      [get_str].
    - A call into shapely / pyproj that may raise returns [option]; [None]
      stands for "raised".  The sort of pandas returns an [outcome]: it
      raises on a column it cannot compare.  The [try ... except] blocks of
      the source are written out with [try_except] on [outcome].
    - A Python [dict] is an association list in insertion order; a Python
      [set] of strings is a duplicate-free list, and the order in which
      [list(s)] enumerates it is a parameter of the runtime ([set_iter]). *)

From Stdlib Require Import List String Ascii ZArith QArith Qround Bool Arith Lia.
From Stdlib Require Import Permutation Sorted SetoidList SetoidPermutation DecimalString.
From Stdlib Require Import Floats.SpecFloat.
Import ListNotations.

Local Open Scope string_scope.
Local Open Scope list_scope.

(* ------------------------------------------------------------------ *)
(** ** Python values and outcomes *)

Module Py.

(** What a cell of a (Geo)DataFrame row can hold. *)
Inductive pyval : Type :=
| PStr (s : string)
| PInt (z : Z)
| PNone
| PNaN.

(** [str(v)]. *)
Definition py_str (v : pyval) : string :=
  match v with
  | PStr s => s
  | PInt z => NilZero.string_of_int (Z.to_int z)
  | PNone => "None"
  | PNaN => "nan"
  end.

(** [str(row.get(col, ''))]: the column may be absent from the row. *)
Definition get_str (cell : option pyval) : string :=
  match cell with
  | Some v => py_str v
  | None => EmptyString
  end.

(** Elementwise [frame[col] == v] of pandas: a null on either side never
    compares equal, values of different types never compare equal. *)
Definition pd_eq (a b : pyval) : bool :=
  match a, b with
  | PStr s, PStr t => String.eqb s t
  | PInt x, PInt y => Z.eqb x y
  | _, _ => false
  end.

(** Truthiness of a string: [if s:]. *)
Definition truthy (s : string) : bool :=
  match s with
  | EmptyString => false
  | String _ _ => true
  end.

(** The result of running a Python function body. *)
Inductive outcome (A : Type) : Type :=
| Returned (a : A)
| Raised.
Arguments Returned {A} a.
Arguments Raised {A}.

Definition bind {A B} (m : outcome A) (k : A -> outcome B) : outcome B :=
  match m with
  | Returned a => k a
  | Raised => Raised
  end.

(** [try: body except: handler]. *)
Definition try_except {A} (body handler : outcome A) : outcome A :=
  match body with
  | Returned a => Returned a
  | Raised => handler
  end.

(** A library call that may raise. *)
Definition call {A} (r : option A) : outcome A :=
  match r with
  | Some a => Returned a
  | None => Raised
  end.

(** Sequencing a loop body over a list; the first exception aborts. *)
Fixpoint for_each {A B} (f : A -> outcome B) (l : list A) : outcome (list B) :=
  match l with
  | [] => Returned []
  | x :: t =>
      bind (f x) (fun y => bind (for_each f t) (fun ys => Returned (y :: ys)))
  end.

(** A [set] of strings, kept in insertion order. *)
Definition pyset := list string.

Definition set_mem (x : string) (s : pyset) : bool :=
  existsb (String.eqb x) s.

Definition set_add (x : string) (s : pyset) : pyset :=
  if set_mem x s then s else s ++ [x].

(** What the interpreter fixes and the program cannot see: the order in
    which [list(s)] enumerates a set.  It is some arrangement of the
    members (it depends on string hashes, which change from one process
    to the next). *)
Class Runtime : Type := {
  set_iter : pyset -> list string;
  set_iter_perm : forall s, Permutation (set_iter s) s
}.

(** [sep.join(l)]. *)
Definition join (sep : string) (l : list string) : string :=
  String.concat sep l.

(** The floats of the interpreter and what the program does with them.
    Nothing is assumed of the operations: a sum may round, overflow to an
    infinity or be NaN. *)
Class Floats : Type := {
  float : Type;
  (** the float a decimal literal, or an [int] operand, denotes *)
  fnum : Q -> float;
  (** [sum(l)] *)
  fsum : list float -> float;
  (** [x / n] for a positive [int] [n] *)
  fdiv : float -> positive -> float;
  (** [x * y] *)
  fmul : float -> float -> float;
  (** [x < y] *)
  flt : float -> float -> bool;
  (** [round(x, 3)] *)
  round3 : float -> float
}.

End Py.

Import Py.

Declare Scope outcome_scope.
Delimit Scope outcome_scope with outcome.
Notation "x <- m ;; k" := (bind m (fun x => k))
  (at level 61, m at next level, right associativity) : outcome_scope.
Local Open Scope outcome_scope.

(* ------------------------------------------------------------------ *)
(** ** Geometry and the libraries *)

Definition Point : Type := (Q * Q)%type.

(** A [LineString] is its coordinate sequence. *)
Definition LineString : Type := list Point.

(** [geom.is_empty]. *)
Definition is_empty (g : LineString) : bool :=
  match g with
  | [] => true
  | _ :: _ => false
  end.

(** The calls into shapely and pyproj.  [None] is an exception. *)
Class Shapely {floats : Floats} : Type := {
  (** [line.project(point)] *)
  line_project : LineString -> Point -> option Q;
  (** [shapely.ops.substring(line, a, b)] *)
  substring : LineString -> Q -> Q -> option LineString;
  (** [geom.length] in the units of the coordinates *)
  geom_length : LineString -> option float;
  (** [transform(Transformer.from_crs(4326, 3857).transform, line).length],
      the import of pyproj included *)
  mercator_length : LineString -> option float
}.

(* ------------------------------------------------------------------ *)
(** ** Rows *)

Record StopRow : Type := mkStop {
  st_route_id : pyval;
  st_stop_id : option pyval;
  st_name_cn : option pyval;
  st_name_en : option pyval;
  st_city_cn : option pyval;
  st_city_en : option pyval;
  st_sequence : pyval;
  st_geometry : Point
}.

(** The stops frame: whether it has a [sequence] column, and its rows. *)
Record StopsFrame : Type := mkFrame {
  has_sequence : bool;
  frame_rows : list StopRow
}.

Record RouteRow : Type := mkRoute {
  rt_route_id : pyval;
  rt_route_cn : option pyval;
  rt_city_cn : option pyval;
  rt_city_en : option pyval;
  rt_geometry : option LineString
}.

(** [route_stops.sort_values('sequence')].  The call raises when two
    cells of the column cannot be compared (a string and a number); when
    it returns, the rows are rearranged, and pandas sorts with an unstable
    algorithm, so only this much is known of the arrangement of ties.
    Fewer than two rows need no comparison. *)
Class Pandas : Type := {
  sort_values_sequence : list StopRow -> outcome (list StopRow);
  sort_values_perm :
    forall l l', sort_values_sequence l = Returned l' -> Permutation l' l;
  sort_values_short :
    forall l, (List.length l <= 1)%nat -> sort_values_sequence l = Returned l
}.

(** The segment dictionary built by [create_segments_from_route]. *)
Record Segment {floats : Floats} : Type := mkSegment {
  s_stop_cn : string;
  s_stop_en : string;
  s_stopid : string;
  e_stop_cn : string;
  e_stop_en : string;
  e_stopid : string;
  distance : float;
  city_cn : string;
  city_en : string;
  geometry : LineString
}.

(* ------------------------------------------------------------------ *)
(** ** The geometric helpers *)

Section Helpers.

Context {floats : Floats} {shapely : Shapely}.

(** [project_point_to_line]: an exception becomes [None]. *)
Definition project_point_to_line (point : Point) (line : LineString) : option Q :=
  match try_except (d <- call (line_project line point) ;; Returned (Some d))
                   (Returned None) with
  | Returned r => r
  | Raised => None
  end.

(** [extract_line_segment]. *)
Definition extract_line_segment (line : LineString) (start_distance end_distance : Q)
  : option LineString :=
  let body :=
    let '(start_distance, end_distance) :=
      if Qlt_le_dec end_distance start_distance
      then (end_distance, start_distance)
      else (start_distance, end_distance) in
    segment <- call (substring line start_distance end_distance) ;;
    if is_empty segment then Returned None
    else
      len <- call (geom_length segment) ;;
      if flt len (fnum (1 # 1000000)) then Returned None
      else Returned (Some segment) in
  match try_except body (Returned None) with
  | Returned r => r
  | Raised => None
  end.

(** [calculate_segment_distance]. *)
Definition calculate_segment_distance (segment_line : LineString) : outcome float :=
  try_except
    (len <- call (mercator_length segment_line) ;;
     Returned (round3 (fdiv len 1000)))
    (try_except
       (len <- call (geom_length segment_line) ;;
        Returned (round3 (fmul len (fnum (11132 # 100)))))
       (Returned (fnum 0))).

End Helpers.

(* ------------------------------------------------------------------ *)
(** ** Route segmentation *)

(** An entry of the [stop_projections] list. *)
Record StopProjection : Type := mkProj {
  index : nat;
  stop_data : StopRow;
  projection_distance : Q
}.

(** [list.sort(key=...)] is stable and compares keys with [<]: an element
    moves in front of another one only when its key is strictly smaller. *)
Fixpoint insert_by_key {A} (key : A -> Q) (x : A) (l : list A) : list A :=
  match l with
  | [] => [x]
  | y :: t =>
      if Qlt_le_dec (key y) (key x) then y :: insert_by_key key x t
      else x :: y :: t
  end.

Fixpoint sort_by_key {A} (key : A -> Q) (l : list A) : list A :=
  match l with
  | [] => []
  | x :: t => insert_by_key key x (sort_by_key key t)
  end.

(** The pairs [(l[i], l[i + 1])] for [i] in [range(len(l) - 1)]. *)
Definition consecutive_pairs {A} (l : list A) : list (A * A) :=
  combine l (tl l).

Section Segmenter.

Context {floats : Floats} {shapely : Shapely} {pandas : Pandas}.

(** [get_route_stops_ordered]. *)
Definition get_route_stops_ordered (route_id : pyval) (stops_gdf : StopsFrame)
  : outcome (list StopRow) :=
  let route_stops :=
    filter (fun r => pd_eq (st_route_id r) route_id) (frame_rows stops_gdf) in
  if Nat.eqb (List.length route_stops) 0 then Returned route_stops
  else if has_sequence stops_gdf then sort_values_sequence route_stops
  else Returned route_stops.

(** The projection loop over [stops_list.iterrows()], from row [idx] on. *)
Fixpoint project_stops (route_geometry : LineString) (idx : nat)
         (stops_list : list StopRow) : list StopProjection :=
  match stops_list with
  | [] => []
  | stop_row :: rest =>
      match project_point_to_line (st_geometry stop_row) route_geometry with
      | Some d =>
          mkProj idx stop_row d :: project_stops route_geometry (S idx) rest
      | None => project_stops route_geometry (S idx) rest
      end
  end.

(** [stop_projections] after line [stop_projections.sort(...)]. *)
Definition sorted_stop_projections (route_geometry : LineString)
           (route_stops : list StopRow) : list StopProjection :=
  sort_by_key projection_distance (project_stops route_geometry 0 route_stops).

(** The geometry of the segment between two stops: the slice of the route,
    or the direct connection when the slice is refused. *)
Definition segment_geometry (route_geometry : LineString)
           (start_stop_info end_stop_info : StopProjection) : LineString :=
  match extract_line_segment route_geometry
          (projection_distance start_stop_info)
          (projection_distance end_stop_info) with
  | Some segment_line => segment_line
  | None =>
      [st_geometry (stop_data start_stop_info);
       st_geometry (stop_data end_stop_info)]
  end.

(** One turn of the loop over consecutive stops. *)
Definition make_segment (route_geometry : LineString) (city_cn city_en : option pyval)
           (pair : StopProjection * StopProjection) : outcome Segment :=
  let '(start_stop_info, end_stop_info) := pair in
  let start_stop := stop_data start_stop_info in
  let end_stop := stop_data end_stop_info in
  let segment_line := segment_geometry route_geometry start_stop_info end_stop_info in
  distance <- calculate_segment_distance segment_line ;;
  Returned
    {| s_stop_cn := get_str (st_name_cn start_stop);
       s_stop_en := get_str (st_name_en start_stop);
       s_stopid := get_str (st_stop_id start_stop);
       e_stop_cn := get_str (st_name_cn end_stop);
       e_stop_en := get_str (st_name_en end_stop);
       e_stopid := get_str (st_stop_id end_stop);
       distance := distance;
       city_cn := get_str city_cn;
       city_en := get_str city_en;
       geometry := segment_line |}.

(** [create_segments_from_route]. *)
Definition create_segments_from_route (route_row : RouteRow) (stops_gdf : StopsFrame)
  : outcome (list Segment) :=
  let route_id := rt_route_id route_row in
  let city_cn := rt_city_cn route_row in
  let city_en := rt_city_en route_row in
  route_stops <- get_route_stops_ordered route_id stops_gdf ;;
  if Nat.ltb (List.length route_stops) 2 then Returned []
  else
    match rt_geometry route_row with
    | None => Returned []
    | Some route_geometry =>
        if is_empty route_geometry then Returned []
        else
          let stop_projections := sorted_stop_projections route_geometry route_stops in
          for_each (make_segment route_geometry city_cn city_en)
                   (consecutive_pairs stop_projections)
    end.

End Segmenter.

(* ------------------------------------------------------------------ *)
(** ** Dictionaries in insertion order *)

Section Dict.

Context {K V : Type} (eqb : K -> K -> bool).

(** [g = d[k]] on a [defaultdict] followed by the in-place update [f] of
    [g]: a missing key is created at the end with the default value. *)
Fixpoint dict_update (k : K) (default : V) (f : V -> V) (d : list (K * V))
  : list (K * V) :=
  match d with
  | [] => [(k, f default)]
  | (k', v) :: t =>
      if eqb k k' then (k', f v) :: t
      else (k', v) :: dict_update k default f t
  end.

Fixpoint dict_get (k : K) (d : list (K * V)) : option V :=
  match d with
  | [] => None
  | (k', v) :: t => if eqb k k' then Some v else dict_get k t
  end.

End Dict.

(* ------------------------------------------------------------------ *)
(** ** Aggregation of segments *)

Record SegmentGroup {floats : Floats} : Type := mkGroup {
  distances : list float;
  first_segment : option Segment;
  cities : pyset;
  count : nat
}.

(** The value the [defaultdict] makes for a new key. *)
Definition new_segment_group {floats : Floats} : SegmentGroup :=
  {| distances := []; first_segment := None; cities := []; count := 0 |}.

Definition segment_key {floats : Floats} (segment : Segment) : string * string :=
  (s_stopid segment, e_stopid segment).

Definition key_eqb (a b : string * string) : bool :=
  String.eqb (fst a) (fst b) && String.eqb (snd a) (snd b).

(** The body of the grouping loop, on the group of the segment's key. *)
Definition add_segment {floats : Floats} (segment : Segment) (group : SegmentGroup)
  : SegmentGroup :=
  {| distances := distances group ++ [distance segment];
     first_segment :=
       match first_segment group with
       | None => Some segment
       | Some s => Some s
       end;
     cities := set_add (city_cn segment) (cities group);
     count := S (count group) |}.

Definition group_segments {floats : Floats} (segments_list : list Segment)
  : list ((string * string) * SegmentGroup) :=
  fold_left
    (fun segment_groups segment =>
       dict_update key_eqb (segment_key segment) new_segment_group
                   (add_segment segment) segment_groups)
    segments_list [].

(** An aggregated record: the template segment with [distance] and
    [city_cn] overwritten, and the new entry [num]. *)
Record AggregatedSegment {floats : Floats} : Type := mkAgg {
  agg_segment : Segment;
  num : nat
}.

(** [round(sum(l) / len(l), 3) if l else 0.0]. *)
Definition avg_distance {floats : Floats} (l : list float) : float :=
  match l with
  | [] => fnum 0
  | _ :: rest => round3 (fdiv (fsum l) (Pos.of_succ_nat (List.length rest)))
  end.

Section Aggregation.

Context {floats : Floats} {runtime : Runtime}.

Definition finish_group (entry : (string * string) * SegmentGroup)
  : outcome AggregatedSegment :=
  let group := snd entry in
  segment <- call (first_segment group) ;;
  Returned
    {| agg_segment :=
         {| s_stop_cn := s_stop_cn segment;
            s_stop_en := s_stop_en segment;
            s_stopid := s_stopid segment;
            e_stop_cn := e_stop_cn segment;
            e_stop_en := e_stop_en segment;
            e_stopid := e_stopid segment;
            distance := avg_distance (distances group);
            city_cn := join "; " (set_iter (cities group));
            city_en := city_en segment;
            geometry := geometry segment |};
       num := count group |}.

(** [aggregate_segments]. *)
Definition aggregate_segments (segments_list : list Segment)
  : outcome (list AggregatedSegment) :=
  for_each finish_group (group_segments segments_list).

End Aggregation.

(* ------------------------------------------------------------------ *)
(** ** Deduplication of stops *)

Record StopGroup : Type := mkStopGroup {
  route_ids : pyset;
  first_stop : option StopRow;
  stop_cities : pyset
}.

Definition new_stop_group : StopGroup :=
  {| route_ids := []; first_stop := None; stop_cities := [] |}.

(** The body of the grouping loop once the stop id is known to be
    non-empty. *)
Definition add_stop (stop_row : StopRow) (group : StopGroup) : StopGroup :=
  let route_id := py_str (st_route_id stop_row) in
  let city_cn := get_str (st_city_cn stop_row) in
  {| route_ids :=
       if truthy route_id then set_add route_id (route_ids group)
       else route_ids group;
     first_stop :=
       match first_stop group with
       | None => Some stop_row
       | Some s => Some s
       end;
     stop_cities :=
       if truthy route_id then set_add city_cn (stop_cities group)
       else stop_cities group |}.

Definition group_stops (rows : list StopRow) : list (string * StopGroup) :=
  fold_left
    (fun stop_groups stop_row =>
       let stop_id := get_str (st_stop_id stop_row) in
       if truthy stop_id
       then dict_update String.eqb stop_id new_stop_group (add_stop stop_row) stop_groups
       else stop_groups)
    rows [].

Record UniqueStop : Type := mkUnique {
  us_stop_cn : string;
  us_stop_en : string;
  us_stop_id : string;
  us_num : nat;
  us_city_cn : string;
  us_city_en : string;
  us_geometry : Point
}.

Section Deduplication.

Context {runtime : Runtime}.

Definition finish_stop (entry : string * StopGroup) : outcome UniqueStop :=
  let '(stop_id, group) := entry in
  stop <- call (first_stop group) ;;
  Returned
    {| us_stop_cn := get_str (st_name_cn stop);
       us_stop_en := get_str (st_name_en stop);
       us_stop_id := stop_id;
       us_num := List.length (route_ids group);
       us_city_cn := join "; " (set_iter (stop_cities group));
       us_city_en := get_str (st_city_en stop);
       us_geometry := st_geometry stop |}.

(** [create_unique_stops]. *)
Definition create_unique_stops (stops_gdf : StopsFrame) : outcome (list UniqueStop) :=
  for_each finish_stop (group_stops (frame_rows stops_gdf)).

End Deduplication.


(* ================================================================== *)
(** * Properties *)

Local Open Scope nat_scope.

(* ------------------------------------------------------------------ *)
(** ** Loops that may raise *)

Section ForEach.

Context {A B : Type} (f : A -> outcome B).

(** A loop returns exactly when every turn returns, and then the results
    line up with the inputs. *)
Lemma for_each_Forall2 (l : list A) (out : list B) :
  for_each f l = Returned out <-> Forall2 (fun x y => f x = Returned y) l out.
Proof.
  revert out; induction l as [|x t IH]; intros out; simpl.
  - split.
    + intros E; injection E as <-; constructor.
    + intros H; inversion H; reflexivity.
  - split.
    + destruct (f x) as [y|] eqn:Ex; simpl; [|discriminate].
      destruct (for_each f t) as [ys|] eqn:Et; simpl; [|discriminate].
      intros E; injection E as <-.
      constructor; [assumption|]. now apply IH.
    + intros H; inversion H as [|x' y t' ys Hxy Ht]; subst.
      rewrite Hxy; simpl.
      apply IH in Ht. rewrite Ht; reflexivity.
Qed.

Lemma for_each_returns (l : list A) :
  (forall x, In x l -> exists y, f x = Returned y) ->
  exists out, for_each f l = Returned out.
Proof.
  induction l as [|x t IH]; intros H; simpl.
  - now exists [].
  - destruct (H x (or_introl eq_refl)) as [y ->].
    destruct IH as [ys ->]; [intros; apply H; now right|].
    simpl; eauto.
Qed.

Lemma for_each_length (l : list A) (out : list B) :
  for_each f l = Returned out -> List.length out = List.length l.
Proof.
  intros H; apply for_each_Forall2 in H.
  symmetry; eapply Forall2_length; eassumption.
Qed.

Lemma for_each_In (l : list A) (out : list B) (y : B) :
  for_each f l = Returned out -> In y out ->
  exists x, In x l /\ f x = Returned y.
Proof.
  intros H; apply for_each_Forall2 in H.
  induction H as [|x y' t ys Hxy _ IH]; intros Hin; [destruct Hin|].
  destruct Hin as [<-|Hin].
  - exists x; split; [now left|assumption].
  - destruct (IH Hin) as (x0 & ? & ?); exists x0; split; [now right|assumption].
Qed.

Lemma for_each_nth (l : list A) (out : list B) (i : nat) (y : B) :
  for_each f l = Returned out -> nth_error out i = Some y ->
  exists x, nth_error l i = Some x /\ f x = Returned y.
Proof.
  intros H; apply for_each_Forall2 in H.
  revert i; induction H as [|x y' t ys Hxy _ IH]; intros i Hi.
  - destruct i; discriminate.
  - destruct i as [|i]; simpl in *.
    + injection Hi as <-; eauto.
    + auto.
Qed.

End ForEach.

Lemma for_each_ext {A B} (f g : A -> outcome B) (l : list A) :
  (forall x, In x l -> f x = g x) -> for_each f l = for_each g l.
Proof.
  induction l as [|x t IH]; intros H; simpl; [reflexivity|].
  rewrite (H x (or_introl eq_refl)), IH; [reflexivity|].
  intros; apply H; now right.
Qed.

Lemma for_each_map {A A' B} (h : A -> A') (f : A' -> outcome B) (l : list A) :
  for_each f (map h l) = for_each (fun x => f (h x)) l.
Proof.
  induction l as [|x t IH]; simpl; [reflexivity|]. now rewrite IH.
Qed.

(* ------------------------------------------------------------------ *)
(** ** Consecutive pairs *)

Lemma consecutive_pairs_length {A} (l : list A) :
  List.length (consecutive_pairs l) = List.length l - 1.
Proof.
  unfold consecutive_pairs; rewrite length_combine.
  destruct l as [|x t]; cbn [tl List.length]; lia.
Qed.

Lemma consecutive_pairs_map {A B} (h : A -> B) (l : list A) :
  consecutive_pairs (map h l) =
  map (fun p => (h (fst p), h (snd p))) (consecutive_pairs l).
Proof.
  unfold consecutive_pairs.
  destruct l as [|x t]; [reflexivity|]. simpl tl.
  generalize (x :: t) as u; intros u; revert u.
  induction t as [|y t IH]; intros [|z u]; simpl; try reflexivity.
  now rewrite IH.
Qed.

Lemma consecutive_pairs_nth {A} (l : list A) (i : nat) (a b : A) :
  nth_error (consecutive_pairs l) i = Some (a, b) <->
  nth_error l i = Some a /\ nth_error l (S i) = Some b.
Proof.
  unfold consecutive_pairs.
  destruct l as [|x t]; simpl.
  - split; [destruct i; discriminate|]. intros [H _]; destruct i; discriminate.
  - revert x i; induction t as [|y t IH]; intros x i; simpl.
    + split; [destruct i; discriminate|].
      intros [_ H]; destruct i; discriminate.
    + destruct i as [|i]; simpl.
      * split; [intros E; injection E as <- <-; auto|].
        intros [E1 E2]; now injection E1 as <-; injection E2 as <-.
      * apply IH.
Qed.

(* ------------------------------------------------------------------ *)
(** ** The stable sort *)

Section StableSort.

Context {A : Type} (key : A -> Q).

Definition key_le (a b : A) : Prop := (key a <= key b)%Q.
Definition key_eq (a b : A) : Prop := (key a == key b)%Q.

#[local] Instance key_eq_equiv : Equivalence key_eq.
Proof.
  unfold key_eq; split.
  - intros a; reflexivity.
  - intros a b H; now symmetry.
  - intros a b c H1 H2; now rewrite H1.
Qed.

Lemma insert_by_key_perm (x : A) (l : list A) :
  Permutation (insert_by_key key x l) (x :: l).
Proof.
  induction l as [|y t IH]; simpl; [reflexivity|].
  destruct (Qlt_le_dec (key y) (key x)); [|reflexivity].
  rewrite IH; apply perm_swap.
Qed.

Lemma sort_by_key_perm (l : list A) : Permutation (sort_by_key key l) l.
Proof.
  induction l as [|x t IH]; simpl; [reflexivity|].
  rewrite insert_by_key_perm; now constructor.
Qed.

Lemma sort_by_key_length (l : list A) :
  List.length (sort_by_key key l) = List.length l.
Proof. apply Permutation_length, sort_by_key_perm. Qed.

Lemma insert_by_key_hd (x : A) (l : list A) (a : A) :
  key_le a x -> HdRel key_le a l -> HdRel key_le a (insert_by_key key x l).
Proof.
  intros Hax Hal; destruct l as [|y t]; simpl.
  - now constructor.
  - inversion Hal; subst.
    destruct (Qlt_le_dec (key y) (key x)); now constructor.
Qed.

Lemma insert_by_key_sorted (x : A) (l : list A) :
  Sorted key_le l -> Sorted key_le (insert_by_key key x l).
Proof.
  induction 1 as [|y t Ht IH Hy]; simpl.
  - repeat constructor.
  - destruct (Qlt_le_dec (key y) (key x)) as [Hlt|Hle].
    + constructor; [assumption|].
      apply insert_by_key_hd; [|assumption].
      now apply Qlt_le_weak.
    + constructor; [now constructor|]. now constructor.
Qed.

Lemma sort_by_key_sorted (l : list A) : Sorted key_le (sort_by_key key l).
Proof.
  induction l as [|x t IH]; simpl; [constructor|].
  now apply insert_by_key_sorted.
Qed.

Lemma sort_by_key_strongly_sorted (l : list A) :
  StronglySorted key_le (sort_by_key key l).
Proof.
  apply Sorted_StronglySorted; [|apply sort_by_key_sorted].
  intros a b c; unfold key_le; apply Qle_trans.
Qed.

(** Two insertions commute unless the keys tie. *)
Lemma insert_by_key_comm (x y : A) (l : list A) :
  ~ key_eq x y ->
  insert_by_key key x (insert_by_key key y l) =
  insert_by_key key y (insert_by_key key x l).
Proof.
  unfold key_eq; intros Hxy.
  induction l as [|z t IH]; simpl.
  - destruct (Qlt_le_dec (key y) (key x)) as [H1|H1];
      destruct (Qlt_le_dec (key x) (key y)) as [H2|H2]; try reflexivity.
    + exfalso; apply (Qlt_irrefl (key x)); now apply Qlt_trans with (key y).
    + exfalso; apply Hxy; now apply Qle_antisym.
  - destruct (Qlt_le_dec (key z) (key y)) as [Hzy|Hzy];
      destruct (Qlt_le_dec (key z) (key x)) as [Hzx|Hzx]; simpl;
      repeat match goal with
        | |- context [Qlt_le_dec ?a ?b] => destruct (Qlt_le_dec a b)
        end;
      try reflexivity; try (now rewrite IH); exfalso;
      try (apply Hxy; apply Qle_antisym; assumption);
      repeat match goal with
        | H1 : (?a < ?b)%Q, H2 : (?b <= ?c)%Q |- _ =>
            lazymatch goal with
            | _ : (a < c)%Q |- _ => fail
            | _ => pose proof (Qlt_le_trans _ _ _ H1 H2)
            end
        | H1 : (?a <= ?b)%Q, H2 : (?b < ?c)%Q |- _ =>
            lazymatch goal with
            | _ : (a < c)%Q |- _ => fail
            | _ => pose proof (Qle_lt_trans _ _ _ H1 H2)
            end
        | H : (?a < ?a)%Q |- _ => exact (Qlt_irrefl _ H)
        | H1 : (?a < ?b)%Q, H2 : (?b < ?a)%Q |- _ =>
            exact (Qlt_irrefl _ (Qlt_trans _ _ _ H1 H2))
        end.
Qed.

(** With pairwise distinct keys the sorted list does not depend on the
    order of the input. *)
Lemma sort_by_key_order_irrelevant (l l' : list A) :
  Permutation l l' -> NoDupA key_eq l ->
  sort_by_key key l = sort_by_key key l'.
Proof.
  intros HP; induction HP as [|x l l' HP IH|x y l|l l' l'' HP1 IH1 HP2 IH2];
    intros Hnd.
  - reflexivity.
  - simpl; rewrite IH; [reflexivity|]. now inversion Hnd.
  - simpl. apply insert_by_key_comm.
    inversion Hnd as [|? ? Hnin _]; subst.
    intros E; apply Hnin; left. exact E.
  - rewrite IH1 by assumption. apply IH2.
    eapply PermutationA_preserves_NoDupA; [typeclasses eauto| |eassumption].
    apply Permutation_PermutationA; [typeclasses eauto|assumption].
Qed.

Lemma NoDupA_map_key (l : list A) :
  NoDupA Qeq (map key l) -> NoDupA key_eq l.
Proof.
  induction l as [|x t IH]; simpl; intros H; [constructor|].
  inversion H as [|? ? Hnin Hnd]; subst.
  constructor; [|now apply IH].
  intros Hin; apply Hnin.
  apply InA_alt in Hin; destruct Hin as (y & Hxy & Hy).
  apply InA_alt; exists (key y); split; [exact Hxy|now apply in_map].
Qed.

End StableSort.

Lemma sort_by_key_map {A B} (key : B -> Q) (h : A -> B) (l : list A) :
  sort_by_key key (map h l) = map h (sort_by_key (fun a => key (h a)) l).
Proof.
  induction l as [|x t IH]; simpl; [reflexivity|].
  rewrite IH; clear IH.
  induction (sort_by_key (fun a => key (h a)) t) as [|y u IHu]; simpl;
    [reflexivity|].
  destruct (Qlt_le_dec (key (h y)) (key (h x))); simpl; [now rewrite IHu|reflexivity].
Qed.

(* ------------------------------------------------------------------ *)
(** ** Distances *)

Section Distance.

Context {floats : Floats} {shapely : Shapely}.

(** The value [calculate_segment_distance] settles on: the reprojected
    length when there is one, else the rough conversion, else zero. *)
Definition distance_tiers (segment_line : LineString) : float :=
  match mercator_length segment_line with
  | Some len => round3 (fdiv len 1000)
  | None =>
      match geom_length segment_line with
      | Some len => round3 (fmul len (fnum (11132 # 100)))
      | None => fnum 0
      end
  end.

Lemma calculate_segment_distance_returns (segment_line : LineString) :
  calculate_segment_distance segment_line = Returned (distance_tiers segment_line).
Proof.
  unfold calculate_segment_distance, distance_tiers.
  destruct (mercator_length segment_line); simpl; [reflexivity|].
  destruct (geom_length segment_line); reflexivity.
Qed.

(** C8 (as the code has it). [calculate_segment_distance] never raises:
    it returns the reprojected length divided by 1000 and rounded to three
    decimals; when the reprojection fails, the native length times 111.32
    rounded to three decimals; when that fails too, 0.0.  The value is
    what float arithmetic makes of the length the library reports, an
    infinite length included. *)
Theorem calculate_segment_distance_total (segment_line : LineString) :
  exists d : float,
    calculate_segment_distance segment_line = Returned d /\
    (forall len, mercator_length segment_line = Some len ->
                 d = round3 (fdiv len 1000)) /\
    (mercator_length segment_line = None ->
     forall len, geom_length segment_line = Some len ->
                 d = round3 (fmul len (fnum (11132 # 100)))) /\
    (mercator_length segment_line = None ->
     geom_length segment_line = None -> d = fnum 0).
Proof.
  exists (distance_tiers segment_line).
  split; [apply calculate_segment_distance_returns|].
  unfold distance_tiers.
  destruct (mercator_length segment_line) as [m|] eqn:Em.
  - repeat split; try discriminate.
    intros len E; now injection E as <-.
  - destruct (geom_length segment_line) as [n|] eqn:En.
    + repeat split; try discriminate.
      intros _ len E; now injection E as <-.
    + repeat split; try discriminate; reflexivity.
Qed.

End Distance.

(* ------------------------------------------------------------------ *)
(** ** Route segmentation *)

Lemma StronglySorted_nth {A} (R : A -> A -> Prop) (l : list A) :
  StronglySorted R l ->
  forall i j a b, i < j -> nth_error l i = Some a -> nth_error l j = Some b ->
                  R a b.
Proof.
  induction 1 as [|x t Ht IH Hx]; intros i j a b Hij Hi Hj.
  - destruct i; discriminate.
  - destruct j as [|j]; [lia|]. simpl in Hj.
    destruct i as [|i]; simpl in Hi.
    + injection Hi as <-.
      rewrite Forall_forall in Hx; apply Hx.
      eapply nth_error_In; eassumption.
    + apply (IH i j); [lia|assumption..].
Qed.

Section SegmenterProps.

Context {floats : Floats} {shapely : Shapely} {pandas : Pandas}.

(** The rows of the frame that belong to a route. *)
Definition stops_of_route (route_id : pyval) (stops_gdf : StopsFrame) : list StopRow :=
  filter (fun r => pd_eq (st_route_id r) route_id) (frame_rows stops_gdf).

Lemma project_point_to_line_eq (point : Point) (line : LineString) :
  project_point_to_line point line = line_project line point.
Proof.
  unfold project_point_to_line.
  destruct (line_project line point); reflexivity.
Qed.

Lemma get_route_stops_ordered_perm (route_id : pyval) (stops_gdf : StopsFrame)
      (route_stops : list StopRow) :
  get_route_stops_ordered route_id stops_gdf = Returned route_stops ->
  Permutation route_stops (stops_of_route route_id stops_gdf).
Proof.
  unfold get_route_stops_ordered, stops_of_route.
  destruct (Nat.eqb _ 0); [intros E; injection E as <-; reflexivity|].
  destruct (has_sequence stops_gdf); [apply sort_values_perm|].
  intros E; injection E as <-; reflexivity.
Qed.

Lemma get_route_stops_ordered_length (route_id : pyval) (stops_gdf : StopsFrame)
      (route_stops : list StopRow) :
  get_route_stops_ordered route_id stops_gdf = Returned route_stops ->
  List.length route_stops = List.length (stops_of_route route_id stops_gdf).
Proof. intros H; apply Permutation_length, get_route_stops_ordered_perm, H. Qed.

(** Fewer than two rows are handed out as they are. *)
Lemma get_route_stops_ordered_short (route_id : pyval) (stops_gdf : StopsFrame) :
  List.length (stops_of_route route_id stops_gdf) < 2 ->
  get_route_stops_ordered route_id stops_gdf =
  Returned (stops_of_route route_id stops_gdf).
Proof.
  unfold get_route_stops_ordered, stops_of_route; intros H.
  destruct (Nat.eqb _ 0); [reflexivity|].
  destruct (has_sequence stops_gdf); [|reflexivity].
  apply sort_values_short; lia.
Qed.

(** Without a [sequence] column nothing is sorted. *)
Lemma get_route_stops_ordered_unsorted (route_id : pyval) (stops_gdf : StopsFrame) :
  has_sequence stops_gdf = false ->
  get_route_stops_ordered route_id stops_gdf =
  Returned (stops_of_route route_id stops_gdf).
Proof.
  unfold get_route_stops_ordered, stops_of_route; intros ->.
  now destruct (Nat.eqb _ 0).
Qed.

Lemma project_stops_length_le (g : LineString) (rows : list StopRow) (idx : nat) :
  List.length (project_stops g idx rows) <= List.length rows.
Proof.
  revert idx; induction rows as [|r t IH]; intros idx; simpl; [lia|].
  destruct (project_point_to_line (st_geometry r) g); simpl;
    specialize (IH (S idx)); lia.
Qed.

Lemma project_stops_length_all (g : LineString) (rows : list StopRow) (idx : nat) :
  (forall r, In r rows -> project_point_to_line (st_geometry r) g <> None) ->
  List.length (project_stops g idx rows) = List.length rows.
Proof.
  revert idx; induction rows as [|r t IH]; intros idx H; simpl; [reflexivity|].
  destruct (project_point_to_line (st_geometry r) g) eqn:E.
  - simpl; f_equal; apply IH; intros; apply H; now right.
  - exfalso; now apply (H r (or_introl eq_refl)).
Qed.

Lemma project_stops_In (g : LineString) (rows : list StopRow) (idx : nat)
      (sp : StopProjection) :
  In sp (project_stops g idx rows) ->
  In (stop_data sp) rows /\
  project_point_to_line (st_geometry (stop_data sp)) g = Some (projection_distance sp).
Proof.
  revert idx; induction rows as [|r t IH]; intros idx; simpl; [intros []|].
  destruct (project_point_to_line (st_geometry r) g) eqn:E.
  - intros [<-|H]; simpl; [auto|].
    destruct (IH _ H); auto.
  - intros H; destruct (IH _ H); auto.
Qed.

Lemma sorted_stop_projections_In (g : LineString) (rows : list StopRow)
      (sp : StopProjection) :
  In sp (sorted_stop_projections g rows) ->
  In (stop_data sp) rows /\
  project_point_to_line (st_geometry (stop_data sp)) g = Some (projection_distance sp).
Proof.
  unfold sorted_stop_projections; intros H.
  apply (Permutation_in _ (sort_by_key_perm _ _)) in H.
  eapply project_stops_In; eassumption.
Qed.

Lemma make_segment_eq (g : LineString) (c e : option pyval)
      (a b : StopProjection) :
  make_segment g c e (a, b) =
  Returned
    {| s_stop_cn := get_str (st_name_cn (stop_data a));
       s_stop_en := get_str (st_name_en (stop_data a));
       s_stopid := get_str (st_stop_id (stop_data a));
       e_stop_cn := get_str (st_name_cn (stop_data b));
       e_stop_en := get_str (st_name_en (stop_data b));
       e_stopid := get_str (st_stop_id (stop_data b));
       distance := distance_tiers (segment_geometry g a b);
       city_cn := get_str c;
       city_en := get_str e;
       geometry := segment_geometry g a b |}.
Proof.
  unfold make_segment.
  now rewrite calculate_segment_distance_returns.
Qed.

(** The loop over consecutive stops never raises. *)
Lemma segment_loop_returns (g : LineString) (c e : option pyval)
      (sp : list StopProjection) :
  exists segs, for_each (make_segment g c e) (consecutive_pairs sp) = Returned segs.
Proof.
  apply for_each_returns; intros [a b] _; rewrite make_segment_eq; eauto.
Qed.

(** What [create_segments_from_route] does once the rows of the route are
    there and the two guards are passed. *)
Lemma create_segments_from_route_loop (route_row : RouteRow) (stops_gdf : StopsFrame)
      (route_stops : list StopRow) (g : LineString) :
  get_route_stops_ordered (rt_route_id route_row) stops_gdf = Returned route_stops ->
  rt_geometry route_row = Some g -> is_empty g = false ->
  2 <= List.length (stops_of_route (rt_route_id route_row) stops_gdf) ->
  create_segments_from_route route_row stops_gdf =
  for_each (make_segment g (rt_city_cn route_row) (rt_city_en route_row))
    (consecutive_pairs (sorted_stop_projections g route_stops)).
Proof.
  intros Hrs Hg He HN; unfold create_segments_from_route.
  rewrite Hrs; cbn [bind].
  rewrite (get_route_stops_ordered_length _ _ _ Hrs), Hg, He.
  destruct (Nat.ltb_spec (List.length (stops_of_route (rt_route_id route_row) stops_gdf)) 2);
    [lia|reflexivity].
Qed.

(** The only exception that leaves [create_segments_from_route] is the one
    of the sort by [sequence]. *)
Lemma create_segments_from_route_raises (route_row : RouteRow) (stops_gdf : StopsFrame) :
  create_segments_from_route route_row stops_gdf = Raised <->
  get_route_stops_ordered (rt_route_id route_row) stops_gdf = Raised.
Proof.
  unfold create_segments_from_route.
  destruct (get_route_stops_ordered (rt_route_id route_row) stops_gdf)
    as [route_stops|]; cbn [bind]; [|tauto].
  split; [|discriminate].
  destruct (Nat.ltb _ 2); [discriminate|].
  destruct (rt_geometry route_row) as [g|]; [|discriminate].
  destruct (is_empty g); [discriminate|].
  destruct (segment_loop_returns g (rt_city_cn route_row) (rt_city_en route_row)
              (sorted_stop_projections g route_stops)) as [segs ->].
  discriminate.
Qed.

Lemma create_segments_from_route_returns (route_row : RouteRow) (stops_gdf : StopsFrame)
      (route_stops : list StopRow) :
  get_route_stops_ordered (rt_route_id route_row) stops_gdf = Returned route_stops ->
  exists segs, create_segments_from_route route_row stops_gdf = Returned segs.
Proof.
  intros H.
  destruct (create_segments_from_route route_row stops_gdf) as [segs|] eqn:E;
    [eauto|].
  apply create_segments_from_route_raises in E; congruence.
Qed.

(** Every segment that is returned was made by a turn of the loop, from
    the stops at positions [i] and [i + 1] of the sorted projections. *)
Lemma create_segments_from_route_nth (route_row : RouteRow) (stops_gdf : StopsFrame)
      (segs : list Segment) (i : nat) (seg : Segment) :
  create_segments_from_route route_row stops_gdf = Returned segs ->
  nth_error segs i = Some seg ->
  exists g route_stops a b,
    rt_geometry route_row = Some g /\
    get_route_stops_ordered (rt_route_id route_row) stops_gdf = Returned route_stops /\
    let sp := sorted_stop_projections g route_stops in
    nth_error sp i = Some a /\ nth_error sp (S i) = Some b /\
    make_segment g (rt_city_cn route_row) (rt_city_en route_row) (a, b) = Returned seg.
Proof.
  unfold create_segments_from_route; intros H Hi.
  destruct (get_route_stops_ordered (rt_route_id route_row) stops_gdf)
    as [route_stops|]; cbn [bind] in H; [|discriminate].
  destruct (Nat.ltb _ 2).
  { injection H as <-; destruct i; discriminate. }
  destruct (rt_geometry route_row) as [g|].
  2:{ injection H as <-; destruct i; discriminate. }
  destruct (is_empty g).
  { injection H as <-; destruct i; discriminate. }
  destruct (for_each_nth _ _ _ _ _ H Hi) as ([a b] & Hp & Hm).
  apply consecutive_pairs_nth in Hp; destruct Hp as [Ha Hb].
  exists g, route_stops, a, b; auto.
Qed.

(** C1 (as the code has it). When the rows of the route are handed out
    (the sort by [sequence] does not raise), a route with [N >= 2] stops
    that all project onto its (non-empty) geometry yields exactly [N - 1]
    segments, and a route with an undefined or empty geometry yields the
    empty list; a route with fewer than two stops always yields the empty
    list.  When the sort raises, so does [create_segments_from_route]; a
    frame without [sequence] column is never sorted. *)
Theorem create_segments_from_route_count (route_row : RouteRow) (stops_gdf : StopsFrame) :
  let rows := stops_of_route (rt_route_id route_row) stops_gdf in
  let N := List.length rows in
  (forall g route_stops,
      get_route_stops_ordered (rt_route_id route_row) stops_gdf = Returned route_stops ->
      rt_geometry route_row = Some g -> is_empty g = false ->
      (forall r, In r rows -> project_point_to_line (st_geometry r) g <> None) ->
      2 <= N ->
      exists segs,
        create_segments_from_route route_row stops_gdf = Returned segs /\
        List.length segs = N - 1) /\
  (N < 2 -> create_segments_from_route route_row stops_gdf = Returned []) /\
  (forall route_stops,
      get_route_stops_ordered (rt_route_id route_row) stops_gdf = Returned route_stops ->
      rt_geometry route_row = None \/
      (exists g, rt_geometry route_row = Some g /\ is_empty g = true) ->
      create_segments_from_route route_row stops_gdf = Returned []) /\
  (get_route_stops_ordered (rt_route_id route_row) stops_gdf = Raised ->
   create_segments_from_route route_row stops_gdf = Raised) /\
  (has_sequence stops_gdf = false ->
   get_route_stops_ordered (rt_route_id route_row) stops_gdf = Returned rows).
Proof.
  intros rows N; repeat apply conj.
  - intros g route_stops Hrs Hg He Hall HN.
    rewrite (create_segments_from_route_loop _ _ _ g Hrs Hg He HN).
    destruct (segment_loop_returns g (rt_city_cn route_row) (rt_city_en route_row)
                (sorted_stop_projections g route_stops)) as [segs Hsegs].
    exists segs; split; [assumption|].
    rewrite (for_each_length _ _ _ Hsegs), consecutive_pairs_length.
    unfold sorted_stop_projections.
    rewrite sort_by_key_length, project_stops_length_all.
    + now rewrite (get_route_stops_ordered_length _ _ _ Hrs).
    + intros r Hr; apply Hall.
      eapply Permutation_in; [apply get_route_stops_ordered_perm, Hrs|assumption].
  - intros HN; unfold create_segments_from_route.
    rewrite (get_route_stops_ordered_short _ _ HN); cbn [bind].
    fold rows; fold N.
    destruct (Nat.ltb_spec N 2); [reflexivity|lia].
  - intros route_stops Hrs Hgeo; unfold create_segments_from_route.
    rewrite Hrs; cbn [bind].
    destruct (Nat.ltb _ 2); [reflexivity|].
    destruct Hgeo as [Hg|(g & Hg & He)]; rewrite Hg; [reflexivity|].
    now rewrite He.
  - apply create_segments_from_route_raises.
  - apply get_route_stops_ordered_unsorted.
Qed.

End SegmenterProps.

(* ------------------------------------------------------------------ *)
(** ** Fallback geometry and the chain of segments *)

Section SegmentShape.

Context {floats : Floats} {shapely : Shapely} {pandas : Pandas}.

(** C7. When the slice between two consecutive stops is refused
    ([extract_line_segment] gives [None]), the segment emitted for the
    pair is the two-point line between the raw locations of the two stops,
    and its distance is the one [calculate_segment_distance] computes from
    that line. *)
Theorem fallback_geometry (route_row : RouteRow) (stops_gdf : StopsFrame)
        (route_stops : list StopRow) (g : LineString) (i : nat)
        (a b : StopProjection) :
  get_route_stops_ordered (rt_route_id route_row) stops_gdf = Returned route_stops ->
  rt_geometry route_row = Some g -> is_empty g = false ->
  2 <= List.length (stops_of_route (rt_route_id route_row) stops_gdf) ->
  let sp := sorted_stop_projections g route_stops in
  nth_error sp i = Some a -> nth_error sp (S i) = Some b ->
  extract_line_segment g (projection_distance a) (projection_distance b) = None ->
  exists segs seg,
    create_segments_from_route route_row stops_gdf = Returned segs /\
    nth_error segs i = Some seg /\
    s_stopid seg = get_str (st_stop_id (stop_data a)) /\
    e_stopid seg = get_str (st_stop_id (stop_data b)) /\
    geometry seg = [st_geometry (stop_data a); st_geometry (stop_data b)] /\
    calculate_segment_distance
      [st_geometry (stop_data a); st_geometry (stop_data b)]
    = Returned (distance seg).
Proof.
  intros Hrs Hg He HN sp Ha Hb Hx.
  rewrite (create_segments_from_route_loop _ _ _ g Hrs Hg He HN); fold sp.
  destruct (segment_loop_returns g (rt_city_cn route_row) (rt_city_en route_row) sp)
    as [segs Hsegs].
  assert (nth_error (consecutive_pairs sp) i = Some (a, b)) as Hp
      by now apply consecutive_pairs_nth.
  pose proof Hsegs as HF; apply for_each_Forall2 in HF.
  assert (exists seg, nth_error segs i = Some seg /\
                      make_segment g (rt_city_cn route_row) (rt_city_en route_row) (a, b)
                      = Returned seg) as (seg & Hseg & Hm).
  { clear -HF Hp. revert i Hp.
    induction HF as [|p s ps ss Hps _ IH]; intros i Hp.
    - destruct i; discriminate.
    - destruct i as [|i]; simpl in *.
      + injection Hp as ->; eauto.
      + auto. }
  exists segs, seg; split; [assumption|]; split; [assumption|].
  rewrite make_segment_eq in Hm; injection Hm as <-; simpl.
  unfold segment_geometry; rewrite Hx.
  repeat split; try reflexivity.
  apply calculate_segment_distance_returns.
Qed.

(** C10. The segments of a route form a chain: each segment ends at the
    stop (id and both names) the next one starts from; and they follow the
    route: the projected arc-length position of the start stop of a
    segment is at most that of every later segment. *)
Theorem segments_form_chain (route_row : RouteRow) (stops_gdf : StopsFrame)
        (segs : list Segment) :
  create_segments_from_route route_row stops_gdf = Returned segs ->
  (forall i x y,
      nth_error segs i = Some x -> nth_error segs (S i) = Some y ->
      e_stopid x = s_stopid y /\ e_stop_cn x = s_stop_cn y /\
      e_stop_en x = s_stop_en y) /\
  (forall i j x y,
      i < j -> nth_error segs i = Some x -> nth_error segs j = Some y ->
      exists g sx sy px py,
        rt_geometry route_row = Some g /\
        In sx (stops_of_route (rt_route_id route_row) stops_gdf) /\
        In sy (stops_of_route (rt_route_id route_row) stops_gdf) /\
        (s_stopid x, s_stop_cn x, s_stop_en x) =
          (get_str (st_stop_id sx), get_str (st_name_cn sx), get_str (st_name_en sx)) /\
        (s_stopid y, s_stop_cn y, s_stop_en y) =
          (get_str (st_stop_id sy), get_str (st_name_cn sy), get_str (st_name_en sy)) /\
        project_point_to_line (st_geometry sx) g = Some px /\
        project_point_to_line (st_geometry sy) g = Some py /\
        (px <= py)%Q).
Proof.
  intros H; split.
  - intros i x y Hx Hy.
    destruct (create_segments_from_route_nth _ _ _ _ _ H Hx)
      as (g & rs & a & b & Hg & Hrs & _ & Hb & Hm).
    destruct (create_segments_from_route_nth _ _ _ _ _ H Hy)
      as (g' & rs' & a' & b' & Hg' & Hrs' & Ha' & _ & Hm').
    assert (g' = g) as -> by congruence.
    assert (rs' = rs) as -> by congruence.
    assert (a' = b) as -> by congruence.
    rewrite make_segment_eq in Hm, Hm'.
    injection Hm as <-; injection Hm' as <-; simpl; auto.
  - intros i j x y Hij Hx Hy.
    destruct (create_segments_from_route_nth _ _ _ _ _ H Hx)
      as (g & rs & a & b & Hg & Hrs & Ha & _ & Hm).
    destruct (create_segments_from_route_nth _ _ _ _ _ H Hy)
      as (g' & rs' & a' & b' & Hg' & Hrs' & Ha' & _ & Hm').
    assert (g' = g) as -> by congruence.
    assert (rs' = rs) as -> by congruence.
    rewrite make_segment_eq in Hm, Hm'.
    injection Hm as <-; injection Hm' as <-; simpl.
    destruct (sorted_stop_projections_In _ _ _ (nth_error_In _ _ Ha)) as [Hina Hpa].
    destruct (sorted_stop_projections_In _ _ _ (nth_error_In _ _ Ha')) as [Hina' Hpa'].
    exists g, (stop_data a), (stop_data a'),
      (projection_distance a), (projection_distance a').
    repeat split; try assumption.
    + eapply Permutation_in; [apply get_route_stops_ordered_perm, Hrs|assumption].
    + eapply Permutation_in; [apply get_route_stops_ordered_perm, Hrs|assumption].
    + eapply (StronglySorted_nth (key_le projection_distance)); [|exact Hij|exact Ha|exact Ha'].
      apply sort_by_key_strongly_sorted.
Qed.

End SegmentShape.

(* ------------------------------------------------------------------ *)
(** ** The order of the input and the sequence hint do not matter *)

Lemma Permutation_filter {A} (p : A -> bool) (l l' : list A) :
  Permutation l l' -> Permutation (filter p l) (filter p l').
Proof.
  induction 1 as [|x l l' _ IH|x y l|l l' l'' _ IH1 _ IH2]; simpl.
  - constructor.
  - destruct (p x); [now constructor|assumption].
  - destruct (p x), (p y); try reflexivity. apply perm_swap.
  - now transitivity (filter p l').
Qed.

(** A stop row with its [sequence] cell blanked. *)
Definition forget_sequence (r : StopRow) : StopRow :=
  {| st_route_id := st_route_id r;
     st_stop_id := st_stop_id r;
     st_name_cn := st_name_cn r;
     st_name_en := st_name_en r;
     st_city_cn := st_city_cn r;
     st_city_en := st_city_en r;
     st_sequence := PNone;
     st_geometry := st_geometry r |}.

Section Noninterference.

Context {floats : Floats} {shapely : Shapely} {pandas : Pandas}.

(** The arc-length positions of the stops of a route that survive the
    projection, in frame order. *)
Definition surviving_positions (g : LineString) (rows : list StopRow) : list Q :=
  map projection_distance (project_stops g 0 rows).

(** What the segment loop reads of an entry of [stop_projections]. *)
Definition view (sp : StopProjection) : StopRow * Q :=
  (forget_sequence (stop_data sp), projection_distance sp).

Definition unview (v : StopRow * Q) : StopProjection :=
  mkProj 0 (fst v) (snd v).

Definition project_row (g : LineString) (r : StopRow) : list (StopRow * Q) :=
  match project_point_to_line (st_geometry r) g with
  | Some d => [(forget_sequence r, d)]
  | None => []
  end.

Lemma view_project_stops (g : LineString) (rows : list StopRow) (idx : nat) :
  map view (project_stops g idx rows) = flat_map (project_row g) rows.
Proof.
  revert idx; induction rows as [|r t IH]; intros idx; simpl; [reflexivity|].
  unfold project_row at 1.
  destruct (project_point_to_line (st_geometry r) g); simpl; now rewrite IH.
Qed.

Lemma project_row_forget (g : LineString) (rows : list StopRow) :
  flat_map (project_row g) rows =
  flat_map (project_row g) (map forget_sequence rows).
Proof.
  induction rows as [|r t IH]; simpl; [reflexivity|].
  now rewrite IH.
Qed.

Lemma make_segment_view (g : LineString) (c e : option pyval)
      (a b : StopProjection) :
  make_segment g c e (a, b) = make_segment g c e (unview (view a), unview (view b)).
Proof. now rewrite !make_segment_eq. Qed.

Lemma segments_from_view (g : LineString) (c e : option pyval)
      (sp : list StopProjection) :
  for_each (make_segment g c e) (consecutive_pairs sp) =
  for_each (fun p => make_segment g c e (unview (fst p), unview (snd p)))
           (consecutive_pairs (map view sp)).
Proof.
  rewrite consecutive_pairs_map, for_each_map.
  apply for_each_ext; intros [a b] _; simpl.
  apply make_segment_view.
Qed.

Lemma stops_of_route_forget (route_id : pyval) (stops_gdf : StopsFrame) :
  map forget_sequence (stops_of_route route_id stops_gdf) =
  filter (fun r => pd_eq (st_route_id r) route_id)
         (map forget_sequence (frame_rows stops_gdf)).
Proof. unfold stops_of_route; now rewrite filter_map_swap. Qed.

(** C5 (as the code has it). Two frames that hold the same stop rows up
    to the [sequence] cells and the order of the rows (and whether there
    is a [sequence] column at all) give the same segment list, provided
    the surviving stops of the route project to pairwise distinct
    arc-length positions and the rows of the route are handed out in both
    runs (the sort by [sequence] raises in neither). *)
Theorem sequence_and_order_irrelevant (route_row : RouteRow)
        (stops1 stops2 : StopsFrame) (route_stops1 route_stops2 : list StopRow) :
  Permutation (map forget_sequence (frame_rows stops1))
              (map forget_sequence (frame_rows stops2)) ->
  (forall g, rt_geometry route_row = Some g ->
             NoDupA Qeq (surviving_positions g
                           (stops_of_route (rt_route_id route_row) stops1))) ->
  get_route_stops_ordered (rt_route_id route_row) stops1 = Returned route_stops1 ->
  get_route_stops_ordered (rt_route_id route_row) stops2 = Returned route_stops2 ->
  create_segments_from_route route_row stops1 =
  create_segments_from_route route_row stops2.
Proof.
  intros HP Hdistinct H1 H2.
  set (rid := rt_route_id route_row) in *.
  pose proof (get_route_stops_ordered_perm _ _ _ H1) as P1.
  pose proof (get_route_stops_ordered_perm _ _ _ H2) as P2.
  assert (Permutation (map forget_sequence route_stops1)
                      (map forget_sequence route_stops2)) as Hrs.
  { rewrite P1, P2, !stops_of_route_forget.
    now apply Permutation_filter. }
  unfold create_segments_from_route; fold rid.
  rewrite H1, H2; cbn [bind].
  replace (List.length route_stops2) with (List.length route_stops1)
    by (rewrite <- (length_map forget_sequence), (Permutation_length Hrs);
        apply length_map).
  destruct (Nat.ltb _ 2); [reflexivity|].
  destruct (rt_geometry route_row) as [g|] eqn:Hg; [|reflexivity].
  destruct (is_empty g); [reflexivity|].
  rewrite !segments_from_view.
  do 2 f_equal.
  unfold sorted_stop_projections.
  rewrite <- !(sort_by_key_map snd view), !view_project_stops.
  apply sort_by_key_order_irrelevant.
  - rewrite (project_row_forget g route_stops1), (project_row_forget g route_stops2).
    now apply Permutation_flat_map.
  - apply NoDupA_map_key.
    rewrite <- view_project_stops with (idx := 0), map_map; simpl.
    eapply PermutationA_preserves_NoDupA;
      [typeclasses eauto| |apply (Hdistinct g eq_refl)].
    apply Permutation_PermutationA; [typeclasses eauto|].
    unfold surviving_positions.
    rewrite <- !(map_map view snd), !view_project_stops.
    apply Permutation_map, Permutation_flat_map.
    symmetry; exact P1.
Qed.

End Noninterference.

(* ------------------------------------------------------------------ *)
(** ** Grouping with a dictionary *)

Section FirstSeen.

Context {K : Type} (eqb : K -> K -> bool).
Hypothesis eqb_spec : forall a b, eqb a b = true <-> a = b.

(** Adding to a collection that keeps one copy of each element, in the
    order of arrival. *)
Definition add_new (k : K) (acc : list K) : list K :=
  if existsb (eqb k) acc then acc else acc ++ [k].

(** The distinct elements of a list, in the order of their first
    occurrence. *)
Definition first_seen (l : list K) : list K :=
  fold_left (fun acc k => add_new k acc) l [].

Lemma existsb_eqb (k : K) (l : list K) : existsb (eqb k) l = true <-> In k l.
Proof.
  rewrite existsb_exists; split.
  - intros (x & Hx & E); apply eqb_spec in E; now subst.
  - intros H; exists k; split; [assumption|now apply eqb_spec].
Qed.

Lemma existsb_eqb_false (k : K) (l : list K) : existsb (eqb k) l = false <-> ~ In k l.
Proof.
  rewrite <- existsb_eqb. destruct (existsb (eqb k) l); split; congruence.
Qed.

Lemma first_seen_snoc (l : list K) (k : K) :
  first_seen (l ++ [k]) = add_new k (first_seen l).
Proof. unfold first_seen; now rewrite fold_left_app. Qed.

Lemma add_new_In (k x : K) (acc : list K) :
  In x (add_new k acc) <-> x = k \/ In x acc.
Proof.
  unfold add_new; destruct (existsb (eqb k) acc) eqn:E.
  - apply existsb_eqb in E; split; [auto|]. intros [->|H]; assumption.
  - rewrite in_app_iff; simpl; intuition.
Qed.

Lemma add_new_NoDup (k : K) (acc : list K) : NoDup acc -> NoDup (add_new k acc).
Proof.
  intros H; unfold add_new; destruct (existsb (eqb k) acc) eqn:E; [assumption|].
  apply existsb_eqb_false in E.
  apply NoDup_app; [assumption|repeat constructor; intros []|].
  intros x Hx [<-|[]]; contradiction.
Qed.

Lemma first_seen_In (l : list K) (x : K) : In x (first_seen l) <-> In x l.
Proof.
  induction l as [|k l IH] using rev_ind; [reflexivity|].
  rewrite first_seen_snoc, add_new_In, in_app_iff, IH; simpl; intuition.
Qed.

Lemma first_seen_NoDup (l : list K) : NoDup (first_seen l).
Proof.
  induction l as [|k l IH] using rev_ind; [constructor|].
  rewrite first_seen_snoc; now apply add_new_NoDup.
Qed.

End FirstSeen.

Section Grouping.

Context {A K V : Type} (eqb : K -> K -> bool).
Hypothesis eqb_spec : forall a b, eqb a b = true <-> a = b.
Context (key : A -> K) (upd : A -> V -> V) (dflt : V).

(** The grouping loop shared by the aggregator and the deduplicator. *)
Definition grouping (l : list A) : list (K * V) :=
  fold_left (fun d x => dict_update eqb (key x) dflt (upd x) d) l [].

(** The items of a list that carry a given key, in order. *)
Definition members (k : K) (l : list A) : list A :=
  filter (fun x => eqb (key x) k) l.

(** The group value the loop builds from the members of a key. *)
Definition summary (k : K) (l : list A) : V :=
  fold_left (fun g x => upd x g) (members k l) dflt.

Lemma dict_update_present (k : K) (f : V -> V) (G : K -> V) (ks : list K) :
  NoDup ks -> In k ks ->
  dict_update eqb k dflt f (map (fun k' => (k', G k')) ks) =
  map (fun k' => (k', if eqb k k' then f (G k') else G k')) ks.
Proof.
  induction ks as [|a ks IH]; intros Hnd Hin; [destruct Hin|].
  inversion Hnd as [|? ? Hna Hnd']; subst; simpl.
  destruct (eqb k a) eqn:E.
  - apply eqb_spec in E; subst a. f_equal.
    apply map_ext_in; intros k' Hk'.
    destruct (eqb k k') eqn:E'; [|reflexivity].
    apply eqb_spec in E'; subst; contradiction.
  - f_equal. apply IH; [assumption|].
    destruct Hin as [->|Hin]; [|assumption].
    assert (eqb k k = true) by now apply eqb_spec. congruence.
Qed.

Lemma dict_update_absent (k : K) (f : V -> V) (G : K -> V) (ks : list K) :
  ~ In k ks ->
  dict_update eqb k dflt f (map (fun k' => (k', G k')) ks) =
  map (fun k' => (k', G k')) ks ++ [(k, f dflt)].
Proof.
  induction ks as [|a ks IH]; intros Hin; simpl; [reflexivity|].
  destruct (eqb k a) eqn:E.
  - apply eqb_spec in E; subst; exfalso; apply Hin; now left.
  - f_equal; apply IH; intros H; apply Hin; now right.
Qed.

Lemma members_snoc (k : K) (l : list A) (x : A) :
  members k (l ++ [x]) = members k l ++ (if eqb (key x) k then [x] else []).
Proof. unfold members; rewrite filter_app; reflexivity. Qed.

Lemma members_nil (k : K) (l : list A) : ~ In k (map key l) -> members k l = [].
Proof.
  intros H; unfold members.
  induction l as [|x t IH]; simpl; [reflexivity|].
  destruct (eqb (key x) k) eqn:E.
  - apply eqb_spec in E; exfalso; apply H; now left.
  - apply IH; intros Hin; apply H; now right.
Qed.

Lemma members_not_nil (k : K) (l : list A) : In k (map key l) -> members k l <> [].
Proof.
  intros H; apply in_map_iff in H; destruct H as (x & <- & Hx).
  assert (In x (members (key x) l)) as Hin.
  { apply filter_In; split; [assumption|now apply eqb_spec]. }
  intros E; rewrite E in Hin; destruct Hin.
Qed.

Lemma summary_snoc (k : K) (l : list A) (x : A) :
  summary k (l ++ [x]) =
  if eqb (key x) k then upd x (summary k l) else summary k l.
Proof.
  unfold summary; rewrite members_snoc.
  destruct (eqb (key x) k); [|now rewrite app_nil_r].
  now rewrite fold_left_app.
Qed.

(** The dictionary after the loop: one entry per distinct key, in the
    order the keys were first met, holding the summary of its members. *)
Theorem grouping_spec (l : list A) :
  grouping l = map (fun k => (k, summary k l)) (first_seen eqb (map key l)).
Proof.
  induction l as [|x l IH] using rev_ind; [reflexivity|].
  unfold grouping in *; rewrite fold_left_app; simpl; rewrite IH.
  rewrite map_app; simpl; rewrite first_seen_snoc.
  unfold add_new.
  destruct (existsb (eqb (key x)) (first_seen eqb (map key l))) eqn:E.
  - apply (existsb_eqb eqb eqb_spec) in E.
    rewrite dict_update_present;
      [|apply first_seen_NoDup; assumption|assumption].
    apply map_ext; intros k. rewrite summary_snoc.
    destruct (eqb (key x) k) eqn:Ek; [|reflexivity].
    apply eqb_spec in Ek; now subst.
  - apply (existsb_eqb_false eqb eqb_spec) in E.
    rewrite dict_update_absent by assumption.
    rewrite map_app; simpl. f_equal.
    + apply map_ext_in; intros k Hk. rewrite summary_snoc.
      destruct (eqb (key x) k) eqn:Ek; [|reflexivity].
      apply eqb_spec in Ek; subst; contradiction.
    + rewrite summary_snoc.
      assert (eqb (key x) (key x) = true) as -> by now apply eqb_spec.
      unfold summary; rewrite members_nil; [reflexivity|].
      now rewrite <- (first_seen_In eqb eqb_spec).
Qed.

End Grouping.

Lemma Forall2_weaken_In {A B} (R R' : A -> B -> Prop) (l : list A) (l' : list B) :
  (forall x y, In x l -> R x y -> R' x y) -> Forall2 R l l' -> Forall2 R' l l'.
Proof.
  intros H HF; induction HF as [|x y t t' Hxy _ IH]; constructor.
  - apply H; [now left|assumption].
  - apply IH; intros; apply H; [now right|assumption].
Qed.

Lemma Forall2_In_r {A B} (R : A -> B -> Prop) (l : list A) (l' : list B) (y : B) :
  Forall2 R l l' -> In y l' -> exists x, In x l /\ R x y.
Proof.
  induction 1 as [|x y' t t' Hxy _ IH]; intros Hin; [destruct Hin|].
  destruct Hin as [<-|Hin].
  - exists x; split; [now left|assumption].
  - destruct (IH Hin) as (x0 & ? & ?); exists x0; split; [now right|assumption].
Qed.

Lemma Forall2_In_l {A B} (R : A -> B -> Prop) (l : list A) (l' : list B) (x : A) :
  Forall2 R l l' -> In x l -> exists y, In y l' /\ R x y.
Proof.
  induction 1 as [|x' y t t' Hxy _ IH]; intros Hin; [destruct Hin|].
  destruct Hin as [<-|Hin].
  - exists y; split; [now left|assumption].
  - destruct (IH Hin) as (y0 & ? & ?); exists y0; split; [now right|assumption].
Qed.

Lemma Forall2_map_eq {A B C} (f : A -> C) (g : B -> C) (l : list A) (l' : list B) :
  Forall2 (fun x y => g y = f x) l l' -> map g l' = map f l.
Proof. induction 1; simpl; congruence. Qed.

(* ------------------------------------------------------------------ *)
(** ** Aggregated segments *)

Lemma key_eqb_spec (a b : string * string) : key_eqb a b = true <-> a = b.
Proof.
  destruct a as [a1 a2], b as [b1 b2]; unfold key_eqb; simpl.
  rewrite andb_true_iff, !String.eqb_eq.
  split; [intros [-> ->]; reflexivity|intros E; now injection E].
Qed.

Section AggregationProps.

Context {floats : Floats} {runtime : Runtime}.

(** The input segments that carry a given (start id, end id) pair. *)
Definition group_of (k : string * string) (segments_list : list Segment) : list Segment :=
  members key_eqb segment_key k segments_list.

(** The distinct city tags of a group, in the order they were met. *)
Definition distinct_cities (g : list Segment) : list string :=
  first_seen String.eqb (map city_cn g).

Lemma group_segments_spec (l : list Segment) :
  group_segments l =
  map (fun k => (k, summary key_eqb segment_key add_segment new_segment_group k l))
      (first_seen key_eqb (map segment_key l)).
Proof. apply (grouping_spec key_eqb key_eqb_spec). Qed.

Lemma add_segment_fold (ss : list Segment) (g0 : SegmentGroup) :
  fold_left (fun g x => add_segment x g) ss g0 =
  {| distances := distances g0 ++ map distance ss;
     first_segment :=
       match first_segment g0 with
       | Some s => Some s
       | None => hd_error ss
       end;
     cities := fold_left (fun acc c => add_new String.eqb c acc)
                         (map city_cn ss) (cities g0);
     count := count g0 + List.length ss |}.
Proof.
  revert g0; induction ss as [|s t IH]; intros g0; simpl.
  - rewrite app_nil_r, Nat.add_0_r. destruct g0 as [d [f|] c n]; reflexivity.
  - rewrite IH; simpl. rewrite <- app_assoc; simpl.
    f_equal; [|lia].
    destruct (first_segment g0); reflexivity.
Qed.

Lemma group_of_key (k : string * string) (l : list Segment) (s : Segment) :
  In s (group_of k l) -> segment_key s = k /\ In s l.
Proof.
  unfold group_of, members; rewrite filter_In.
  intros [H E]; apply key_eqb_spec in E; auto.
Qed.

(** The record [aggregate_segments] makes of a group, given the group and
    its first member. *)
Definition summarize (g : list Segment) (template : Segment) : AggregatedSegment :=
  {| agg_segment :=
       {| s_stop_cn := s_stop_cn template;
          s_stop_en := s_stop_en template;
          s_stopid := s_stopid template;
          e_stop_cn := e_stop_cn template;
          e_stop_en := e_stop_en template;
          e_stopid := e_stopid template;
          distance := avg_distance (map distance g);
          city_cn := join "; " (set_iter (distinct_cities g));
          city_en := city_en template;
          geometry := geometry template |};
     num := List.length g |}.

Definition aggregate_of (l : list Segment) (k : string * string)
           (a : AggregatedSegment) : Prop :=
  exists s rest, group_of k l = s :: rest /\ a = summarize (s :: rest) s.

(** [aggregate_segments] returns, one record per distinct key in the order
    of first occurrence, each the summary of the segments of its key. *)
Lemma aggregate_segments_groups (l : list Segment) :
  exists out,
    aggregate_segments l = Returned out /\
    Forall2 (aggregate_of l) (first_seen key_eqb (map segment_key l)) out.
Proof.
  unfold aggregate_segments; rewrite group_segments_spec, for_each_map.
  set (ks := first_seen key_eqb (map segment_key l)).
  assert (forall k, In k ks ->
            exists s rest, group_of k l = s :: rest /\
              finish_group (k, summary key_eqb segment_key add_segment
                                       new_segment_group k l)
              = Returned (summarize (s :: rest) s)) as Hfin.
  { intros k Hk. unfold ks in Hk.
    apply (proj1 (first_seen_In key_eqb key_eqb_spec _ _)) in Hk.
    apply (members_not_nil key_eqb key_eqb_spec segment_key) in Hk.
    fold (group_of k l) in Hk.
    destruct (group_of k l) as [|s rest] eqn:Eg; [congruence|].
    exists s, rest; split; [reflexivity|].
    unfold finish_group, summary; fold (group_of k l); rewrite Eg.
    cbn [snd]. rewrite add_segment_fold. reflexivity. }
  destruct (for_each_returns
              (fun k => finish_group
                          (k, summary key_eqb segment_key add_segment
                                      new_segment_group k l)) ks) as [out Hout].
  { intros k Hk; destruct (Hfin k Hk) as (s & rest & _ & ->); eauto. }
  exists out; split; [assumption|].
  apply for_each_Forall2 in Hout.
  eapply Forall2_weaken_In; [|exact Hout].
  intros k a Hk Ha; destruct (Hfin k Hk) as (s & rest & Eg & Es).
  exists s, rest; split; [assumption|congruence].
Qed.

Lemma aggregate_of_key (l : list Segment) (k : string * string)
      (a : AggregatedSegment) :
  aggregate_of l k a -> segment_key (agg_segment a) = k.
Proof.
  intros (s & rest & Eg & ->); unfold segment_key; simpl.
  assert (In s (group_of k l)) as Hin by (rewrite Eg; now left).
  now apply group_of_key in Hin.
Qed.

End AggregationProps.

(* ------------------------------------------------------------------ *)
(** ** IEEE 754 doubles *)

(** The arithmetic of CPython's floats on the reference model of binary64
    of the Standard Library.  The examples are run on it; the theorems
    hold of every arithmetic. *)
Module Binary64.

Definition prec : Z := 53.
Definition emax : Z := 1024.

Definition of_Z (z : Z) : spec_float :=
  match z with
  | Z0 => S754_zero false
  | Zpos p => S754_finite false p 0
  | Zneg p => S754_finite true p 0
  end.

(** The double nearest to a rational (ties to even). *)
Definition of_Q (q : Q) : spec_float :=
  SFdiv prec emax (of_Z (Qnum q)) (of_Z (Zpos (Qden q))).

Definition infinity : spec_float := S754_infinity false.

Definition is_finite (x : spec_float) : bool :=
  match x with
  | S754_zero _ | S754_finite _ _ _ => true
  | _ => false
  end.

Definition is_zero (x : spec_float) : bool :=
  match x with
  | S754_zero _ => true
  | _ => false
  end.

(** The number a finite double stands for. *)
Definition exact (m : positive) (e : Z) : Q :=
  if (0 <=? e)%Z then inject_Z (Zpos m * 2 ^ e)
  else Qmake (Zpos m) (Pos.pow 2 (Z.to_pos (- e))).

(** Rounding to an integer, ties to even. *)
Definition round_half_even (q : Q) : Z :=
  let f := Qfloor q in
  match Qcompare (q - inject_Z f) (1 # 2) with
  | Lt => f
  | Gt => (f + 1)%Z
  | Eq => if Z.even f then f else (f + 1)%Z
  end.

(** [round(x, 3)]: the number is rounded to three decimals (ties to even)
    and the double nearest to the decimal is returned; infinities and NaN
    round to themselves. *)
Definition round_3 (x : spec_float) : spec_float :=
  match x with
  | S754_finite s m e =>
      match round_half_even (exact m e * 1000) with
      | Zpos n => SFdiv prec emax (S754_finite s n 0) (of_Z 1000)
      | _ => S754_zero s
      end
  | _ => x
  end.

(** [sum(l)] as CPython computes it up to version 3.11: from the left,
    starting from the integer 0. *)
Definition sum_left (l : list spec_float) : spec_float :=
  fold_left (SFadd prec emax) l (S754_zero false).

(** [sum(l)] as CPython computes it from version 3.12 on: with a running
    compensation of the rounding errors, added at the end. *)
Fixpoint sum_neumaier (l : list spec_float) (total c : spec_float) : spec_float :=
  match l with
  | [] =>
      if negb (is_zero c) && is_finite c then SFadd prec emax total c else total
  | x :: rest =>
      let t := SFadd prec emax total x in
      let c' :=
        if SFleb (SFabs x) (SFabs total)
        then SFadd prec emax c (SFadd prec emax (SFsub prec emax total t) x)
        else SFadd prec emax c (SFadd prec emax (SFsub prec emax x t) total) in
      sum_neumaier rest t c'
  end.

Definition sum_compensated (l : list spec_float) : spec_float :=
  match l with
  | [] => S754_zero false
  | x :: rest =>
      sum_neumaier rest (SFadd prec emax (S754_zero false) x) (S754_zero false)
  end.

Definition arithmetic : Floats := {|
  float := spec_float;
  fnum := of_Q;
  fsum := sum_left;
  fdiv := fun x n => SFdiv prec emax x (of_Z (Zpos n));
  fmul := SFmul prec emax;
  flt := SFltb;
  round3 := round_3
|}.

(** The same arithmetic with the [sum] of CPython 3.12. *)
Definition compensated : Floats := {|
  float := spec_float;
  fnum := of_Q;
  fsum := sum_compensated;
  fdiv := fun x n => SFdiv prec emax x (of_Z (Zpos n));
  fmul := SFmul prec emax;
  flt := SFltb;
  round3 := round_3
|}.

End Binary64.

(* ------------------------------------------------------------------ *)
(** ** A small world to run the code in *)

Module Demo.

Section World.

Context {floats : Floats}.

(** A route laid along the x axis, coordinates in kilometres: the
    arc-length position of a point is its abscissa, a slice is the pair of
    its end points, and the reprojected length is in metres. *)
Definition straight_line : Shapely := {|
  line_project := fun line point =>
    match line with
    | [] => None
    | _ :: _ => Some (fst point)
    end;
  substring := fun line a b => Some [(a, 0%Q); (b, 0%Q)];
  geom_length := fun g =>
    match g with
    | [(a, _); (b, _)] => Some (fnum (b - a))
    | _ => None
    end;
  mercator_length := fun g =>
    match g with
    | [(a, _); (b, _)] => Some (fnum ((b - a) * 1000))
    | _ => None
    end
|}.

(** The same world without pyproj: the reprojection always fails. *)
Definition no_pyproj : Shapely := {|
  line_project := @line_project _ straight_line;
  substring := @substring _ straight_line;
  geom_length := @geom_length _ straight_line;
  mercator_length := fun _ => None
|}.

(** A world in which the reprojection leaves the plane: the Web Mercator
    ordinate of a latitude of 90 degrees or more is infinite, and so is
    the length of a line that reaches it. *)
Definition beyond_the_pole (infinity : float) : Shapely := {|
  line_project := @line_project _ straight_line;
  substring := @substring _ straight_line;
  geom_length := @geom_length _ straight_line;
  mercator_length := fun g =>
    if existsb (fun p => Qle_bool 90 (snd p) || Qle_bool (snd p) (- (90))) g
    then Some infinity
    else @mercator_length _ straight_line g
|}.

End World.

Definition is_str (v : pyval) : bool :=
  match v with
  | PStr _ => true
  | _ => false
  end.

Definition is_number (v : pyval) : bool :=
  match v with
  | PInt _ => true
  | _ => false
  end.

Definition is_null (v : pyval) : bool :=
  match v with
  | PNone | PNaN => true
  | _ => false
  end.

(** [a < b] on two cells of one type. *)
Definition cell_lt (a b : pyval) : bool :=
  match a, b with
  | PInt x, PInt y => Z.ltb x y
  | PStr s, PStr t => String.ltb s t
  | _, _ => false
  end.

Fixpoint insert_row (x : StopRow) (l : list StopRow) : list StopRow :=
  match l with
  | [] => [x]
  | y :: t =>
      if cell_lt (st_sequence x) (st_sequence y) then x :: y :: t
      else y :: insert_row x t
  end.

Definition sort_rows (l : list StopRow) : list StopRow :=
  fold_right insert_row [] l.

(** A column that holds a string and a number cannot be sorted. *)
Definition comparable (l : list StopRow) : bool :=
  negb (existsb (fun r => is_str (st_sequence r)) l &&
        existsb (fun r => is_number (st_sequence r)) l).

(** [sort_values('sequence')] of pandas: the null cells are set aside and
    come last, the others are compared with [<], and a comparison of a
    string with a number raises [TypeError]. *)
Definition sort_values (l : list StopRow) : outcome (list StopRow) :=
  let known := filter (fun r => negb (is_null (st_sequence r))) l in
  let nulls := filter (fun r => is_null (st_sequence r)) l in
  if comparable known then Returned (sort_rows known ++ nulls) else Raised.

Lemma insert_row_perm (x : StopRow) (l : list StopRow) :
  Permutation (insert_row x l) (x :: l).
Proof.
  induction l as [|y t IH]; simpl; [reflexivity|].
  destruct (cell_lt (st_sequence x) (st_sequence y)); [reflexivity|].
  rewrite IH; apply perm_swap.
Qed.

Lemma sort_rows_perm (l : list StopRow) : Permutation (sort_rows l) l.
Proof.
  induction l as [|x t IH]; simpl; [reflexivity|].
  rewrite insert_row_perm; now constructor.
Qed.

Lemma filter_split_perm {A} (p : A -> bool) (l : list A) :
  Permutation (filter (fun x => negb (p x)) l ++ filter p l) l.
Proof.
  induction l as [|x t IH]; simpl; [reflexivity|].
  destruct (p x); simpl.
  - rewrite <- Permutation_middle; now constructor.
  - now constructor.
Qed.

Lemma sort_values_rearranges (l l' : list StopRow) :
  sort_values l = Returned l' -> Permutation l' l.
Proof.
  unfold sort_values.
  destruct (comparable _); [|discriminate].
  intros E; injection E as <-.
  rewrite sort_rows_perm; apply filter_split_perm.
Qed.

Lemma sort_values_few (l : list StopRow) :
  (List.length l <= 1)%nat -> sort_values l = Returned l.
Proof.
  destruct l as [|x [|y t]]; simpl; [reflexivity| |lia].
  intros _; destruct x as [? ? ? ? ? ? sequence ?].
  destruct sequence; reflexivity.
Qed.

#[export] Instance by_sequence : Pandas := {|
  sort_values_sequence := sort_values;
  sort_values_perm := sort_values_rearranges;
  sort_values_short := sort_values_few
|}.

(** A run in which sets happen to enumerate in insertion order. *)
Definition encounter_order : Runtime := {|
  set_iter := fun s => s;
  set_iter_perm := fun s => Permutation_refl s
|}.

(** A run in which sets happen to enumerate backwards. *)
Definition reversed_order : Runtime := {|
  set_iter := fun s => rev s;
  set_iter_perm := fun s => Permutation_sym (Permutation_rev s)
|}.

Definition stop_numbered (route_id stop_id : string) (sequence : pyval) (x : Q)
  : StopRow :=
  {| st_route_id := PStr route_id;
     st_stop_id := Some (PStr stop_id);
     st_name_cn := Some (PStr stop_id);
     st_name_en := Some (PStr stop_id);
     st_city_cn := Some (PStr "X");
     st_city_en := Some (PStr "x");
     st_sequence := sequence;
     st_geometry := (x, 0%Q) |}.

Definition stop (route_id stop_id : string) (sequence : Z) (x : Q) : StopRow :=
  stop_numbered route_id stop_id (PInt sequence) x.

Definition route1 : RouteRow :=
  {| rt_route_id := PStr "r1";
     rt_route_cn := Some (PStr "line 1");
     rt_city_cn := Some (PStr "X");
     rt_city_en := Some (PStr "x");
     rt_geometry := Some [(0%Q, 0%Q); (12%Q, 0%Q)] |}.

(** Three stops of route r1 at 0, 5 and 12 km, and a stop of another
    route. *)
Definition stops_a : StopsFrame :=
  {| has_sequence := true;
     frame_rows := [stop "r1" "a" 1 0; stop "r2" "z" 1 3;
                    stop "r1" "b" 2 5; stop "r1" "c" 3 12] |}.

(** The same stops in another order and with another numbering. *)
Definition stops_b : StopsFrame :=
  {| has_sequence := true;
     frame_rows := [stop "r1" "c" 1 12; stop "r1" "a" 7 0;
                    stop "r1" "b" 2 5; stop "r2" "z" 4 3] |}.

(** The same stops again, the second of route r1 numbered with a string. *)
Definition stops_mixed : StopsFrame :=
  {| has_sequence := true;
     frame_rows := [stop "r1" "a" 1 0; stop "r2" "z" 1 3;
                    stop_numbered "r1" "b" (PStr "2") 5; stop "r1" "c" 3 12] |}.

(** Two stops of route r1 at the same place after a first one. *)
Definition stops_tie : StopsFrame :=
  {| has_sequence := false;
     frame_rows := [stop "r1" "a" 1 0; stop "r1" "b" 2 5; stop "r1" "c" 3 5] |}.

Section Segments.

Context {floats : Floats}.

Definition segment (s e : string) (d : Q) (city : string) : Segment :=
  {| s_stop_cn := s; s_stop_en := s; s_stopid := s;
     e_stop_cn := e; e_stop_en := e; e_stopid := e;
     distance := fnum d; city_cn := city; city_en := "x";
     geometry := [] |}.

(** The segment of route r1 between two stops at [x1] and [x2] km. *)
Definition leg (s e : string) (x1 x2 : Q) : Segment :=
  {| s_stop_cn := s; s_stop_en := s; s_stopid := s;
     e_stop_cn := e; e_stop_en := e; e_stopid := e;
     distance := round3 (fdiv (fnum ((x2 - x1) * 1000)) 1000);
     city_cn := "X"; city_en := "x";
     geometry := [(x1, 0%Q); (x2, 0%Q)] |}.

(** What route r1 is cut into. *)
Definition segments_a : list Segment :=
  [leg "a" "b" 0 5; leg "b" "c" 5 12].

(** Three routes over the same pair of stops. *)
Definition three_routes : list Segment :=
  [segment "a" "b" (12 # 10) "X"; segment "a" "b" (14 # 10) "X";
   segment "a" "b" (13 # 10) "X"].

(** A street served in both directions. *)
Definition both_directions : list Segment :=
  [segment "A" "B" 1 "X"; segment "B" "A" 1 "X"].

(** One pair of stops tagged with two cities. *)
Definition two_cities : list Segment :=
  [segment "a" "b" 1 "X"; segment "a" "b" 1 "Y"].

End Segments.

Definition occurrence_of (stop_id : option pyval) (route_id city : string) : StopRow :=
  {| st_route_id := PStr route_id;
     st_stop_id := stop_id;
     st_name_cn := stop_id;
     st_name_en := stop_id;
     st_city_cn := Some (PStr city);
     st_city_en := Some (PStr "x");
     st_sequence := PNone;
     st_geometry := (0%Q, 0%Q) |}.

Definition occurrence (stop_id route_id city : string) : StopRow :=
  occurrence_of (Some (PStr stop_id)) route_id city.

(** A stop met first without a route id, then on route r1. *)
Definition stop_without_route : StopsFrame :=
  {| has_sequence := false;
     frame_rows := [occurrence "s" EmptyString "X"; occurrence "s" "r1" "Y"] |}.

(** A stop on two routes (one of them twice), a stop without an id, and a
    row that has no [stop_id] cell. *)
Definition mixed_stops : StopsFrame :=
  {| has_sequence := false;
     frame_rows :=
       [occurrence "s" "r1" "X"; occurrence EmptyString "r1" "X";
        occurrence "s" "r2" "X"; occurrence "s" "r1" "X";
        {| st_route_id := PStr "r3"; st_stop_id := None;
           st_name_cn := None; st_name_en := None;
           st_city_cn := None; st_city_en := None;
           st_sequence := PNone; st_geometry := (0%Q, 0%Q) |}] |}.

(** Two rows whose [stop_id] cell is null, on two routes, and a row whose
    cell is NaN. *)
Definition null_stops : StopsFrame :=
  {| has_sequence := false;
     frame_rows :=
       [occurrence_of (Some PNone) "r1" "X"; occurrence_of (Some PNone) "r2" "X";
        occurrence_of (Some PNaN) "r1" "X"] |}.

End Demo.

(* ------------------------------------------------------------------ *)
(** ** Counts, means and keys of the aggregated segments *)

Section AggregationClaims.

Context {floats : Floats} {runtime : Runtime}.

(** The sum of the [count] entries of the group dictionary. *)
Definition total_count (d : list ((string * string) * SegmentGroup)) : nat :=
  list_sum (map (fun e => count (snd e)) d).

Lemma dict_update_total_count (segment : Segment)
      (d : list ((string * string) * SegmentGroup)) :
  total_count
    (dict_update key_eqb (segment_key segment) new_segment_group
                 (add_segment segment) d)
  = S (total_count d).
Proof.
  unfold total_count.
  induction d as [|[k v] t IH]; simpl; [reflexivity|].
  destruct (key_eqb (segment_key segment) k); simpl; [reflexivity|].
  rewrite IH; lia.
Qed.

Lemma group_segments_total_count (l : list Segment) :
  total_count (group_segments l) = List.length l.
Proof.
  unfold group_segments.
  enough (forall d,
             total_count
               (fold_left
                  (fun segment_groups segment =>
                     dict_update key_eqb (segment_key segment) new_segment_group
                                 (add_segment segment) segment_groups) l d)
             = total_count d + List.length l) as H by apply (H []).
  induction l as [|s t IH]; intros d; simpl; [lia|].
  rewrite IH, dict_update_total_count; lia.
Qed.

Lemma finish_group_num (entry : (string * string) * SegmentGroup)
      (a : AggregatedSegment) :
  finish_group entry = Returned a -> num a = count (snd entry).
Proof.
  unfold finish_group.
  destruct (first_segment (snd entry)); simpl; [|discriminate].
  intros E; injection E as <-; reflexivity.
Qed.

(** C2. The usage counts of the aggregated records add up to the number
    of input segments. *)
Theorem aggregation_conserves_count (segments_list : list Segment) :
  exists out,
    aggregate_segments segments_list = Returned out /\
    list_sum (map num out) = List.length segments_list.
Proof.
  destruct (aggregate_segments_groups segments_list) as (out & Hout & _).
  exists out; split; [assumption|].
  rewrite <- group_segments_total_count; unfold total_count.
  f_equal.
  unfold aggregate_segments in Hout; apply for_each_Forall2 in Hout.
  apply Forall2_map_eq.
  eapply Forall2_weaken_In; [|exact Hout].
  intros e a _ H; now apply finish_group_num.
Qed.

(** C3. Every key of the input has its aggregated record, and the record
    of a key carries the size of the group as usage count and, as
    distance, the sum of the group's distances divided by their number and
    rounded to three decimals.  Three segments of 1.2, 1.4 and 1.3 km over
    one pair of stops give one record with count 3 and distance 1.3, in
    the arithmetic of doubles with either way of summing. *)
Theorem aggregated_mean_distance (segments_list : list Segment) :
  exists out,
    aggregate_segments segments_list = Returned out /\
    (forall s, In s segments_list ->
       exists a, In a out /\ segment_key (agg_segment a) = segment_key s) /\
    (forall a, In a out ->
       let g := group_of (segment_key (agg_segment a)) segments_list in
       g <> [] /\
       num a = List.length g /\
       distance (agg_segment a) =
         round3 (fdiv (fsum (map distance g)) (Pos.of_nat (List.length g)))) /\
    (exists a,
       @aggregate_segments Binary64.arithmetic runtime Demo.three_routes
       = Returned [a] /\
       num a = 3 /\ distance (agg_segment a) = Binary64.of_Q (13 # 10)) /\
    (exists a,
       @aggregate_segments Binary64.compensated runtime Demo.three_routes
       = Returned [a] /\
       num a = 3 /\ distance (agg_segment a) = Binary64.of_Q (13 # 10)).
Proof.
  destruct (aggregate_segments_groups segments_list) as (out & Hout & HF).
  exists out; split; [assumption|]; split; [|split; [|split]].
  - intros s Hs.
    assert (In (segment_key s) (first_seen key_eqb (map segment_key segments_list)))
      as Hk by (apply (first_seen_In key_eqb key_eqb_spec); now apply in_map).
    destruct (Forall2_In_l _ _ _ _ HF Hk) as (a & Ha & Hagg).
    exists a; split; [assumption|now apply aggregate_of_key in Hagg].
  - intros a Ha.
    destruct (Forall2_In_r _ _ _ _ HF Ha) as (k & _ & Hagg).
    rewrite (aggregate_of_key _ _ _ Hagg).
    destruct Hagg as (s & rest & Eg & ->); simpl.
    rewrite Eg; repeat split; [discriminate|].
    cbn [map List.length]; now rewrite length_map, Pos.of_nat_succ.
  - destruct (@aggregate_segments_groups Binary64.arithmetic runtime Demo.three_routes)
      as (out3 & Hout3 & HF3).
    change (first_seen key_eqb (map segment_key (@Demo.three_routes Binary64.arithmetic)))
      with [("a", "b")] in HF3.
    inversion HF3 as [|k a ks os Hagg Hnil]; subst; inversion Hnil; subst.
    exists a; split; [assumption|].
    destruct Hagg as (s & rest & Eg & ->).
    change (@group_of Binary64.arithmetic ("a", "b") Demo.three_routes)
      with (@Demo.three_routes Binary64.arithmetic) in Eg.
    rewrite <- Eg; split; [reflexivity|].
    cbn [summarize agg_segment distance]; vm_compute; reflexivity.
  - destruct (@aggregate_segments_groups Binary64.compensated runtime Demo.three_routes)
      as (out3 & Hout3 & HF3).
    change (first_seen key_eqb (map segment_key (@Demo.three_routes Binary64.compensated)))
      with [("a", "b")] in HF3.
    inversion HF3 as [|k a ks os Hagg Hnil]; subst; inversion Hnil; subst.
    exists a; split; [assumption|].
    destruct Hagg as (s & rest & Eg & ->).
    change (@group_of Binary64.compensated ("a", "b") Demo.three_routes)
      with (@Demo.three_routes Binary64.compensated) in Eg.
    rewrite <- Eg; split; [reflexivity|].
    cbn [summarize agg_segment distance]; vm_compute; reflexivity.
Qed.

(** C6. The key is the ordered pair: a segment from A to B and a segment
    from B to A end up in two records of count 1; in general the records
    are, in order of first occurrence, the distinct ordered pairs
    (start id, end id) of the input, and the count of a record is the
    number of input segments with exactly that ordered pair. *)
Theorem aggregation_key_is_directional (segments_list : list Segment) :
  (forall s1 s2,
      s_stopid s1 <> e_stopid s1 ->
      s_stopid s2 = e_stopid s1 -> e_stopid s2 = s_stopid s1 ->
      exists a1 a2,
        aggregate_segments [s1; s2] = Returned [a1; a2] /\
        segment_key (agg_segment a1) = (s_stopid s1, e_stopid s1) /\
        segment_key (agg_segment a2) = (e_stopid s1, s_stopid s1) /\
        num a1 = 1 /\ num a2 = 1) /\
  (exists out,
      aggregate_segments segments_list = Returned out /\
      map (fun a => segment_key (agg_segment a)) out
        = first_seen key_eqb (map segment_key segments_list) /\
      NoDup (map (fun a => segment_key (agg_segment a)) out) /\
      forall a, In a out ->
        num a = List.length
                  (filter (fun s => key_eqb (segment_key s) (segment_key (agg_segment a)))
                          segments_list)).
Proof.
  split.
  - intros s1 s2 Hne Hs He.
    assert (key_eqb (segment_key s2) (segment_key s1) = false) as Hk.
    { destruct (key_eqb (segment_key s2) (segment_key s1)) eqn:E; [|reflexivity].
      apply key_eqb_spec in E; unfold segment_key in E.
      injection E as E1 E2; congruence. }
    assert (key_eqb (segment_key s1) (segment_key s1) = true) as Hr
        by now apply key_eqb_spec.
    unfold aggregate_segments, group_segments; simpl.
    rewrite Hk; simpl.
    eexists _, _; split; [reflexivity|]; simpl.
    unfold segment_key; simpl; rewrite Hs, He; auto.
  - destruct (aggregate_segments_groups segments_list) as (out & Hout & HF).
    exists out; split; [assumption|].
    assert (map (fun a => segment_key (agg_segment a)) out
            = first_seen key_eqb (map segment_key segments_list)) as Hkeys.
    { rewrite <- (map_id (first_seen _ _)). apply Forall2_map_eq.
      eapply Forall2_weaken_In; [|exact HF].
      intros k a _ H; now apply aggregate_of_key in H. }
    split; [assumption|]; split.
    + rewrite Hkeys; apply first_seen_NoDup, key_eqb_spec.
    + intros a Ha.
      destruct (Forall2_In_r _ _ _ _ HF Ha) as (k & _ & Hagg).
      rewrite (aggregate_of_key _ _ _ Hagg).
      destruct Hagg as (s & rest & Eg & ->).
      unfold summarize; cbn [num]. now rewrite <- Eg.
Qed.

End AggregationClaims.

(* ------------------------------------------------------------------ *)
(** ** Unique stops *)

(** The stop id the deduplicator reads off a row. *)
Definition stop_key (r : StopRow) : string := get_str (st_stop_id r).

(** The route id the deduplicator reads off a row. *)
Definition route_key (r : StopRow) : string := py_str (st_route_id r).

(** The rows of a frame that carry a given stop id, in order. *)
Definition occurrences (stop_id : string) (rows : list StopRow) : list StopRow :=
  filter (fun r => String.eqb (stop_key r) stop_id) rows.

(** The distinct non-empty route ids of a group of rows, in the order they
    were met. *)
Definition routes_of (g : list StopRow) : list string :=
  first_seen String.eqb (filter truthy (map route_key g)).

(** The distinct city tags of the rows of a group that carry a route id,
    in the order they were met. *)
Definition cities_of (g : list StopRow) : list string :=
  first_seen String.eqb
    (map (fun r => get_str (st_city_cn r))
         (filter (fun r => truthy (route_key r)) g)).

Lemma truthy_spec (s : string) : truthy s = true <-> s <> EmptyString.
Proof. destruct s; simpl; split; congruence. Qed.

Lemma group_stops_grouping (rows : list StopRow) :
  group_stops rows =
  grouping String.eqb stop_key add_stop new_stop_group
           (filter (fun r => truthy (stop_key r)) rows).
Proof.
  unfold group_stops, grouping.
  generalize (@nil (string * StopGroup)) as d.
  induction rows as [|r t IH]; intros d; simpl; [reflexivity|].
  fold (stop_key r).
  destruct (truthy (stop_key r)); simpl; apply IH.
Qed.

Lemma members_occurrences (k : string) (rows : list StopRow) :
  truthy k = true ->
  members String.eqb stop_key k (filter (fun r => truthy (stop_key r)) rows)
  = occurrences k rows.
Proof.
  intros Hk; unfold members, occurrences.
  induction rows as [|r t IH]; simpl; [reflexivity|].
  destruct (String.eqb (stop_key r) k) eqn:E.
  - assert (truthy (stop_key r) = true) as ->
        by (apply String.eqb_eq in E; now rewrite E).
    simpl; rewrite E. now f_equal.
  - destruct (truthy (stop_key r)); simpl; [rewrite E|]; apply IH.
Qed.

Lemma add_stop_fold (ss : list StopRow) (g0 : StopGroup) :
  fold_left (fun g x => add_stop x g) ss g0 =
  {| route_ids :=
       fold_left (fun acc c => add_new String.eqb c acc)
                 (filter truthy (map route_key ss)) (route_ids g0);
     first_stop :=
       match first_stop g0 with
       | Some s => Some s
       | None => hd_error ss
       end;
     stop_cities :=
       fold_left (fun acc c => add_new String.eqb c acc)
                 (map (fun r => get_str (st_city_cn r))
                      (filter (fun r => truthy (route_key r)) ss))
                 (stop_cities g0) |}.
Proof.
  revert g0; induction ss as [|s t IH]; intros g0; simpl.
  - destruct g0 as [r [f|] c]; reflexivity.
  - rewrite IH; unfold add_stop at 1 2 3; simpl. fold (route_key s).
    destruct (truthy (route_key s)); simpl;
      destruct (first_stop g0); reflexivity.
Qed.

Section DeduplicationProps.

Context {runtime : Runtime}.

(** The record [create_unique_stops] makes of the rows of a stop id. *)
Definition unique_of (rows : list StopRow) (stop_id : string) (u : UniqueStop) : Prop :=
  exists s rest,
    occurrences stop_id rows = s :: rest /\
    u = {| us_stop_cn := get_str (st_name_cn s);
           us_stop_en := get_str (st_name_en s);
           us_stop_id := stop_id;
           us_num := List.length (routes_of (s :: rest));
           us_city_cn := join "; " (set_iter (cities_of (s :: rest)));
           us_city_en := get_str (st_city_en s);
           us_geometry := st_geometry s |}.

(** [create_unique_stops] returns, one record per distinct non-empty stop
    id in the order of first occurrence. *)
Lemma create_unique_stops_groups (stops_gdf : StopsFrame) :
  exists out,
    create_unique_stops stops_gdf = Returned out /\
    Forall2 (unique_of (frame_rows stops_gdf))
            (first_seen String.eqb (filter truthy (map stop_key (frame_rows stops_gdf))))
            out.
Proof.
  unfold create_unique_stops.
  set (rows := frame_rows stops_gdf).
  rewrite group_stops_grouping, (grouping_spec String.eqb String.eqb_eq), for_each_map.
  rewrite <- filter_map_swap.
  set (ks := first_seen String.eqb (filter truthy (map stop_key rows))).
  assert (forall k, In k ks ->
            exists u, unique_of rows k u /\
              finish_stop (k, summary String.eqb stop_key add_stop new_stop_group k
                                      (filter (fun r => truthy (stop_key r)) rows))
              = Returned u) as Hfin.
  { intros k Hk. unfold ks in Hk.
    apply (proj1 (first_seen_In String.eqb String.eqb_eq _ _)) in Hk.
    apply filter_In in Hk; destruct Hk as [Hk Ht].
    unfold summary; rewrite (members_occurrences k rows Ht).
    assert (occurrences k rows <> []) as Hne.
    { apply in_map_iff in Hk; destruct Hk as (r & <- & Hr).
      assert (In r (occurrences (stop_key r) rows)) as Hin
          by (apply filter_In; split; [assumption|apply String.eqb_refl]).
      intros E; rewrite E in Hin; destruct Hin. }
    destruct (occurrences k rows) as [|s rest] eqn:Eo; [congruence|].
    eexists; split; [exists s, rest; split; [exact Eo|reflexivity]|].
    unfold finish_stop. rewrite add_stop_fold. reflexivity. }
  destruct (for_each_returns
              (fun k => finish_stop
                          (k, summary String.eqb stop_key add_stop new_stop_group k
                                      (filter (fun r => truthy (stop_key r)) rows)))
              ks) as [out Hout].
  { intros k Hk; destruct (Hfin k Hk) as (u & _ & ->); eauto. }
  exists out; split; [assumption|].
  apply for_each_Forall2 in Hout.
  eapply Forall2_weaken_In; [|exact Hout].
  intros k u Hk Hu; destruct (Hfin k Hk) as (u' & Hu' & E).
  congruence.
Qed.

Lemma unique_of_id (rows : list StopRow) (k : string) (u : UniqueStop) :
  unique_of rows k u -> us_stop_id u = k.
Proof. intros (s & rest & _ & ->); reflexivity. Qed.

(** C9 (as the code has it). [create_unique_stops] makes one record per
    distinct non-empty string that [str] makes of the [stop_id] cells.
    Only the rows whose stop id reads as the empty string (the cell is an
    empty string, or the row has no such cell) take no part; a null cell
    reads "None" or "nan" and is a stop id like any other.  The usage
    count of a record is the number of distinct non-empty route ids among
    the rows of its stop id, not the number of those rows. *)
Theorem unique_stops_count_routes (stops_gdf : StopsFrame) :
  exists out,
    create_unique_stops stops_gdf = Returned out /\
    map us_stop_id out =
      first_seen String.eqb (filter truthy (map stop_key (frame_rows stops_gdf))) /\
    (forall u, In u out -> us_stop_id u <> EmptyString) /\
    (forall u, In u out ->
       us_num u =
       List.length (routes_of (occurrences (us_stop_id u) (frame_rows stops_gdf)))) /\
    (forall u, In u out ->
       forall r, In r (occurrences (us_stop_id u) (frame_rows stops_gdf)) ->
                 stop_key r <> EmptyString) /\
    (forall r, In r (frame_rows stops_gdf) -> stop_key r <> EmptyString ->
               exists u, In u out /\ us_stop_id u = stop_key r) /\
    (forall r, In r (frame_rows stops_gdf) ->
               (st_stop_id r = Some PNone -> exists u, In u out /\ us_stop_id u = "None") /\
               (st_stop_id r = Some PNaN -> exists u, In u out /\ us_stop_id u = "nan")).
Proof.
  destruct (create_unique_stops_groups stops_gdf) as (out & Hout & HF).
  exists out; split; [assumption|].
  assert (map us_stop_id out =
          first_seen String.eqb (filter truthy (map stop_key (frame_rows stops_gdf))))
    as Hids.
  { rewrite <- (map_id (first_seen _ _)). apply Forall2_map_eq.
    eapply Forall2_weaken_In; [|exact HF].
    intros k u _ H; now apply unique_of_id in H. }
  assert (forall u, In u out -> us_stop_id u <> EmptyString) as Hne.
  { intros u Hu.
    assert (In (us_stop_id u) (map us_stop_id out)) as Hin by now apply in_map.
    rewrite Hids in Hin.
    apply (proj1 (first_seen_In String.eqb String.eqb_eq _ _)) in Hin.
    apply filter_In in Hin; now apply truthy_spec. }
  assert (forall r, In r (frame_rows stops_gdf) -> stop_key r <> EmptyString ->
                    exists u, In u out /\ us_stop_id u = stop_key r) as Hemit.
  { intros r Hr Hk.
    assert (In (stop_key r) (map us_stop_id out)) as Hin.
    { rewrite Hids. apply (first_seen_In String.eqb String.eqb_eq).
      apply filter_In; split; [now apply in_map|now apply truthy_spec]. }
    apply in_map_iff in Hin; destruct Hin as (u & E & Hu); eauto. }
  split; [assumption|]; split; [assumption|]; split; [|split; [|split]].
  - intros u Hu.
    destruct (Forall2_In_r _ _ _ _ HF Hu) as (k & _ & Hk).
    rewrite (unique_of_id _ _ _ Hk).
    destruct Hk as (s & rest & Eo & ->); cbn [us_num]. now rewrite Eo.
  - intros u Hu r Hr.
    apply filter_In in Hr; destruct Hr as [_ E].
    apply String.eqb_eq in E; rewrite E; now apply Hne.
  - exact Hemit.
  - intros r Hr; split; intros E;
      (destruct (Hemit r Hr) as (u & Hu & Eu);
       [unfold stop_key; rewrite E; discriminate|]);
      exists u; split; [assumption| |assumption|];
      rewrite Eu; unfold stop_key; now rewrite E.
Qed.

End DeduplicationProps.

(* ------------------------------------------------------------------ *)
(** ** The combined city tag *)

Section CityTag.

Context {floats : Floats} {runtime : Runtime}.

(** C4 (as the code has it). The combined city tag of an aggregated
    segment is the distinct city tags of the segments of its key, each
    once, joined with "; " in the order in which the interpreter
    enumerates a set: some arrangement of the tags, not always that of
    their first occurrence.  For a unique stop the same holds of the city
    tags of the rows of its stop id that carry a non-empty route id. *)
Theorem combined_city_tag :
  (forall segments_list : list Segment,
      exists out,
        aggregate_segments segments_list = Returned out /\
        forall a, In a out ->
          exists tags,
            city_cn (agg_segment a) = join "; " tags /\
            NoDup tags /\
            Permutation tags
              (distinct_cities
                 (group_of (segment_key (agg_segment a)) segments_list))) /\
  (forall stops_gdf : StopsFrame,
      exists out,
        create_unique_stops stops_gdf = Returned out /\
        forall u, In u out ->
          exists tags,
            us_city_cn u = join "; " tags /\
            NoDup tags /\
            Permutation tags
              (cities_of (occurrences (us_stop_id u) (frame_rows stops_gdf)))).
Proof.
  split.
  - intros l.
    destruct (aggregate_segments_groups l) as (out & Hout & HF).
    exists out; split; [assumption|].
    intros a Ha.
    destruct (Forall2_In_r _ _ _ _ HF Ha) as (k & _ & Hagg).
    rewrite (aggregate_of_key _ _ _ Hagg).
    destruct Hagg as (s & rest & Eg & ->); rewrite Eg.
    exists (set_iter (distinct_cities (s :: rest))).
    split; [reflexivity|]; split; [|apply set_iter_perm].
    eapply Permutation_NoDup; [symmetry; apply set_iter_perm|].
    apply first_seen_NoDup, String.eqb_eq.
  - intros f.
    destruct (create_unique_stops_groups f) as (out & Hout & HF).
    exists out; split; [assumption|].
    intros u Hu.
    destruct (Forall2_In_r _ _ _ _ HF Hu) as (k & _ & Hk).
    rewrite (unique_of_id _ _ _ Hk).
    destruct Hk as (s & rest & Eo & ->); rewrite Eo.
    exists (set_iter (cities_of (s :: rest))).
    split; [reflexivity|]; split; [|apply set_iter_perm].
    eapply Permutation_NoDup; [symmetry; apply set_iter_perm|].
    apply first_seen_NoDup, String.eqb_eq.
Qed.

End CityTag.

(** C4 as stated fails twice.  A stop first met on a row without route id
    (city X) and then on route r1 (city Y) gets the tag "Y", although the
    distinct tags of its rows in order of first occurrence are X and Y.
    And in a run where sets enumerate backwards, two segments of one key
    tagged X then Y get the tag "Y; X". *)
Lemma city_tag_not_encounter_order :
  (@create_unique_stops Demo.encounter_order Demo.stop_without_route
   = Returned [ {| us_stop_cn := "s"; us_stop_en := "s"; us_stop_id := "s";
                   us_num := 1; us_city_cn := "Y"; us_city_en := "x";
                   us_geometry := (0%Q, 0%Q) |} ] /\
   join "; "
     (first_seen String.eqb
        (map (fun r => get_str (st_city_cn r))
             (occurrences "s" (frame_rows Demo.stop_without_route))))
   = "X; Y") /\
  (@aggregate_segments Binary64.arithmetic Demo.reversed_order Demo.two_cities
   = Returned [ {| agg_segment :=
                     {| s_stop_cn := "a"; s_stop_en := "a"; s_stopid := "a";
                        e_stop_cn := "b"; e_stop_en := "b"; e_stopid := "b";
                        distance := @fnum Binary64.arithmetic 1;
                        city_cn := "Y; X"; city_en := "x"; geometry := [] |};
                   num := 2 |} ] /\
   join "; " (distinct_cities (@group_of Binary64.arithmetic ("a", "b") Demo.two_cities))
   = "X; Y").
Proof. repeat split; vm_compute; reflexivity. Qed.

(** C9 as stated fails: a null [stop_id] is not skipped.  Two rows whose
    cell is [None], on two routes, and a row whose cell is NaN make two
    stops, "None" with a count of 2 and "nan" with a count of 1. *)
Lemma null_stop_id_is_emitted :
  @create_unique_stops Demo.encounter_order Demo.null_stops
  = Returned [ {| us_stop_cn := "None"; us_stop_en := "None"; us_stop_id := "None";
                  us_num := 2; us_city_cn := "X"; us_city_en := "x";
                  us_geometry := (0%Q, 0%Q) |};
               {| us_stop_cn := "nan"; us_stop_en := "nan"; us_stop_id := "nan";
                  us_num := 1; us_city_cn := "X"; us_city_en := "x";
                  us_geometry := (0%Q, 0%Q) |} ].
Proof. reflexivity. Qed.

(** C1 as stated fails: three stops of route r1 that all project onto its
    geometry give no segments but an exception when one of their
    [sequence] cells is a string and the others are numbers. *)
Lemma mixed_sequence_breaks_the_count :
  rt_geometry Demo.route1 = Some [(0%Q, 0%Q); (12%Q, 0%Q)] /\
  map (fun r => @project_point_to_line Binary64.arithmetic Demo.straight_line
                  (st_geometry r) [(0%Q, 0%Q); (12%Q, 0%Q)])
      (stops_of_route (rt_route_id Demo.route1) Demo.stops_mixed)
  = [Some 0%Q; Some 5%Q; Some 12%Q] /\
  @create_segments_from_route Binary64.arithmetic Demo.straight_line Demo.by_sequence
    Demo.route1 Demo.stops_mixed = Raised.
Proof. repeat split; reflexivity. Qed.

(** C5 as stated fails: two frames that differ in one [sequence] cell
    only, a number in the one and a string in the other, give two segments
    and an exception. *)
Lemma mixed_sequence_breaks_noninterference :
  map forget_sequence (frame_rows Demo.stops_a)
  = map forget_sequence (frame_rows Demo.stops_mixed) /\
  @create_segments_from_route Binary64.arithmetic Demo.straight_line Demo.by_sequence
    Demo.route1 Demo.stops_a = Returned Demo.segments_a /\
  @create_segments_from_route Binary64.arithmetic Demo.straight_line Demo.by_sequence
    Demo.route1 Demo.stops_mixed = Raised.
Proof. repeat split; vm_compute; reflexivity. Qed.

(** C8 as stated fails: a line with finite coordinates that reaches a
    latitude of 91 degrees has an infinite reprojected length, and its
    distance is infinite. *)
Lemma distance_can_be_infinite :
  @calculate_segment_distance Binary64.arithmetic
    (@Demo.beyond_the_pole Binary64.arithmetic Binary64.infinity)
    [(0%Q, 0%Q); (0%Q, 91%Q)]
  = Returned Binary64.infinity /\
  Binary64.is_finite Binary64.infinity = false.
Proof. split; reflexivity. Qed.

(** The mean of the code is that of the doubles: the distances 1.205 and
    3.206 aggregate to 2.205, where the mean of the two decimals, 2.2055,
    would round to 2.206. *)
Example mean_is_computed_in_binary :
  @avg_distance Binary64.arithmetic [Binary64.of_Q (1205 # 1000); Binary64.of_Q (3206 # 1000)]
  = Binary64.of_Q (2205 # 1000) /\
  @avg_distance Binary64.compensated [Binary64.of_Q (1205 # 1000); Binary64.of_Q (3206 # 1000)]
  = Binary64.of_Q (2205 # 1000).
Proof. split; vm_compute; reflexivity. Qed.

(* ------------------------------------------------------------------ *)
(** ** The theorems at work on the small world *)

(** Solves [Permutation l l'] for two explicit lists. *)
Ltac perm_concrete :=
  lazymatch goal with
  | |- Permutation [] [] => exact (perm_nil _)
  | |- Permutation (?x :: ?l) ?r =>
      let rec split pre post :=
        lazymatch post with
        | x :: ?post' => constr:((pre, post'))
        | ?y :: ?post' =>
            let pre' := eval cbn [app] in (pre ++ [y]) in split pre' post'
        end in
      let T := type of x in
      let p := split (@nil T) r in
      lazymatch p with
      | (?l1, ?l2) =>
          apply (@Permutation_cons_app _ l l1 l2 x); cbn [app]; perm_concrete
      end
  end.

(** Refutes [InA Qeq q l] for explicit rationals. *)
Ltac not_InA :=
  let H := fresh "H" in
  intros H;
  repeat match goal with
    | H : InA _ _ (_ :: _) |- _ => inversion H; clear H; subst
    | H : InA _ _ [] |- _ => inversion H
    | H : (_ == _)%Q |- _ => vm_compute in H; discriminate H
    | H : @eq Z _ _ |- _ => vm_compute in H; discriminate H
    end.

Lemma create_segments_from_route_count_witness :
  exists segs,
    @create_segments_from_route Binary64.arithmetic Demo.straight_line Demo.by_sequence
      Demo.route1 Demo.stops_a = Returned segs /\
    List.length segs = 2.
Proof.
  destruct (@create_segments_from_route_count Binary64.arithmetic
              Demo.straight_line Demo.by_sequence Demo.route1 Demo.stops_a)
    as [H _].
  apply (H [(0%Q, 0%Q); (12%Q, 0%Q)]
           [Demo.stop "r1" "a" 1 0; Demo.stop "r1" "b" 2 5; Demo.stop "r1" "c" 3 12]);
    try reflexivity.
  - intros r Hr; vm_compute in Hr.
    destruct Hr as [<-|[<-|[<-|[]]]]; discriminate.
  - vm_compute; lia.
Defined.

Lemma sequence_and_order_irrelevant_witness :
  @create_segments_from_route Binary64.arithmetic Demo.straight_line Demo.by_sequence
    Demo.route1 Demo.stops_a
  = @create_segments_from_route Binary64.arithmetic Demo.straight_line Demo.by_sequence
      Demo.route1 Demo.stops_b.
Proof.
  apply (@sequence_and_order_irrelevant Binary64.arithmetic
           Demo.straight_line Demo.by_sequence Demo.route1 Demo.stops_a Demo.stops_b
           [Demo.stop "r1" "a" 1 0; Demo.stop "r1" "b" 2 5; Demo.stop "r1" "c" 3 12]
           [Demo.stop "r1" "c" 1 12; Demo.stop "r1" "b" 2 5; Demo.stop "r1" "a" 7 0]);
    try reflexivity.
  - vm_compute. perm_concrete.
  - intros g E; injection E as <-. vm_compute.
    repeat constructor; not_InA.
Defined.

Lemma fallback_geometry_witness :
  exists segs seg,
    @create_segments_from_route Binary64.arithmetic Demo.straight_line Demo.by_sequence
      Demo.route1 Demo.stops_tie = Returned segs /\
    nth_error segs 1 = Some seg /\
    s_stopid seg = "b" /\ e_stopid seg = "c" /\
    geometry seg = [(5%Q, 0%Q); (5%Q, 0%Q)] /\
    @calculate_segment_distance Binary64.arithmetic Demo.straight_line
      [(5%Q, 0%Q); (5%Q, 0%Q)]
    = Returned (distance seg).
Proof.
  apply (@fallback_geometry Binary64.arithmetic Demo.straight_line Demo.by_sequence
           Demo.route1 Demo.stops_tie (frame_rows Demo.stops_tie)
           [(0%Q, 0%Q); (12%Q, 0%Q)] 1
           (mkProj 1 (Demo.stop "r1" "b" 2 5) 5)
           (mkProj 2 (Demo.stop "r1" "c" 3 5) 5));
    try reflexivity.
  vm_compute; lia.
Defined.

Lemma calculate_segment_distance_total_witness :
  exists d,
    @calculate_segment_distance Binary64.arithmetic Demo.no_pyproj
      [(0%Q, 0%Q); (12%Q, 0%Q)]
    = Returned d /\
    d = Binary64.of_Q (133584 # 100).
Proof.
  destruct (@calculate_segment_distance_total Binary64.arithmetic Demo.no_pyproj
              [(0%Q, 0%Q); (12%Q, 0%Q)]) as (d & Hd & _ & Hnative & _).
  exists d; split; [exact Hd|].
  rewrite (Hnative eq_refl _ eq_refl). vm_compute; reflexivity.
Defined.

Lemma segments_form_chain_witness :
  @create_segments_from_route Binary64.arithmetic Demo.straight_line Demo.by_sequence
    Demo.route1 Demo.stops_a = Returned Demo.segments_a /\
  (nth_error (@Demo.segments_a Binary64.arithmetic) 0 = Some (Demo.leg "a" "b" 0 5) /\
   nth_error (@Demo.segments_a Binary64.arithmetic) 1 = Some (Demo.leg "b" "c" 5 12)) /\
  (e_stopid (@Demo.leg Binary64.arithmetic "a" "b" 0 5) = s_stopid (@Demo.leg Binary64.arithmetic "b" "c" 5 12) /\
   e_stop_cn (@Demo.leg Binary64.arithmetic "a" "b" 0 5) = s_stop_cn (@Demo.leg Binary64.arithmetic "b" "c" 5 12) /\
   e_stop_en (@Demo.leg Binary64.arithmetic "a" "b" 0 5) = s_stop_en (@Demo.leg Binary64.arithmetic "b" "c" 5 12)).
Proof.
  split; [reflexivity|].
  split; [split; reflexivity|].
  apply (proj1 (@segments_form_chain Binary64.arithmetic Demo.straight_line
                  Demo.by_sequence Demo.route1 Demo.stops_a Demo.segments_a
                  eq_refl) 0);
    reflexivity.
Defined.


(* ================================================================== *)
(** * Further properties of the segment processors *)

(* ------------------------------------------------------------------ *)
(** ** The curve slicer *)

Section Slicer.

Context {floats : Floats} {shapely : Shapely}.

(** X1. The slicer does not care in which order it is given the two
    positions (two positions of the same value being the same number). *)
Theorem extract_line_segment_symmetric (line : LineString) (a b : Q) :
  ((a == b)%Q -> a = b) ->
  extract_line_segment line a b = extract_line_segment line b a.
Proof.
  intros Hrepr; unfold extract_line_segment.
  destruct (Qlt_le_dec b a) as [Hba|Hab], (Qlt_le_dec a b) as [Hab'|Hba'];
    try reflexivity.
  - exfalso; apply (Qlt_irrefl a); now apply Qlt_trans with b.
  - rewrite (Hrepr (Qle_antisym _ _ Hab Hba')); reflexivity.
Qed.

(** X2. A slice that is handed out was cut by [substring] between the
    smaller and the larger position, is not empty, and its length is not
    below 0.000001; everything else, a failure of the library included,
    comes back as [None]. *)
Theorem extract_line_segment_sound (line : LineString) (a b : Q)
        (segment : LineString) :
  extract_line_segment line a b = Some segment ->
  exists lo hi len,
    ((lo = a /\ hi = b) \/ (lo = b /\ hi = a)) /\ (lo <= hi)%Q /\
    substring line lo hi = Some segment /\
    is_empty segment = false /\
    geom_length segment = Some len /\ flt len (fnum (1 # 1000000)) = false.
Proof.
  unfold extract_line_segment.
  destruct (Qlt_le_dec b a) as [Hba|Hab].
  - destruct (substring line b a) as [s|] eqn:Es; simpl; [|discriminate].
    destruct (is_empty s) eqn:Ee; simpl; [discriminate|].
    destruct (geom_length s) as [len|] eqn:El; simpl; [|discriminate].
    destruct (flt len (fnum (1 # 1000000))) eqn:Hlen; simpl; [discriminate|].
    intros E; injection E as <-.
    exists b, a, len; repeat split; auto using Qlt_le_weak.
  - destruct (substring line a b) as [s|] eqn:Es; simpl; [|discriminate].
    destruct (is_empty s) eqn:Ee; simpl; [discriminate|].
    destruct (geom_length s) as [len|] eqn:El; simpl; [|discriminate].
    destruct (flt len (fnum (1 # 1000000))) eqn:Hlen; simpl; [discriminate|].
    intros E; injection E as <-.
    exists a, b, len; repeat split; auto.
Qed.

End Slicer.

Lemma extract_line_segment_symmetric_witness :
  @extract_line_segment Binary64.arithmetic Demo.straight_line
    [(0%Q, 0%Q); (12%Q, 0%Q)] 5 0
  = Some [(0%Q, 0%Q); (5%Q, 0%Q)] /\
  @extract_line_segment Binary64.arithmetic Demo.straight_line
    [(0%Q, 0%Q); (12%Q, 0%Q)] 0 5
  = Some [(0%Q, 0%Q); (5%Q, 0%Q)].
Proof.
  rewrite (@extract_line_segment_symmetric Binary64.arithmetic Demo.straight_line
             [(0%Q, 0%Q); (12%Q, 0%Q)] 5 0).
  - split; reflexivity.
  - intros H; vm_compute in H; discriminate H.
Defined.

Lemma extract_line_segment_sound_witness :
  exists lo hi len,
    ((lo = 5%Q /\ hi = 0%Q) \/ (lo = 0%Q /\ hi = 5%Q)) /\ (lo <= hi)%Q /\
    @substring Binary64.arithmetic Demo.straight_line [(0%Q, 0%Q); (12%Q, 0%Q)] lo hi
    = Some [(0%Q, 0%Q); (5%Q, 0%Q)] /\
    is_empty [(0%Q, 0%Q); (5%Q, 0%Q)] = false /\
    @geom_length Binary64.arithmetic Demo.straight_line [(0%Q, 0%Q); (5%Q, 0%Q)]
    = Some len /\
    @flt Binary64.arithmetic len (Binary64.of_Q (1 # 1000000)) = false.
Proof.
  apply (@extract_line_segment_sound Binary64.arithmetic Demo.straight_line
           [(0%Q, 0%Q); (12%Q, 0%Q)] 5 0).
  reflexivity.
Defined.

(* ------------------------------------------------------------------ *)
(** ** More on the route segmenter *)

Lemma insert_by_key_filter {A} (key : A -> Q) (q : Q) (x : A) (l : list A) :
  filter (fun a => Qeq_bool (key a) q) (insert_by_key key x l) =
  filter (fun a => Qeq_bool (key a) q) (x :: l).
Proof.
  induction l as [|y t IH]; [reflexivity|].
  cbn [insert_by_key].
  destruct (Qlt_le_dec (key y) (key x)) as [Hlt|]; [|reflexivity].
  cbn [filter] in *; rewrite IH.
  destruct (Qeq_bool (key x) q) eqn:Ex; [|reflexivity].
  destruct (Qeq_bool (key y) q) eqn:Ey; [|reflexivity].
  apply Qeq_bool_iff in Ex, Ey.
  exfalso; apply (Qlt_irrefl q). now rewrite <- Ey at 1; rewrite <- Ex.
Qed.

Lemma sort_by_key_stable {A} (key : A -> Q) (q : Q) (l : list A) :
  filter (fun a => Qeq_bool (key a) q) (sort_by_key key l) =
  filter (fun a => Qeq_bool (key a) q) l.
Proof.
  induction l as [|x t IH]; [reflexivity|].
  cbn [sort_by_key]; rewrite insert_by_key_filter.
  cbn [filter]; now rewrite IH.
Qed.

Section SegmenterMore.

Context {floats : Floats} {shapely : Shapely} {pandas : Pandas}.

Lemma project_stops_length_perm (g : LineString) (l l' : list StopRow) (i j : nat) :
  Permutation l l' ->
  List.length (project_stops g i l) = List.length (project_stops g j l').
Proof.
  intros HP.
  rewrite <- (length_map view (project_stops g i l)),
          <- (length_map view (project_stops g j l')), !view_project_stops.
  apply Permutation_length. now apply Permutation_flat_map.
Qed.

(** X3. Once the rows of the route are handed out and the two guards are
    passed, the number of segments is the number of stops of the route
    that survive the projection, less one (none when a single stop or no
    stop survives). *)
Theorem segment_count_is_survivors_less_one (route_row : RouteRow)
        (stops_gdf : StopsFrame) (route_stops : list StopRow) (g : LineString) :
  get_route_stops_ordered (rt_route_id route_row) stops_gdf = Returned route_stops ->
  rt_geometry route_row = Some g -> is_empty g = false ->
  2 <= List.length (stops_of_route (rt_route_id route_row) stops_gdf) ->
  exists segs,
    create_segments_from_route route_row stops_gdf = Returned segs /\
    List.length segs =
    List.length (surviving_positions g
                   (stops_of_route (rt_route_id route_row) stops_gdf)) - 1.
Proof.
  intros Hrs Hg He HN.
  rewrite (create_segments_from_route_loop _ _ _ g Hrs Hg He HN).
  destruct (segment_loop_returns g (rt_city_cn route_row) (rt_city_en route_row)
              (sorted_stop_projections g route_stops)) as [segs Hsegs].
  exists segs; split; [assumption|].
  rewrite (for_each_length _ _ _ Hsegs), consecutive_pairs_length.
  unfold sorted_stop_projections, surviving_positions.
  rewrite sort_by_key_length, length_map.
  f_equal. apply project_stops_length_perm, get_route_stops_ordered_perm, Hrs.
Qed.

(** X4. Every segment of a route is made of two stops of that very route
    (rows of the frame with the route's id), the first one projecting no
    further along the route than the second; it carries the city of the
    route row, not of the stops; and its geometry is either the slice of
    the route between the two projections or the straight connection of
    the two stops. *)
Theorem segment_provenance (route_row : RouteRow) (stops_gdf : StopsFrame)
        (segs : list Segment) (seg : Segment) :
  create_segments_from_route route_row stops_gdf = Returned segs ->
  In seg segs ->
  exists g a b pa pb,
    rt_geometry route_row = Some g /\
    In a (stops_of_route (rt_route_id route_row) stops_gdf) /\
    In b (stops_of_route (rt_route_id route_row) stops_gdf) /\
    project_point_to_line (st_geometry a) g = Some pa /\
    project_point_to_line (st_geometry b) g = Some pb /\
    (pa <= pb)%Q /\
    (s_stopid seg, s_stop_cn seg, s_stop_en seg) =
      (get_str (st_stop_id a), get_str (st_name_cn a), get_str (st_name_en a)) /\
    (e_stopid seg, e_stop_cn seg, e_stop_en seg) =
      (get_str (st_stop_id b), get_str (st_name_cn b), get_str (st_name_en b)) /\
    city_cn seg = get_str (rt_city_cn route_row) /\
    city_en seg = get_str (rt_city_en route_row) /\
    (extract_line_segment g pa pb = Some (geometry seg) \/
     (extract_line_segment g pa pb = None /\
      geometry seg = [st_geometry a; st_geometry b])).
Proof.
  intros H Hin.
  destruct (In_nth_error _ _ Hin) as [i Hi].
  destruct (create_segments_from_route_nth _ _ _ _ _ H Hi)
    as (g & rs & a & b & Hg & Hrs & Ha & Hb & Hm).
  rewrite make_segment_eq in Hm; injection Hm as <-; cbn.
  destruct (sorted_stop_projections_In _ _ _ (nth_error_In _ _ Ha)) as [Hina Hpa].
  destruct (sorted_stop_projections_In _ _ _ (nth_error_In _ _ Hb)) as [Hinb Hpb].
  exists g, (stop_data a), (stop_data b),
    (projection_distance a), (projection_distance b).
  repeat split; try assumption.
  - eapply Permutation_in; [apply get_route_stops_ordered_perm, Hrs|assumption].
  - eapply Permutation_in; [apply get_route_stops_ordered_perm, Hrs|assumption].
  - eapply (StronglySorted_nth (key_le projection_distance));
      [apply sort_by_key_strongly_sorted| |exact Ha|exact Hb]. lia.
  - unfold segment_geometry.
    destruct (extract_line_segment g (projection_distance a) (projection_distance b));
      auto.
Qed.

(** X5. The distance of a segment is the distance of the geometry it
    carries: what [calculate_segment_distance] returns for that geometry.
    It is therefore a result of [round(x, 3)], unless the length of the
    geometry could be computed in neither way, and then it is 0.0. *)
Theorem segment_distance_of_geometry (route_row : RouteRow)
        (stops_gdf : StopsFrame) (segs : list Segment) (seg : Segment) :
  create_segments_from_route route_row stops_gdf = Returned segs ->
  In seg segs ->
  calculate_segment_distance (geometry seg) = Returned (distance seg) /\
  ((exists x, distance seg = round3 x) \/
   (mercator_length (geometry seg) = None /\ geom_length (geometry seg) = None /\
    distance seg = fnum 0)).
Proof.
  intros H Hin.
  destruct (In_nth_error _ _ Hin) as [i Hi].
  destruct (create_segments_from_route_nth _ _ _ _ _ H Hi)
    as (g & rs & a & b & _ & _ & _ & _ & Hm).
  rewrite make_segment_eq in Hm; injection Hm as <-; cbn.
  split; [apply calculate_segment_distance_returns|].
  unfold distance_tiers.
  destruct (mercator_length (segment_geometry g a b)) as [m|]; [eauto|].
  destruct (geom_length (segment_geometry g a b)) as [n|]; eauto.
Qed.

(** X6. The sort by projected position is stable: the stops that project
    to one and the same position stay in the order in which the projection
    loop met them. *)
Theorem ties_keep_row_order (g : LineString) (route_stops : list StopRow) (q : Q) :
  filter (fun sp => Qeq_bool (projection_distance sp) q)
         (sorted_stop_projections g route_stops)
  = filter (fun sp => Qeq_bool (projection_distance sp) q)
           (project_stops g 0 route_stops).
Proof. apply sort_by_key_stable. Qed.

(** X7. When [get_route_stops_ordered] returns, it hands out the rows of
    the frame that carry the route id, each of them once and no other
    row.  It returns them in the order of the frame, and without fail,
    when the frame has no [sequence] column or the route has at most one
    row; it raises only when the sort of two rows or more does. *)
Theorem route_stops_selection (route_id : pyval) (stops_gdf : StopsFrame) :
  let rows := filter (fun r => pd_eq (st_route_id r) route_id)
                     (frame_rows stops_gdf) in
  (forall route_stops,
      get_route_stops_ordered route_id stops_gdf = Returned route_stops ->
      Permutation route_stops rows /\
      (forall r, In r route_stops <->
                 In r (frame_rows stops_gdf) /\ pd_eq (st_route_id r) route_id = true)) /\
  (has_sequence stops_gdf = false \/ List.length rows <= 1 ->
   get_route_stops_ordered route_id stops_gdf = Returned rows) /\
  (get_route_stops_ordered route_id stops_gdf = Raised ->
   has_sequence stops_gdf = true /\ 2 <= List.length rows /\
   sort_values_sequence rows = Raised).
Proof.
  intros rows; repeat apply conj.
  - intros route_stops H.
    pose proof (get_route_stops_ordered_perm _ _ _ H) as HP.
    unfold stops_of_route in HP; fold rows in HP.
    split; [assumption|].
    intros r; unfold rows in HP.
    rewrite <- (filter_In (fun r => pd_eq (st_route_id r) route_id)).
    split; intros Hr.
    + eapply Permutation_in; eassumption.
    + eapply Permutation_in; [symmetry|]; eassumption.
  - intros [Hs|Hfew].
    + now apply get_route_stops_ordered_unsorted.
    + apply get_route_stops_ordered_short; unfold stops_of_route; fold rows; lia.
  - unfold get_route_stops_ordered; fold rows.
    destruct (Nat.eqb_spec (List.length rows) 0) as [|Hne]; [discriminate|].
    destruct (has_sequence stops_gdf); [|discriminate].
    intros Hraised; repeat split; [|assumption].
    destruct (le_lt_dec (List.length rows) 1) as [Hle|]; [|lia].
    rewrite (sort_values_short rows Hle) in Hraised; discriminate.
Qed.

End SegmenterMore.

(* ------------------------------------------------------------------ *)
(** ** More on first occurrences *)

Section FirstSeenMore.

Context {K : Type} (eqb : K -> K -> bool).
Hypothesis eqb_spec : forall a b, eqb a b = true <-> a = b.

Lemma first_seen_length_le (l : list K) :
  List.length (first_seen eqb l) <= List.length l.
Proof.
  induction l as [|k l IH] using rev_ind; [reflexivity|].
  rewrite first_seen_snoc, length_app; unfold add_new; cbn [List.length].
  destruct (existsb (eqb k) (first_seen eqb l)); [lia|].
  rewrite length_app; cbn [List.length]; lia.
Qed.

Lemma first_seen_of_distinct (l : list K) : NoDup l -> first_seen eqb l = l.
Proof.
  induction l as [|k l IH] using rev_ind; intros Hnd; [reflexivity|].
  apply NoDup_remove in Hnd; rewrite app_nil_r in Hnd; destruct Hnd as [Hnd Hk].
  rewrite first_seen_snoc, (IH Hnd); unfold add_new.
  now rewrite (proj2 (existsb_eqb_false eqb eqb_spec k l) Hk).
Qed.

Lemma first_seen_nil (l : list K) : first_seen eqb l = [] -> l = [].
Proof.
  destruct l as [|k t]; [reflexivity|]; intros E.
  assert (In k (first_seen eqb (k :: t))) as Hin
      by (apply (first_seen_In eqb eqb_spec); now left).
  rewrite E in Hin; destruct Hin.
Qed.

End FirstSeenMore.

Lemma Forall2_map_left {A B C} (R : B -> C -> Prop) (f : A -> B)
      (l : list A) (l' : list C) :
  Forall2 R (map f l) l' -> Forall2 (fun x y => R (f x) y) l l'.
Proof.
  revert l'; induction l as [|x t IH]; intros l' H; inversion H; subst;
    constructor; auto.
Qed.

(* ------------------------------------------------------------------ *)
(** ** More on the aggregated segments *)

(** A segment with another distance. *)
Definition with_distance {floats : Floats} (s : Segment) (d : float) : Segment :=
  {| s_stop_cn := s_stop_cn s;
     s_stop_en := s_stop_en s;
     s_stopid := s_stopid s;
     e_stop_cn := e_stop_cn s;
     e_stop_en := e_stop_en s;
     e_stopid := e_stopid s;
     distance := d;
     city_cn := city_cn s;
     city_en := city_en s;
     geometry := geometry s |}.

(** What a second aggregation makes of a record that is alone with its
    key: the same record, its distance averaged over itself, counted
    once. *)
Definition once_more {floats : Floats} (a : AggregatedSegment) : AggregatedSegment :=
  {| agg_segment :=
       with_distance (agg_segment a)
                     (round3 (fdiv (fsum [distance (agg_segment a)]) 1));
     num := 1 |}.

Section AggregationMore.

Context {floats : Floats} {runtime : Runtime}.

Lemma group_of_distinct (l : list Segment) (s : Segment) :
  NoDup (map segment_key l) -> In s l -> group_of (segment_key s) l = [s].
Proof.
  unfold group_of, members.
  induction l as [|x t IH]; intros Hnd Hin; [destruct Hin|].
  inversion Hnd as [|? ? Hx Hnd']; subst; cbn [filter].
  destruct Hin as [->|Hin].
  - rewrite (proj2 (key_eqb_spec _ _) eq_refl). f_equal.
    apply (members_nil key_eqb key_eqb_spec segment_key); assumption.
  - destruct (key_eqb (segment_key x) (segment_key s)) eqn:E.
    + apply key_eqb_spec in E. exfalso; apply Hx; rewrite E; now apply in_map.
    + now apply IH.
Qed.

Lemma set_iter_singleton (c : string) : set_iter [c] = [c].
Proof. apply Permutation_length_1_inv, Permutation_sym, set_iter_perm. Qed.

Lemma set_iter_nil : set_iter [] = [].
Proof. apply Permutation_nil, Permutation_sym, set_iter_perm. Qed.

Lemma aggregate_segments_keys (l : list Segment) (out : list AggregatedSegment) :
  Forall2 (aggregate_of l) (first_seen key_eqb (map segment_key l)) out ->
  map (fun a => segment_key (agg_segment a)) out
  = first_seen key_eqb (map segment_key l).
Proof.
  intros HF. rewrite <- (map_id (first_seen _ _)). apply Forall2_map_eq.
  eapply Forall2_weaken_In; [|exact HF].
  intros k a _ H; now apply aggregate_of_key in H.
Qed.

(** X8. The record of a key takes its names, ids, English city and
    geometry from the first input segment that carries the key. *)
Theorem aggregate_keeps_first_segment (segments_list : list Segment) :
  exists out,
    aggregate_segments segments_list = Returned out /\
    forall a, In a out ->
      exists s rest,
        group_of (segment_key (agg_segment a)) segments_list = s :: rest /\
        (s_stopid (agg_segment a), s_stop_cn (agg_segment a), s_stop_en (agg_segment a))
          = (s_stopid s, s_stop_cn s, s_stop_en s) /\
        (e_stopid (agg_segment a), e_stop_cn (agg_segment a), e_stop_en (agg_segment a))
          = (e_stopid s, e_stop_cn s, e_stop_en s) /\
        city_en (agg_segment a) = city_en s /\
        geometry (agg_segment a) = geometry s.
Proof.
  destruct (aggregate_segments_groups segments_list) as (out & Hout & HF).
  exists out; split; [assumption|].
  intros a Ha.
  destruct (Forall2_In_r _ _ _ _ HF Ha) as (k & _ & Hagg).
  rewrite (aggregate_of_key _ _ _ Hagg).
  destruct Hagg as (s & rest & Eg & ->).
  exists s, rest; repeat split; assumption.
Qed.

(** X9. Aggregation never makes more records than it is given segments,
    and it makes none exactly when it is given none. *)
Theorem aggregate_size (segments_list : list Segment) :
  exists out,
    aggregate_segments segments_list = Returned out /\
    List.length out <= List.length segments_list /\
    (out = [] <-> segments_list = []).
Proof.
  destruct (aggregate_segments_groups segments_list) as (out & Hout & HF).
  exists out; split; [assumption|].
  pose proof (Forall2_length HF) as Hlen.
  pose proof (first_seen_length_le key_eqb (map segment_key segments_list)) as Hle.
  rewrite length_map in Hle.
  split; [lia|]; split.
  - intros ->.
    destruct (first_seen key_eqb (map segment_key segments_list)) eqn:E;
      [|discriminate].
    apply (first_seen_nil key_eqb key_eqb_spec) in E.
    now apply map_eq_nil in E.
  - intros ->. destruct out; [reflexivity|discriminate].
Qed.

Lemma with_distance_same (s : Segment) : with_distance s (distance s) = s.
Proof. now destruct s. Qed.

Lemma summarize_singleton (x : Segment) :
  summarize [x] x =
  {| agg_segment := with_distance x (round3 (fdiv (fsum [distance x]) 1));
     num := 1 |}.
Proof.
  unfold summarize, with_distance; cbn.
  f_equal. f_equal.
  unfold distinct_cities, first_seen; cbn.
  change (add_new String.eqb ?c []) with [c].
  now rewrite set_iter_singleton.
Qed.

(** X10. Aggregating the aggregated segments once more gives the same
    records again, each counted once and with its distance averaged over
    itself: keys, city tags and templates are left as they are, and so
    are the distances that rounding the average of the single value
    gives back. *)
Theorem aggregate_again (segments_list : list Segment) :
  exists out,
    aggregate_segments segments_list = Returned out /\
    aggregate_segments (map agg_segment out) = Returned (map once_more out) /\
    ((forall a, In a out ->
        round3 (fdiv (fsum [distance (agg_segment a)]) 1) = distance (agg_segment a)) ->
     aggregate_segments (map agg_segment out)
     = Returned (map (fun a => {| agg_segment := agg_segment a; num := 1 |}) out)).
Proof.
  destruct (aggregate_segments_groups segments_list) as (out & Hout & HF).
  exists out; split; [assumption|].
  assert (aggregate_segments (map agg_segment out) = Returned (map once_more out))
    as Hagain.
  { set (l' := map agg_segment out).
    assert (NoDup (map segment_key l')) as Hnd.
    { unfold l'; rewrite map_map, (aggregate_segments_keys _ _ HF).
      apply first_seen_NoDup, key_eqb_spec. }
    destruct (aggregate_segments_groups l') as (out' & Hout' & HF').
    rewrite Hout'; f_equal.
    rewrite (first_seen_of_distinct key_eqb key_eqb_spec _ Hnd) in HF'.
    apply Forall2_map_left in HF'.
    unfold l' in HF' at 2; apply Forall2_map_left in HF'.
    rewrite <- (map_id out').
    apply Forall2_map_eq.
    eapply Forall2_weaken_In; [|exact HF'].
    intros a a' Ha (s & rest & Eg & ->); cbn beta.
    rewrite (group_of_distinct l' (agg_segment a) Hnd) in Eg
      by (unfold l'; now apply in_map).
    injection Eg as <- <-.
    unfold id. apply summarize_singleton. }
  split; [assumption|].
  intros Hsame; rewrite Hagain; f_equal.
  apply map_ext_in; intros a Ha; unfold once_more.
  now rewrite (Hsame a Ha), with_distance_same.
Qed.

End AggregationMore.

(* ------------------------------------------------------------------ *)
(** ** More on the unique stops *)

Lemma filter_all_false {A} (p : A -> bool) (l : list A) :
  (forall x, In x l -> p x = false) -> filter p l = [].
Proof.
  induction l as [|x t IH]; intros H; [reflexivity|]; cbn.
  rewrite (H x (or_introl eq_refl)). apply IH; intros; apply H; now right.
Qed.

Section DeduplicationMore.

Context {runtime : Runtime}.

(** X11. The record of a stop id takes its names, English city and
    location from the first row that carries the id, and its count is at
    most the number of rows that carry the id. *)
Theorem unique_stop_keeps_first_row (stops_gdf : StopsFrame) :
  exists out,
    create_unique_stops stops_gdf = Returned out /\
    forall u, In u out ->
      exists s rest,
        occurrences (us_stop_id u) (frame_rows stops_gdf) = s :: rest /\
        us_stop_cn u = get_str (st_name_cn s) /\
        us_stop_en u = get_str (st_name_en s) /\
        us_city_en u = get_str (st_city_en s) /\
        us_geometry u = st_geometry s /\
        us_num u <= List.length (s :: rest).
Proof.
  destruct (create_unique_stops_groups stops_gdf) as (out & Hout & HF).
  exists out; split; [assumption|].
  intros u Hu.
  destruct (Forall2_In_r _ _ _ _ HF Hu) as (k & _ & Hk).
  rewrite (unique_of_id _ _ _ Hk).
  destruct Hk as (s & rest & Eo & ->).
  exists s, rest; repeat split; try assumption.
  cbn [us_num]; unfold routes_of.
  etransitivity; [apply first_seen_length_le|].
  etransitivity; [apply filter_length_le|].
  now rewrite length_map.
Qed.

(** X12. A stop id all of whose rows carry an empty route id (the empty
    string: a null route id reads "None" or "nan" and counts as a route)
    is still listed, with a count of 0 and an empty city tag; and a count
    of 0 means just that. *)
Theorem unique_stop_without_routes (stops_gdf : StopsFrame) :
  exists out,
    create_unique_stops stops_gdf = Returned out /\
    (forall r, In r (frame_rows stops_gdf) -> stop_key r <> EmptyString ->
       (forall r', In r' (occurrences (stop_key r) (frame_rows stops_gdf)) ->
                   route_key r' = EmptyString) ->
       exists u, In u out /\ us_stop_id u = stop_key r /\
                 us_num u = 0 /\ us_city_cn u = EmptyString) /\
    (forall u, In u out ->
       let g := occurrences (us_stop_id u) (frame_rows stops_gdf) in
       (us_num u = 0 <-> forall r, In r g -> route_key r = EmptyString) /\
       (us_num u = 0 -> us_city_cn u = EmptyString)).
Proof.
  destruct (create_unique_stops_groups stops_gdf) as (out & Hout & HF).
  exists out; split; [assumption|].
  assert (forall u, In u out ->
            let g := occurrences (us_stop_id u) (frame_rows stops_gdf) in
            (us_num u = 0 <-> forall r, In r g -> route_key r = EmptyString) /\
            (us_num u = 0 -> us_city_cn u = EmptyString)) as Hzero.
  { intros u Hu.
    destruct (Forall2_In_r _ _ _ _ HF Hu) as (k & _ & Hk).
    rewrite (unique_of_id _ _ _ Hk).
    destruct Hk as (s & rest & Eo & ->); rewrite Eo.
    cbn [us_num us_city_cn].
    set (g := s :: rest).
    assert (List.length (routes_of g) = 0 <->
            forall r, In r g -> route_key r = EmptyString) as Hiff.
    { unfold routes_of; split.
      - intros H0 r Hr.
        destruct (truthy (route_key r)) eqn:Et.
        + assert (In (route_key r) (first_seen String.eqb
                                      (filter truthy (map route_key g)))) as Hin.
          { apply (first_seen_In String.eqb String.eqb_eq), filter_In.
            split; [now apply in_map|assumption]. }
          destruct (first_seen String.eqb (filter truthy (map route_key g)));
            [destruct Hin|discriminate].
        + destruct (route_key r); [reflexivity|discriminate].
      - intros Hall. rewrite filter_all_false; [reflexivity|].
        intros x Hx; apply in_map_iff in Hx; destruct Hx as (r & <- & Hr).
        now rewrite (Hall r Hr). }
    split; [exact Hiff|].
    intros H0; pose proof (proj1 Hiff H0) as Hall.
    unfold cities_of. rewrite filter_all_false.
    - cbn. now rewrite set_iter_nil.
    - intros r Hr; now rewrite (Hall r Hr). }
  split; [|exact Hzero].
  intros r Hr Hk Hall.
  assert (In (stop_key r) (map us_stop_id out)) as Hin.
  { assert (map us_stop_id out =
            first_seen String.eqb (filter truthy (map stop_key (frame_rows stops_gdf))))
      as ->.
    { rewrite <- (map_id (first_seen _ _)). apply Forall2_map_eq.
      eapply Forall2_weaken_In; [|exact HF].
      intros k u _ H; now apply unique_of_id in H. }
    apply (first_seen_In String.eqb String.eqb_eq).
    apply filter_In; split; [now apply in_map|now apply truthy_spec]. }
  apply in_map_iff in Hin; destruct Hin as (u & Eu & Hu).
  exists u; split; [assumption|]; split; [assumption|].
  destruct (Hzero u Hu) as [Hiff Hcity]; cbn zeta in Hiff.
  rewrite Eu in Hiff.
  pose proof (proj2 Hiff Hall) as H0; auto.
Qed.

End DeduplicationMore.

(* ------------------------------------------------------------------ *)
(** ** One city at a time: [process_city_segments] *)

(** The routes frame: whether it has a [city_en] column, and its rows. *)
Record RoutesFrame : Type := mkRoutes {
  routes_has_city_en : bool;
  route_rows : list RouteRow
}.

(** The stops frame together with whether it has a [city_en] column. *)
Record StopsTable : Type := mkStopsTable {
  stops_has_city_en : bool;
  stops_frame : StopsFrame
}.

(** [frame['city_en'] == city_en] on one row. *)
Definition cell_eq (cell : option pyval) (v : pyval) : bool :=
  match cell with
  | Some x => pd_eq x v
  | None => false
  end.

(** The second component of the result: the empty list of the early
    return, or the frame of the city's stops. *)
Inductive CityStops : Type :=
| NoCityStops
| CityStopsFrame (city_stops : StopsFrame).

Section City.

Context {floats : Floats} {shapely : Shapely} {pandas : Pandas}.

(** [process_city_segments].  Indexing a frame by a column it does not
    have raises [KeyError]; the counters [processed_routes] and
    [failed_routes] only feed the log. *)
Definition process_city_segments (city_en : pyval) (routes_gdf : RoutesFrame)
           (stops_gdf : StopsTable) : outcome (list Segment * CityStops) :=
  if negb (routes_has_city_en routes_gdf) then Raised
  else
    let city_routes :=
      filter (fun r => cell_eq (rt_city_en r) city_en) (route_rows routes_gdf) in
    if negb (stops_has_city_en stops_gdf) then Raised
    else
      let city_stops :=
        {| has_sequence := has_sequence (stops_frame stops_gdf);
           frame_rows :=
             filter (fun r => cell_eq (st_city_en r) city_en)
                    (frame_rows (stops_frame stops_gdf)) |} in
      if Nat.eqb (List.length city_routes) 0 then Returned ([], NoCityStops)
      else
        let all_segments :=
          fold_left
            (fun all_segments route_row =>
               match create_segments_from_route route_row city_stops with
               | Returned route_segments => all_segments ++ route_segments
               | Raised => all_segments
               end)
            city_routes [] in
        Returned (all_segments, CityStopsFrame city_stops).

(** The routes and the stops of a city. *)
Definition routes_of_city (city_en : pyval) (routes_gdf : RoutesFrame) : list RouteRow :=
  filter (fun r => cell_eq (rt_city_en r) city_en) (route_rows routes_gdf).

Definition stops_of_city (city_en : pyval) (stops_gdf : StopsTable) : StopsFrame :=
  {| has_sequence := has_sequence (stops_frame stops_gdf);
     frame_rows :=
       filter (fun r => cell_eq (st_city_en r) city_en)
              (frame_rows (stops_frame stops_gdf)) |}.

(** What a route adds to the segments of its city: its segments, or
    nothing when [create_segments_from_route] raises. *)
Definition route_contribution (city_stops : StopsFrame) (route_row : RouteRow)
  : list Segment :=
  match create_segments_from_route route_row city_stops with
  | Returned route_segments => route_segments
  | Raised => []
  end.

Lemma collect_segments (routes : list RouteRow) (city_stops : StopsFrame)
      (acc : list Segment) :
  fold_left
    (fun all_segments route_row =>
       match create_segments_from_route route_row city_stops with
       | Returned route_segments => all_segments ++ route_segments
       | Raised => all_segments
       end) routes acc
  = acc ++ concat (map (route_contribution city_stops) routes).
Proof.
  revert acc; induction routes as [|r t IH]; intros acc.
  - cbn; now rewrite app_nil_r.
  - cbn [fold_left map concat]; rewrite IH; unfold route_contribution at 2.
    destruct (create_segments_from_route r city_stops).
    + now rewrite app_assoc.
    + reflexivity.
Qed.

(** X14. A frame without [city_en] column makes [process_city_segments]
    raise; a city without routes gives two empty lists, whatever stops the
    city has. *)
Theorem process_city_segments_edges (city_en : pyval) (routes_gdf : RoutesFrame)
        (stops_gdf : StopsTable) :
  (routes_has_city_en routes_gdf = false \/ stops_has_city_en stops_gdf = false ->
   process_city_segments city_en routes_gdf stops_gdf = Raised) /\
  (routes_has_city_en routes_gdf = true -> stops_has_city_en stops_gdf = true ->
   (forall r, In r (route_rows routes_gdf) -> cell_eq (rt_city_en r) city_en = false) ->
   process_city_segments city_en routes_gdf stops_gdf = Returned ([], NoCityStops)).
Proof.
  unfold process_city_segments; split.
  - intros [-> | ->]; [reflexivity|].
    now destruct (negb (routes_has_city_en routes_gdf)).
  - intros -> -> Hnone; cbn [negb].
    now rewrite filter_all_false.
Qed.

(** X15. The segments of a city are the segments of its routes, one route
    after the other in the order of the frame, each route cut against the
    stops of that city only; a route on which [create_segments_from_route]
    raises (the sort of its stops by [sequence] raised) is skipped and
    takes nothing away from the other routes; the stops handed back are
    the rows of that city, in frame order. *)
Theorem process_city_segments_by_route (city_en : pyval) (routes_gdf : RoutesFrame)
        (stops_gdf : StopsTable) :
  routes_has_city_en routes_gdf = true -> stops_has_city_en stops_gdf = true ->
  routes_of_city city_en routes_gdf <> [] ->
  process_city_segments city_en routes_gdf stops_gdf
  = Returned
      (concat
         (map (fun route_row =>
                 match create_segments_from_route route_row
                         (stops_of_city city_en stops_gdf) with
                 | Returned route_segments => route_segments
                 | Raised => []
                 end)
              (routes_of_city city_en routes_gdf)),
       CityStopsFrame (stops_of_city city_en stops_gdf)) /\
  (forall route_row,
      In route_row (routes_of_city city_en routes_gdf) ->
      (create_segments_from_route route_row (stops_of_city city_en stops_gdf) = Raised <->
       get_route_stops_ordered (rt_route_id route_row) (stops_of_city city_en stops_gdf)
       = Raised)).
Proof.
  intros Hr Hs Hne; split.
  - unfold process_city_segments; rewrite Hr, Hs; cbn [negb].
    fold (routes_of_city city_en routes_gdf) (stops_of_city city_en stops_gdf).
    destruct (routes_of_city city_en routes_gdf) as [|r t] eqn:E; [congruence|].
    cbn [List.length Nat.eqb].
    now rewrite collect_segments.
  - intros route_row _; apply create_segments_from_route_raises.
Qed.

(** X16. Cities are kept apart: every segment made for a city comes from
    a route row of that city and from two stop rows of that city that
    carry the id of that route, and it is tagged with the city of the
    route row. *)
Theorem city_isolation (city : pyval) (routes_gdf : RoutesFrame)
        (stops_gdf : StopsTable) (segs : list Segment) (cs : CityStops)
        (seg : Segment) :
  process_city_segments city routes_gdf stops_gdf = Returned (segs, cs) ->
  In seg segs ->
  exists route a b,
    In route (route_rows routes_gdf) /\ cell_eq (rt_city_en route) city = true /\
    In a (frame_rows (stops_frame stops_gdf)) /\
    cell_eq (st_city_en a) city = true /\
    pd_eq (st_route_id a) (rt_route_id route) = true /\
    In b (frame_rows (stops_frame stops_gdf)) /\
    cell_eq (st_city_en b) city = true /\
    pd_eq (st_route_id b) (rt_route_id route) = true /\
    s_stopid seg = get_str (st_stop_id a) /\
    e_stopid seg = get_str (st_stop_id b) /\
    city_en seg = get_str (rt_city_en route).
Proof.
  unfold process_city_segments.
  destruct (negb (routes_has_city_en routes_gdf)); [discriminate|].
  destruct (negb (stops_has_city_en stops_gdf)); [discriminate|].
  fold (routes_of_city city routes_gdf) (stops_of_city city stops_gdf).
  destruct (Nat.eqb _ 0).
  { intros E; injection E as <- _; intros []. }
  rewrite collect_segments.
  cbn [app]; intros E; injection E as <- _; intros Hin.
  apply in_concat in Hin; destruct Hin as (rsegs & Hrs & Hin).
  apply in_map_iff in Hrs; destruct Hrs as (route & <- & Hroute).
  unfold route_contribution in Hin.
  destruct (create_segments_from_route route (stops_of_city city stops_gdf))
    as [route_segments|] eqn:Hcreate; [|destruct Hin].
  apply filter_In in Hroute; destruct Hroute as [Hroute Hcity].
  destruct (In_nth_error _ _ Hin) as [i Hi].
  destruct (create_segments_from_route_nth _ _ _ _ _ Hcreate Hi)
    as (g & rs & a & b & _ & Hrs & Ha & Hb & Hm).
  rewrite make_segment_eq in Hm; injection Hm as <-; cbn.
  destruct (sorted_stop_projections_In _ _ _ (nth_error_In _ _ Ha)) as [Hina _].
  destruct (sorted_stop_projections_In _ _ _ (nth_error_In _ _ Hb)) as [Hinb _].
  apply (Permutation_in _ (get_route_stops_ordered_perm _ _ _ Hrs)) in Hina, Hinb.
  unfold stops_of_route, stops_of_city in Hina, Hinb; cbn [frame_rows] in Hina, Hinb.
  apply filter_In in Hina, Hinb.
  destruct Hina as [Hina Hra], Hinb as [Hinb Hrb].
  apply filter_In in Hina, Hinb.
  destruct Hina as [Hina Hca], Hinb as [Hinb Hcb].
  exists route, (stop_data a), (stop_data b); repeat split; assumption.
Qed.

End City.

(* ------------------------------------------------------------------ *)
(** ** Names of files and folders *)

(** The two naming functions look inside strings; here a Python [str] is
    the sequence of its code points. *)
Module Names.

Definition pystr : Type := list N.

(** The code points of an ASCII literal. *)
Definition lit (s : string) : pystr :=
  map N_of_ascii (list_ascii_of_string s).

(** [ch.isspace()], which is also the class [\s] of [re]. *)
Definition is_space (c : N) : bool :=
  ((9 <=? c) && (c <=? 13) || (28 <=? c) && (c <=? 32) ||
   (c =? 133) || (c =? 160) || (c =? 5760) ||
   (8192 <=? c) && (c <=? 8202) ||
   (c =? 8232) || (c =? 8233) || (c =? 8239) || (c =? 8287) ||
   (c =? 12288))%N.

Definition underscore : N := 95.
Definition hyphen : N := 45.
Definition dot : N := 46.
Definition space : N := 32.

Definition is_ascii_letter (c : N) : bool :=
  ((65 <=? c) && (c <=? 90) || (97 <=? c) && (c <=? 122))%N.

Definition is_digit (c : N) : bool := ((48 <=? c) && (c <=? 57))%N.

Definition is_lower_letter (c : N) : bool := ((97 <=? c) && (c <=? 122))%N.

(** What [lower] does to an ASCII character. *)
Definition ascii_lower (c : N) : N :=
  if ((65 <=? c) && (c <=? 90))%N then (c + 32)%N else c.

Fixpoint lstrip_by (p : N -> bool) (s : pystr) : pystr :=
  match s with
  | [] => []
  | c :: t => if p c then lstrip_by p t else s
  end.

Definition rstrip_by (p : N -> bool) (s : pystr) : pystr :=
  rev (lstrip_by p (rev s)).

Definition strip_by (p : N -> bool) (s : pystr) : pystr :=
  rstrip_by p (lstrip_by p s).

(** [s.strip()]. *)
Definition strip (s : pystr) : pystr := strip_by is_space s.

Definition one_of (chars : pystr) (c : N) : bool := existsb (N.eqb c) chars.

(** [s.strip(chars)]. *)
Definition strip_chars (chars : pystr) (s : pystr) : pystr :=
  strip_by (one_of chars) s.

(** [s.replace(old, new)] for one-character strings [old] and [new]. *)
Definition replace_char (old new : N) (s : pystr) : pystr :=
  map (fun c => if (c =? old)%N then new else c) s.

(** [re.sub(r'[class]+', rep, s)]: every maximal run of characters of the
    class becomes one [rep]. *)
Fixpoint sub_runs_from (p : N -> bool) (rep : pystr) (in_run : bool) (s : pystr)
  : pystr :=
  match s with
  | [] => []
  | c :: t =>
      if p c then (if in_run then [] else rep) ++ sub_runs_from p rep true t
      else c :: sub_runs_from p rep false t
  end.

Definition sub_runs (p : N -> bool) (rep : pystr) (s : pystr) : pystr :=
  sub_runs_from p rep false s.

(** [re.sub(r'[class]', rep, s)]: every character of the class becomes
    [rep]. *)
Definition sub_each (p : N -> bool) (rep : pystr) (s : pystr) : pystr :=
  flat_map (fun c => if p c then rep else [c]) s.

(** [sep.join(l)]. *)
Fixpoint join_codes (sep : pystr) (l : list pystr) : pystr :=
  match l with
  | [] => []
  | [x] => x
  | x :: t => x ++ sep ++ join_codes sep t
  end.

(** The argument of the naming functions: a string, or a null
    ([pd.isna] holds of [None] and of NaN). *)
Inductive name_arg : Type :=
| NameStr (s : pystr)
| NameNull.

Definition unknown_city : pystr := lit "unknown_city".

(** The nine characters a folder name must not hold: less-than,
    greater-than, colon, double quote, slash, backslash, bar, question mark
    and star. *)
Definition invalid_chars : pystr := [60; 62; 58; 34; 47; 92; 124; 63; 42]%N.

(** [sanitize_folder_name]. *)
Definition sanitize_folder_name (city_name : name_arg) : pystr :=
  match city_name with
  | NameNull => unknown_city
  | NameStr s =>
      match strip s with
      | [] => unknown_city
      | _ :: _ =>
          let city_name := strip s in
          let city_name :=
            fold_left (fun city_name char => replace_char char underscore city_name)
                      invalid_chars city_name in
          let city_name := strip_chars [dot; space] city_name in
          match city_name with
          | [] => unknown_city
          | _ :: _ => city_name
          end
      end
  end.

(** [str.lower] is known here on the strings made of ASCII characters and
    white space: there it works character by character. *)
Class Unicode : Type := {
  lower : pystr -> pystr;
  lower_ascii :
    forall s, Forall (fun c => (c < 128)%N \/ is_space c = true) s ->
              lower s = map ascii_lower s
}.

(** pypinyin: whether it can be imported, and [lazy_pinyin(s,
    style=Style.NORMAL)] ([None] when the call raises). *)
Class Pypinyin : Type := {
  installed : bool;
  lazy_pinyin : pystr -> option (list pystr)
}.

(** The class [[a-zA-Z\s\-\.]]. *)
Definition english_char (c : N) : bool :=
  is_ascii_letter c || is_space c || (c =? hyphen)%N || (c =? dot)%N.

(** The class [[\s\-\.]]. *)
Definition separator (c : N) : bool :=
  is_space c || (c =? hyphen)%N || (c =? dot)%N.

(** The class [[a-z0-9_]]. *)
Definition file_char (c : N) : bool :=
  is_lower_letter c || is_digit c || (c =? underscore)%N.

(** The class [[a-zA-Z0-9\s]]. *)
Definition basic_char (c : N) : bool :=
  is_ascii_letter c || is_digit c || is_space c.

Definition is_underscore (c : N) : bool := (c =? underscore)%N.

Section Pinyin.

Context {unicode : Unicode} {pypinyin : Pypinyin}.

(** [city_name_to_pinyin]. *)
Definition city_name_to_pinyin (city_name : name_arg) : outcome pystr :=
  match city_name with
  | NameNull => Returned unknown_city
  | NameStr s =>
      match strip s with
      | [] => Returned unknown_city
      | _ :: _ =>
          let city_name := strip s in
          if forallb english_char city_name then
            let pinyin_name := sub_runs separator [underscore] (lower city_name) in
            let pinyin_name :=
              strip_chars [underscore] (sub_runs is_underscore [underscore] pinyin_name) in
            Returned pinyin_name
          else if installed then
            pinyin_list <- call (lazy_pinyin city_name) ;;
            let pinyin_name := lower (join_codes [underscore] pinyin_list) in
            let pinyin_name :=
              sub_each (fun c => negb (file_char c)) [underscore] pinyin_name in
            let pinyin_name :=
              strip_chars [underscore] (sub_runs is_underscore [underscore] pinyin_name) in
            Returned pinyin_name
          else
            let pinyin_name :=
              sub_each (fun c => negb (basic_char c)) [underscore] city_name in
            let pinyin_name :=
              strip_chars [underscore]
                (sub_runs (fun c => is_space c || is_underscore c) [underscore]
                          (lower pinyin_name)) in
            match pinyin_name with
            | [] => Returned unknown_city
            | _ :: _ => Returned pinyin_name
            end
      end
  end.

End Pinyin.

End Names.

Module NamesFacts.

Import Names.

(** *** Stripping *)

Section Strip.

Variable p : N -> bool.

Lemma lstrip_by_split (s : pystr) :
  exists pre, s = pre ++ lstrip_by p s /\ forallb p pre = true.
Proof.
  induction s as [|c t IH]; [now exists []|]; cbn.
  destruct (p c) eqn:E.
  - destruct IH as (pre & E1 & E2).
    exists (c :: pre); cbn; rewrite E, E2; split; [now f_equal|reflexivity].
  - now exists [].
Qed.

Lemma lstrip_by_head (s : pystr) (c : N) (t : pystr) :
  lstrip_by p s = c :: t -> p c = false.
Proof.
  induction s as [|x u IH]; cbn; [discriminate|].
  destruct (p x) eqn:E; [assumption|].
  intros H; injection H as <- _; assumption.
Qed.

Lemma lstrip_by_all (s : pystr) : forallb p s = true -> lstrip_by p s = [].
Proof.
  induction s as [|c t IH]; cbn; [reflexivity|].
  destruct (p c); cbn; [assumption|discriminate].
Qed.

Lemma lstrip_by_keep (c : N) (t : pystr) :
  p c = false -> lstrip_by p (c :: t) = c :: t.
Proof. intros E; cbn; now rewrite E. Qed.

Lemma rstrip_by_split (s : pystr) :
  exists post, s = rstrip_by p s ++ post /\ forallb p post = true.
Proof.
  unfold rstrip_by.
  destruct (lstrip_by_split (rev s)) as (pre & E1 & E2).
  exists (rev pre); split.
  - rewrite <- rev_app_distr, <- E1. now rewrite rev_involutive.
  - rewrite forallb_forall in *; intros x Hx; apply E2; now apply in_rev.
Qed.

Lemma rstrip_by_last (s t : pystr) (c : N) :
  rstrip_by p s = t ++ [c] -> p c = false.
Proof.
  unfold rstrip_by; intros H.
  apply (f_equal (@rev N)) in H.
  rewrite rev_involutive, rev_app_distr in H; cbn in H.
  eapply lstrip_by_head; eassumption.
Qed.

Lemma strip_by_split (s : pystr) :
  exists pre post, s = pre ++ strip_by p s ++ post.
Proof.
  unfold strip_by.
  destruct (lstrip_by_split s) as (pre & E1 & _).
  destruct (rstrip_by_split (lstrip_by p s)) as (post & E2 & _).
  exists pre, post. now rewrite <- E2.
Qed.

Lemma strip_by_In (s : pystr) (c : N) : In c (strip_by p s) -> In c s.
Proof.
  destruct (strip_by_split s) as (pre & post & E); intros H.
  rewrite E, !in_app_iff; auto.
Qed.

Lemma strip_by_head (s : pystr) (c : N) (t : pystr) :
  strip_by p s = c :: t -> p c = false.
Proof.
  unfold strip_by; intros H.
  destruct (rstrip_by_split (lstrip_by p s)) as (post & E & _).
  rewrite H in E; cbn in E.
  eapply lstrip_by_head; eassumption.
Qed.

Lemma strip_by_last (s t : pystr) (c : N) :
  strip_by p s = t ++ [c] -> p c = false.
Proof. unfold strip_by; apply rstrip_by_last. Qed.

Lemma strip_by_all (s : pystr) : forallb p s = true -> strip_by p s = [].
Proof. intros H; unfold strip_by; now rewrite lstrip_by_all. Qed.

Lemma strip_by_keep (s : pystr) (a b : N) :
  hd_error s = Some a -> p a = false ->
  hd_error (rev s) = Some b -> p b = false ->
  strip_by p s = s.
Proof.
  intros Ha Hpa Hb Hpb; unfold strip_by, rstrip_by.
  destruct s as [|x t]; [discriminate|]; injection Ha as ->.
  rewrite (lstrip_by_keep a t Hpa).
  destruct (rev (a :: t)) as [|y u] eqn:E; [discriminate|]; injection Hb as ->.
  rewrite (lstrip_by_keep b u Hpb), <- E. apply rev_involutive.
Qed.

End Strip.

Lemma strip_by_Forall (p : N -> bool) (P : N -> Prop) (s : pystr) :
  Forall P s -> Forall P (strip_by p s).
Proof.
  rewrite !Forall_forall; intros H c Hc; apply H.
  eapply strip_by_In; eassumption.
Qed.

(** *** Replacing the forbidden characters *)

Lemma replace_chars (chars : pystr) (u : N) (s : pystr) :
  one_of chars u = false ->
  fold_left (fun acc ch => replace_char ch u acc) chars s
  = map (fun c => if one_of chars c then u else c) s.
Proof.
  revert s; induction chars as [|ch t IH]; intros s Hu.
  - cbn. now rewrite map_id.
  - unfold one_of in Hu; cbn in Hu; apply orb_false_iff in Hu.
    destruct Hu as [Hu1 Hu2].
    cbn [fold_left]; rewrite (IH _ Hu2); unfold replace_char.
    rewrite map_map; apply map_ext; intros c.
    unfold one_of; cbn [existsb].
    destruct (N.eqb c ch) eqn:E; cbn; [|reflexivity].
    now rewrite Hu2.
Qed.

(** X17. [sanitize_folder_name] always gives a usable folder name: it is
    not empty, holds none of the nine forbidden characters (so no path
    separator), and neither begins nor ends with a dot or a space. *)
Theorem sanitize_folder_name_safe (city_name : name_arg) :
  let r := sanitize_folder_name city_name in
  r <> [] /\
  (forall c, In c r -> ~ In c invalid_chars) /\
  (forall c t, r = c :: t -> c <> dot /\ c <> space) /\
  (forall c t, r = t ++ [c] -> c <> dot /\ c <> space).
Proof.
  assert (unknown_city <> [] /\
          (forall c, In c unknown_city -> ~ In c invalid_chars) /\
          (forall c t, unknown_city = c :: t -> c <> dot /\ c <> space) /\
          (forall c t, unknown_city = t ++ [c] -> c <> dot /\ c <> space)) as Hu.
  { split; [discriminate|]; split; [|split].
    - intros c Hc Hi.
      assert (forallb (fun c => negb (one_of invalid_chars c)) unknown_city = true)
        as Hall by reflexivity.
      rewrite forallb_forall in Hall; specialize (Hall c Hc).
      apply negb_true_iff in Hall.
      assert (one_of invalid_chars c = true); [|congruence].
      apply existsb_exists; exists c; split; [assumption|apply N.eqb_refl].
    - intros c t E; injection E as <- _; split; discriminate.
    - intros c t E.
      apply (f_equal (@rev N)) in E; rewrite rev_app_distr in E.
      cbn in E; injection E as <- _; split; discriminate. }
  cbv zeta; destruct city_name as [s|]; [|exact Hu].
  unfold sanitize_folder_name.
  destruct (strip s) as [|c0 t0] eqn:Es; [exact Hu|].
  rewrite replace_chars by reflexivity.
  set (m := map _ (c0 :: t0)).
  destruct (strip_chars [dot; space] m) as [|c1 t1] eqn:Em; [exact Hu|].
  split; [discriminate|]; split; [|split].
  - intros c Hc Hi. rewrite <- Em in Hc.
    apply strip_by_In in Hc. unfold m in Hc.
    apply in_map_iff in Hc; destruct Hc as (x & Hx & _).
    assert (one_of invalid_chars c = true) as Hone
        by (apply existsb_exists; exists c; split; [assumption|apply N.eqb_refl]).
    destruct (one_of invalid_chars x) eqn:Ex; subst c; [discriminate|congruence].
  - intros c t E; rewrite <- Em in E.
    apply strip_by_head in E; unfold one_of in E; cbn in E.
    apply orb_false_iff in E; destruct E as [E1 E2].
    apply orb_false_iff in E2; destruct E2 as [E2 _].
    apply N.eqb_neq in E1, E2; auto.
  - intros c t E; rewrite <- Em in E.
    apply strip_by_last in E; unfold one_of in E; cbn in E.
    apply orb_false_iff in E; destruct E as [E1 E2].
    apply orb_false_iff in E2; destruct E2 as [E2 _].
    apply N.eqb_neq in E1, E2; auto.
Qed.

(** X18. A name that is already clean (not empty, none of the forbidden
    characters, no white space and no dot at either end) is its own folder
    name. *)
Theorem sanitize_folder_name_keeps_clean (s : pystr) (a b : N) :
  hd_error s = Some a -> hd_error (rev s) = Some b ->
  is_space a = false -> a <> dot ->
  is_space b = false -> b <> dot ->
  (forall c, In c s -> ~ In c invalid_chars) ->
  sanitize_folder_name (NameStr s) = s.
Proof.
  intros Ha Hb Hsa Hda Hsb Hdb Hclean.
  assert (one_of [dot; space] a = false /\ one_of [dot; space] b = false) as [Hoa Hob].
  { unfold one_of; cbn; split; rewrite !orb_false_r; apply orb_false_iff; split;
      apply N.eqb_neq; try assumption; intros ->; discriminate. }
  unfold sanitize_folder_name, strip.
  rewrite (strip_by_keep is_space s a b Ha Hsa Hb Hsb).
  destruct s as [|x t] eqn:Es; [discriminate|]; rewrite <- Es in *.
  rewrite replace_chars by reflexivity.
  assert (map (fun c => if one_of invalid_chars c then underscore else c) s = s) as ->.
  { rewrite <- (map_id s) at 2. apply map_ext_in; intros c Hc.
    destruct (one_of invalid_chars c) eqn:E; [|reflexivity].
    apply existsb_exists in E; destruct E as (y & Hy & Hcy).
    apply N.eqb_eq in Hcy; subst y. now apply Hclean in Hc. }
  unfold strip_chars.
  rewrite (strip_by_keep _ s a b Ha Hoa Hb Hob).
  now rewrite Es.
Qed.

(** X19. A null name, a name of white space only, and a name of dots and
    spaces only all fall back to the folder name unknown_city. *)
Theorem sanitize_folder_name_fallback :
  sanitize_folder_name NameNull = unknown_city /\
  (forall s, (forall c, In c s -> is_space c = true) ->
             sanitize_folder_name (NameStr s) = unknown_city) /\
  (forall s, (forall c, In c s -> c = dot \/ c = space) ->
             sanitize_folder_name (NameStr s) = unknown_city).
Proof.
  split; [reflexivity|]; split.
  - intros s Hs; unfold sanitize_folder_name, strip.
    rewrite strip_by_all; [reflexivity|].
    now apply forallb_forall.
  - intros s Hs; unfold sanitize_folder_name.
    destruct (strip s) as [|c0 t0] eqn:Es; [reflexivity|].
    rewrite replace_chars by reflexivity.
    unfold strip_chars; rewrite strip_by_all; [reflexivity|].
    apply forallb_forall; intros c Hc.
    apply in_map_iff in Hc; destruct Hc as (x & <- & Hx).
    rewrite <- Es in Hx; apply strip_by_In in Hx.
    destruct (Hs x Hx) as [-> | ->]; reflexivity.
Qed.

End NamesFacts.

Module PinyinFacts.

Import Names NamesFacts.

(** Turns boolean tests on code points into arithmetic. *)
Ltac code_points :=
  unfold english_char, separator, file_char, basic_char, is_underscore,
    is_ascii_letter, is_lower_letter, is_digit, is_space, ascii_lower,
    underscore, hyphen, dot, space in *;
  repeat match goal with
    | |- context [if ?b then _ else _] => destruct b eqn:?
    | H : context [if ?b then _ else _] |- _ => destruct b eqn:?
    end;
  repeat (rewrite ?orb_true_iff, ?orb_false_iff, ?andb_true_iff, ?andb_false_iff,
           ?N.leb_le, ?N.leb_gt, ?N.eqb_eq, ?N.eqb_neq,
           ?negb_true_iff, ?negb_false_iff in *);
  try lia.

Lemma lower_letter (c : N) :
  is_ascii_letter c = true -> is_lower_letter (ascii_lower c) = true.
Proof. intros H; code_points. Qed.

Lemma lower_letter_not_separator (c : N) :
  is_ascii_letter c = true -> separator (ascii_lower c) = false.
Proof. intros H; code_points. Qed.

Lemma lower_separator (c : N) : separator c = true -> ascii_lower c = c.
Proof. intros H; code_points. Qed.

Lemma lower_digit (c : N) : is_digit c = true -> ascii_lower c = c.
Proof. intros H; code_points. Qed.

Lemma lower_space (c : N) : is_space c = true -> ascii_lower c = c.
Proof. intros H; code_points. Qed.

Lemma english_known (c : N) :
  english_char c = true -> (c < 128)%N \/ is_space c = true.
Proof.
  intros H; destruct (is_space c) eqn:E; [now right|left].
  code_points.
Qed.

Lemma english_cases (c : N) :
  english_char c = true -> is_ascii_letter c = true \/ separator c = true.
Proof.
  unfold english_char, separator; intros H.
  destruct (is_ascii_letter c); [now left|right; exact H].
Qed.

Lemma letter_not_separator (c : N) :
  is_ascii_letter c = true -> separator c = false.
Proof. intros H; code_points. Qed.

(** *** Runs *)

(** No two underscores side by side. *)
Definition single_underscores (s : pystr) : Prop :=
  Sorted (fun a b => a <> underscore \/ b <> underscore) s.

Section Runs.

Variable p : N -> bool.

Lemma sub_runs_from_In (b : bool) (s : pystr) (c : N) :
  In c (sub_runs_from p [underscore] b s) ->
  c = underscore \/ (In c s /\ p c = false).
Proof.
  revert b; induction s as [|x t IH]; intros b; cbn; [intros []|].
  destruct (p x) eqn:E.
  - rewrite in_app_iff; intros [H|H].
    + destruct b; [destruct H|]. destruct H as [<-|[]]; now left.
    + destruct (IH _ H) as [|[? ?]]; auto.
  - intros [<-|H]; [auto|].
    destruct (IH _ H) as [|[? ?]]; auto.
Qed.

Lemma sub_runs_from_single (b : bool) (s : pystr) :
  p underscore = true ->
  single_underscores (sub_runs_from p [underscore] b s) /\
  (b = true -> forall c t, sub_runs_from p [underscore] b s = c :: t ->
                           c <> underscore).
Proof.
  intros Hu; unfold single_underscores.
  revert b; induction s as [|x t IH]; intros b; cbn.
  - split; [constructor|discriminate].
  - destruct (p x) eqn:E.
    + destruct (IH true) as [IH1 IH2].
      destruct b; cbn; [split; [assumption|intros _; now apply IH2]|].
      split; [|discriminate].
      constructor; [assumption|].
      destruct (sub_runs_from p [underscore] true t) as [|y u] eqn:Ey;
        constructor.
      right; eapply IH2; reflexivity.
    + destruct (IH false) as [IH1 _].
      assert (x <> underscore) as Hx by (intros ->; congruence).
      split; [|intros _ c u H; now injection H as <- _].
      constructor; [assumption|].
      destruct (sub_runs_from p [underscore] false t); constructor; now left.
Qed.

Lemma sub_runs_from_filter (b : bool) (s : pystr) :
  (forall c, In c s -> p c = false -> c <> underscore) ->
  filter (fun c => negb (c =? underscore)%N) (sub_runs_from p [underscore] b s)
  = filter (fun c => negb (p c)) s.
Proof.
  revert b; induction s as [|x t IH]; intros b H; cbn; [reflexivity|].
  assert (forall c, In c t -> p c = false -> c <> underscore) as Ht
      by (intros; apply H; [now right|assumption]).
  destruct (p x) eqn:E; cbn.
  - rewrite filter_app, (IH true Ht). now destruct b.
  - assert ((x =? underscore)%N = false) as ->
        by (apply N.eqb_neq, H; [now left|assumption]).
    cbn; now rewrite (IH false Ht).
Qed.

Lemma sub_runs_from_all (s : pystr) :
  forallb p s = true -> sub_runs_from p [underscore] true s = [].
Proof.
  induction s as [|x t IH]; cbn; [reflexivity|].
  destruct (p x); cbn; [assumption|discriminate].
Qed.

End Runs.

Lemma sub_each_In (p : N -> bool) (s : pystr) (c : N) :
  In c (sub_each p [underscore] s) -> c = underscore \/ (In c s /\ p c = false).
Proof.
  unfold sub_each; rewrite in_flat_map; intros (x & Hx & Hc).
  destruct (p x) eqn:E; destruct Hc as [<-|[]]; auto.
Qed.

Lemma Sorted_app_l {A} (R : A -> A -> Prop) (l1 l2 : list A) :
  Sorted R (l1 ++ l2) -> Sorted R l1.
Proof.
  induction l1 as [|x t IH]; cbn; intros H; [constructor|].
  inversion H as [|? ? Ht Hx]; subst.
  constructor; [now apply IH|].
  destruct t; [constructor|]. inversion Hx; now constructor.
Qed.

Lemma Sorted_app_r {A} (R : A -> A -> Prop) (l1 l2 : list A) :
  Sorted R (l1 ++ l2) -> Sorted R l2.
Proof.
  induction l1 as [|x t IH]; cbn; intros H; [assumption|].
  inversion H; subst; now apply IH.
Qed.

Lemma strip_by_single (p : N -> bool) (s : pystr) :
  single_underscores s -> single_underscores (strip_by p s).
Proof.
  unfold single_underscores; intros H.
  destruct (strip_by_split p s) as (pre & post & E).
  rewrite E in H.
  apply Sorted_app_r in H. now apply Sorted_app_l in H.
Qed.

(** A file name: characters a-z, 0-9 and underscore, with no underscore
    in front, at the end, or next to another one. *)
Definition tidy (r : pystr) : Prop :=
  (forall c, In c r -> file_char c = true) /\
  (forall c t, r = c :: t -> c <> underscore) /\
  (forall c t, r = t ++ [c] -> c <> underscore) /\
  single_underscores r.

Lemma one_of_underscore (c : N) : one_of [underscore] c = false -> c <> underscore.
Proof.
  unfold one_of; cbn; rewrite orb_false_r; now apply N.eqb_neq.
Qed.

(** The last two steps of every branch: collapse the runs of underscores,
    strip the underscores at both ends. *)
Lemma finish_tidy (p : N -> bool) (x : pystr) :
  p underscore = true ->
  (forall c, In c x -> p c = false -> file_char c = true) ->
  tidy (strip_chars [underscore] (sub_runs p [underscore] x)).
Proof.
  intros Hu Hx; unfold strip_chars, sub_runs; repeat split.
  - intros c Hc; apply strip_by_In, sub_runs_from_In in Hc.
    destruct Hc as [->|[Hc Hp]]; [reflexivity|now apply Hx].
  - intros c t E; apply strip_by_head in E; now apply one_of_underscore.
  - intros c t E; apply strip_by_last in E; now apply one_of_underscore.
  - apply strip_by_single, sub_runs_from_single, Hu.
Qed.

Lemma unknown_city_tidy : tidy unknown_city.
Proof.
  repeat split.
  - intros c Hc.
    assert (forallb file_char unknown_city = true) as H by reflexivity.
    rewrite forallb_forall in H; now apply H.
  - intros c t E; injection E as <- _; discriminate.
  - intros c t E. apply (f_equal (@rev N)) in E; rewrite rev_app_distr in E.
    cbn in E; injection E as <- _; discriminate.
  - unfold single_underscores; cbn.
    repeat (constructor; try (left; discriminate); try (right; discriminate)).
Qed.

Section PinyinProps.

Context {unicode : Unicode} {pypinyin : Pypinyin}.

(** X20. Whatever the branch taken (plain English name, pypinyin, or the
    fallback without pypinyin), a name [city_name_to_pinyin] returns is made
    of the characters a-z, 0-9 and underscore only, with no underscore in
    front, at the end, or doubled. *)
Theorem city_name_to_pinyin_tidy (city_name : name_arg) (r : pystr) :
  city_name_to_pinyin city_name = Returned r -> tidy r.
Proof.
  unfold city_name_to_pinyin.
  destruct city_name as [s|];
    [|intros E; injection E as <-; apply unknown_city_tidy].
  destruct (strip s) as [|c0 t0] eqn:Es;
    [intros E; injection E as <-; apply unknown_city_tidy|].
  set (city := c0 :: t0).
  destruct (forallb english_char city) eqn:Eeng.
  - intros E; injection E as <-.
    rewrite forallb_forall in Eeng.
    rewrite lower_ascii
      by (apply Forall_forall; intros c Hc; now apply english_known, Eeng).
    apply finish_tidy; [reflexivity|].
    intros c Hc _; apply sub_runs_from_In in Hc.
    destruct Hc as [->|[Hc Hsep]]; [reflexivity|].
    apply in_map_iff in Hc; destruct Hc as (x & <- & Hx).
    destruct (english_cases x (Eeng x Hx)) as [Hl|Hs].
    + unfold file_char; now rewrite (lower_letter x Hl).
    + rewrite (lower_separator x Hs) in Hsep; congruence.
  - destruct installed.
    + destruct (lazy_pinyin city) as [l|]; cbn; [|discriminate].
      intros E; injection E as <-.
      apply finish_tidy; [reflexivity|].
      intros c Hc _; apply sub_each_In in Hc.
      destruct Hc as [->|[_ Hc]]; [reflexivity|].
      now apply negb_false_iff in Hc.
    + set (x := sub_each (fun c => negb (basic_char c)) [underscore] city).
      assert (forall c, In c x -> c = underscore \/ basic_char c = true) as Hx.
      { intros c Hc; apply sub_each_In in Hc.
        destruct Hc as [->|[_ Hc]]; [now left|right; now apply negb_false_iff in Hc]. }
      assert (tidy (strip_chars [underscore]
                      (sub_runs (fun c => is_space c || is_underscore c)
                                [underscore] (lower x)))) as Ht.
      { rewrite lower_ascii.
        - apply finish_tidy; [reflexivity|].
          intros c Hc Hp; apply in_map_iff in Hc; destruct Hc as (y & <- & Hy).
          apply orb_false_iff in Hp; destruct Hp as [Hsp Hun].
          destruct (Hx y Hy) as [->|Hb]; [discriminate|].
          unfold basic_char in Hb.
          destruct (is_ascii_letter y) eqn:El.
          + unfold file_char; now rewrite (lower_letter y El).
          + destruct (is_digit y) eqn:Ed.
            * rewrite (lower_digit y Ed). unfold file_char; rewrite Ed.
              now rewrite orb_true_r.
            * cbn in Hb. rewrite (lower_space y Hb) in Hsp; congruence.
        - apply Forall_forall; intros c Hc.
          destruct (Hx c Hc) as [->|Hb]; [left; reflexivity|].
          destruct (is_space c) eqn:E; [now right|left].
          clear -Hb E; code_points. }
      destruct (strip_chars [underscore] _) as [|c1 t1];
        intros E; injection E as <-; [apply unknown_city_tidy|exact Ht].
Qed.

Lemma strip_by_filter (p q : N -> bool) (s : pystr) :
  (forall c, p c = true -> q c = false) ->
  filter q (strip_by p s) = filter q s.
Proof.
  intros Hpq; unfold strip_by.
  destruct (lstrip_by_split p s) as (pre & E1 & F1).
  destruct (rstrip_by_split p (lstrip_by p s)) as (post & E2 & F2).
  rewrite E1 at 2. rewrite E2 at 2.
  rewrite !filter_app.
  rewrite (filter_all_false q pre), (filter_all_false q post).
  - now rewrite app_nil_r.
  - rewrite forallb_forall in F2; intros; now apply Hpq, F2.
  - rewrite forallb_forall in F1; intros; now apply Hpq, F1.
Qed.

(** X21. A name made of separators only (white space, hyphens, dots) and
    not blank, such as a lone hyphen, gets the empty file name: this
    branch has no fallback to unknown_city. *)
Theorem city_name_to_pinyin_may_be_empty (s : pystr) :
  strip s <> [] -> (forall c, In c s -> separator c = true) ->
  city_name_to_pinyin (NameStr s) = Returned [].
Proof.
  intros Hne Hsep; unfold city_name_to_pinyin.
  destruct (strip s) as [|c0 t0] eqn:Es; [congruence|].
  set (city := c0 :: t0).
  assert (forall c, In c city -> separator c = true) as Hcity.
  { intros c Hc; apply Hsep. unfold city in Hc; rewrite <- Es in Hc.
    eapply strip_by_In; exact Hc. }
  assert (forallb english_char city = true) as ->.
  { apply forallb_forall; intros c Hc. specialize (Hcity c Hc).
    unfold english_char, separator in *.
    destruct (is_ascii_letter c); [reflexivity|exact Hcity]. }
  assert (Forall (fun c => (c < 128)%N \/ is_space c = true) city) as Hknown.
  { apply Forall_forall; intros c Hc; apply english_known.
    specialize (Hcity c Hc); unfold english_char, separator in *.
    destruct (is_ascii_letter c); [reflexivity|exact Hcity]. }
  rewrite (lower_ascii city Hknown).
  assert (map ascii_lower city = city) as ->.
  { rewrite <- (map_id city) at 2. apply map_ext_in; intros c Hc.
    now apply lower_separator, Hcity. }
  unfold city at 1, sub_runs; cbn [sub_runs_from].
  rewrite (Hcity c0 (or_introl eq_refl)).
  rewrite sub_runs_from_all; [reflexivity|].
  apply forallb_forall; intros c Hc; apply Hcity; now right.
Qed.

(** X22. On a plain English name (letters, white space, hyphens and dots)
    the letters of the name come through in order, lower-cased, and
    nothing else but underscores is put between them. *)
Theorem city_name_to_pinyin_keeps_letters (s : pystr) :
  strip s <> [] -> (forall c, In c (strip s) -> english_char c = true) ->
  exists r,
    city_name_to_pinyin (NameStr s) = Returned r /\
    filter (fun c => negb (c =? underscore)%N) r
    = map ascii_lower (filter is_ascii_letter s).
Proof.
  intros Hne Heng; unfold city_name_to_pinyin.
  destruct (strip s) as [|c0 t0] eqn:Es; [congruence|].
  set (city := c0 :: t0) in *.
  rewrite (proj2 (forallb_forall english_char city) Heng).
  eexists; split; [reflexivity|].
  rewrite lower_ascii
    by (apply Forall_forall; intros c Hc; now apply english_known, Heng).
  unfold strip_chars.
  rewrite strip_by_filter
    by (intros c Hc; unfold one_of in Hc; cbn in Hc; rewrite orb_false_r in Hc;
        now rewrite Hc).
  unfold sub_runs.
  rewrite (sub_runs_from_filter is_underscore)
    by (intros c _ Hc Hu; subst c; discriminate).
  assert (forall l, filter (fun c => negb (is_underscore c)) l
                    = filter (fun c => negb (c =? underscore)%N) l) as ->
      by reflexivity.
  rewrite (sub_runs_from_filter separator)
    by (intros c Hc _ Hu; subst c;
        apply in_map_iff in Hc; destruct Hc as (x & Hx & Hin);
        specialize (Heng x Hin); clear -Hx Heng; code_points).
  rewrite filter_map_swap. f_equal.
  assert (filter is_ascii_letter s = filter is_ascii_letter city) as ->.
  { subst city; rewrite <- Es. unfold strip. symmetry; apply strip_by_filter.
    intros c Hc; clear -Hc; code_points. }
  apply filter_ext_in; intros c Hc.
  destruct (english_cases c (Heng c Hc)) as [Hl|Hsp].
  - now rewrite Hl, (lower_letter_not_separator c Hl).
  - rewrite (lower_separator c Hsp), Hsp.
    destruct (is_ascii_letter c) eqn:El; [|reflexivity].
    rewrite (letter_not_separator c El) in Hsp; discriminate.
Qed.

End PinyinProps.

End PinyinFacts.

(* ------------------------------------------------------------------ *)
(** ** A second small world *)

Module Trial.

Import Names.

(** A route along the x axis onto which the points left of the origin do
    not project. *)
Definition one_sided {floats : Floats} : Shapely := {|
  line_project := fun line point =>
    if Qlt_le_dec (fst point) 0 then None else Some (fst point);
  substring := @substring _ Demo.straight_line;
  geom_length := @geom_length _ Demo.straight_line;
  mercator_length := @mercator_length _ Demo.straight_line
|}.

(** Three stops of route r1, the second of them off the route. *)
Definition stops_gap : StopsFrame :=
  {| has_sequence := false;
     frame_rows := [Demo.stop "r1" "a" 1 0; Demo.stop "r1" "b" 2 (-1);
                    Demo.stop "r1" "c" 3 5] |}.

(** A stop of another city that carries the id of route r1. *)
Definition foreign_stop : StopRow :=
  {| st_route_id := PStr "r1";
     st_stop_id := Some (PStr "q");
     st_name_cn := Some (PStr "q");
     st_name_en := Some (PStr "q");
     st_city_cn := Some (PStr "Y");
     st_city_en := Some (PStr "y");
     st_sequence := PInt 2;
     st_geometry := (7%Q, 0%Q) |}.

Definition foreign_route : RouteRow :=
  {| rt_route_id := PStr "r9";
     rt_route_cn := Some (PStr "line 9");
     rt_city_cn := Some (PStr "Y");
     rt_city_en := Some (PStr "y");
     rt_geometry := Some [(0%Q, 0%Q); (9%Q, 0%Q)] |}.

Definition two_city_routes : RoutesFrame :=
  {| routes_has_city_en := true;
     route_rows := [foreign_route; Demo.route1] |}.

Definition two_city_stops : StopsTable :=
  {| stops_has_city_en := true;
     stops_frame :=
       {| has_sequence := true;
          frame_rows := foreign_stop :: frame_rows Demo.stops_a |} |}.

(** A second route of city x, over the same street. *)
Definition route2 : RouteRow :=
  {| rt_route_id := PStr "r2";
     rt_route_cn := Some (PStr "line 2");
     rt_city_cn := Some (PStr "X");
     rt_city_en := Some (PStr "x");
     rt_geometry := Some [(0%Q, 0%Q); (12%Q, 0%Q)] |}.

Definition one_city_routes : RoutesFrame :=
  {| routes_has_city_en := true;
     route_rows := [route2; Demo.route1] |}.

(** The stops of the two routes; those of route r2 are numbered with a
    string and with a number. *)
Definition one_city_stops : StopsTable :=
  {| stops_has_city_en := true;
     stops_frame :=
       {| has_sequence := true;
          frame_rows :=
            [Demo.stop "r1" "a" 1 0; Demo.stop_numbered "r2" "p" (PStr "1") 1;
             Demo.stop "r1" "b" 2 5; Demo.stop "r2" "q" 2 4] |} |}.

(** A stop whose only row has an empty route id, and a stop on a route. *)
Definition unrouted_stops : StopsFrame :=
  {| has_sequence := false;
     frame_rows := [Demo.occurrence "s" EmptyString "X"; Demo.occurrence "t" "r1" "X"] |}.

(** A [lower] that knows the ASCII letters only. *)
Definition ascii_only : Unicode := {|
  lower := map ascii_lower;
  lower_ascii := fun s _ => eq_refl
|}.

(** A pypinyin that reads every name as "bei jing". *)
Definition toy_pinyin : Pypinyin := {|
  installed := true;
  lazy_pinyin := fun _ => Some [lit "bei"; lit "jing"]
|}.

End Trial.

Lemma segment_count_is_survivors_less_one_witness :
  exists segs,
    @create_segments_from_route Binary64.arithmetic Trial.one_sided Demo.by_sequence
      Demo.route1 Trial.stops_gap = Returned segs /\
    List.length segs = 1.
Proof.
  destruct (@segment_count_is_survivors_less_one Binary64.arithmetic
              Trial.one_sided Demo.by_sequence
              Demo.route1 Trial.stops_gap (frame_rows Trial.stops_gap)
              [(0%Q, 0%Q); (12%Q, 0%Q)])
    as (segs & Hsegs & Hlen); try reflexivity.
  - vm_compute; lia.
  - exists segs; split; [assumption|]. rewrite Hlen; reflexivity.
Defined.

Lemma segment_provenance_witness :
  exists a b,
    In a (stops_of_route (PStr "r1") Demo.stops_a) /\
    In b (stops_of_route (PStr "r1") Demo.stops_a) /\
    (st_stop_id a, st_stop_id b) = (Some (PStr "a"), Some (PStr "b")) /\
    city_en (@Demo.leg Binary64.arithmetic "a" "b" 0 5) = "x".
Proof.
  destruct (@segment_provenance Binary64.arithmetic Demo.straight_line Demo.by_sequence
              Demo.route1 Demo.stops_a Demo.segments_a (Demo.leg "a" "b" 0 5))
    as (g & a & b & pa & pb & _ & Ha & Hb & _ & _ & _ & Hs & He & _ & Hc & _).
  - reflexivity.
  - left; reflexivity.
  - exists a, b; repeat split; try assumption.
    vm_compute in Ha, Hb.
    destruct Ha as [<-|[<-|[<-|[]]]]; try discriminate Hs;
      destruct Hb as [<-|[<-|[<-|[]]]]; try discriminate He; reflexivity.
Defined.

Lemma segment_distance_of_geometry_witness :
  @calculate_segment_distance Binary64.arithmetic Demo.straight_line
    [(0%Q, 0%Q); (5%Q, 0%Q)]
  = Returned (Binary64.of_Q 5).
Proof.
  destruct (@segment_distance_of_geometry Binary64.arithmetic
              Demo.straight_line Demo.by_sequence
              Demo.route1 Demo.stops_a Demo.segments_a (Demo.leg "a" "b" 0 5))
    as [Hd _].
  - reflexivity.
  - left; reflexivity.
  - exact Hd.
Defined.

Lemma process_city_segments_by_route_witness :
  @process_city_segments Binary64.arithmetic Demo.straight_line Demo.by_sequence
    (PStr "x") Trial.one_city_routes Trial.one_city_stops
  = Returned ([Demo.leg "a" "b" 0 5],
              CityStopsFrame (stops_of_city (PStr "x") Trial.one_city_stops)) /\
  @create_segments_from_route Binary64.arithmetic Demo.straight_line Demo.by_sequence
    Trial.route2 (stops_of_city (PStr "x") Trial.one_city_stops) = Raised.
Proof.
  destruct (@process_city_segments_by_route Binary64.arithmetic
              Demo.straight_line Demo.by_sequence
              (PStr "x") Trial.one_city_routes Trial.one_city_stops)
    as [Hall Hskip]; try reflexivity.
  - vm_compute; discriminate.
  - split; [exact Hall|].
    apply (Hskip Trial.route2); [left|]; reflexivity.
Defined.

Lemma city_isolation_witness :
  exists route a b,
    In route (route_rows Trial.two_city_routes) /\
    cell_eq (rt_city_en route) (PStr "x") = true /\
    cell_eq (st_city_en a) (PStr "x") = true /\
    cell_eq (st_city_en b) (PStr "x") = true /\
    s_stopid (@Demo.leg Binary64.arithmetic "a" "b" 0 5) = get_str (st_stop_id a) /\
    e_stopid (@Demo.leg Binary64.arithmetic "a" "b" 0 5) = get_str (st_stop_id b).
Proof.
  destruct (@city_isolation Binary64.arithmetic Demo.straight_line Demo.by_sequence
              (PStr "x") Trial.two_city_routes Trial.two_city_stops
              Demo.segments_a (CityStopsFrame (stops_of_city (PStr "x") Trial.two_city_stops))
              (Demo.leg "a" "b" 0 5))
    as (route & a & b & Hr & Hrc & _ & Hac & _ & _ & Hbc & _ & Hs & He & _).
  - reflexivity.
  - left; reflexivity.
  - exists route, a, b; repeat split; assumption.
Defined.

Lemma aggregate_again_witness :
  exists out,
    @aggregate_segments Binary64.arithmetic Demo.encounter_order Demo.three_routes
    = Returned out /\
    @aggregate_segments Binary64.arithmetic Demo.encounter_order (map agg_segment out)
    = Returned (map (fun a => {| agg_segment := agg_segment a; num := 1 |}) out).
Proof.
  destruct (@aggregate_again Binary64.arithmetic Demo.encounter_order Demo.three_routes)
    as (out & Hout & _ & Hsame).
  exists out; split; [assumption|]. apply Hsame.
  change (Returned [ {| agg_segment := Demo.segment "a" "b" (13 # 10) "X"; num := 3 |} ]
          = Returned out) in Hout.
  injection Hout as <-.
  intros a [<-|[]]; reflexivity.
Defined.

Lemma unique_stop_without_routes_witness :
  exists u,
    @create_unique_stops Demo.encounter_order Trial.unrouted_stops
    = Returned [u; {| us_stop_cn := "t"; us_stop_en := "t"; us_stop_id := "t";
                      us_num := 1; us_city_cn := "X"; us_city_en := "x";
                      us_geometry := (0%Q, 0%Q) |}] /\
    us_stop_id u = "s" /\ us_num u = 0 /\ us_city_cn u = EmptyString.
Proof.
  destruct (@unique_stop_without_routes Demo.encounter_order Trial.unrouted_stops)
    as (out & Hout & Hlisted & _).
  destruct (Hlisted (Demo.occurrence "s" EmptyString "X"))
    as (u & Hu & Hid & Hnum & Hcity).
  - left; reflexivity.
  - discriminate.
  - intros r Hr; vm_compute in Hr. destruct Hr as [<-|[]]; reflexivity.
  - exists u; repeat split; try assumption.
    injection Hout as <-.
    destruct Hu as [<-|[<-|[]]]; [reflexivity|discriminate Hid].
Defined.

Lemma sanitize_folder_name_keeps_clean_witness :
  Names.sanitize_folder_name (Names.NameStr (Names.lit "New York"))
  = Names.lit "New York".
Proof.
  apply (NamesFacts.sanitize_folder_name_keeps_clean
           (Names.lit "New York") 78%N 107%N); try reflexivity; try discriminate.
  intros c Hc Hi.
  assert (forallb (fun c => negb (Names.one_of Names.invalid_chars c))
                  (Names.lit "New York") = true) as Hall by reflexivity.
  rewrite forallb_forall in Hall; specialize (Hall c Hc).
  apply negb_true_iff in Hall.
  assert (Names.one_of Names.invalid_chars c = true); [|congruence].
  apply existsb_exists; exists c; split; [assumption|apply N.eqb_refl].
Defined.

Lemma city_name_to_pinyin_tidy_witness :
  @Names.city_name_to_pinyin Trial.ascii_only Trial.toy_pinyin
    (Names.NameStr [21271; 20140]%N) = Returned (Names.lit "bei_jing") /\
  PinyinFacts.tidy (Names.lit "bei_jing").
Proof.
  split; [reflexivity|].
  apply (@PinyinFacts.city_name_to_pinyin_tidy Trial.ascii_only Trial.toy_pinyin
           (Names.NameStr [21271; 20140]%N)).
  reflexivity.
Defined.

Lemma city_name_to_pinyin_may_be_empty_witness :
  @Names.city_name_to_pinyin Trial.ascii_only Trial.toy_pinyin
    (Names.NameStr (Names.lit "-")) = Returned [].
Proof.
  apply PinyinFacts.city_name_to_pinyin_may_be_empty.
  - vm_compute; discriminate.
  - intros c [<-|[]]; reflexivity.
Defined.

Lemma city_name_to_pinyin_keeps_letters_witness :
  exists r,
    @Names.city_name_to_pinyin Trial.ascii_only Trial.toy_pinyin
      (Names.NameStr (Names.lit "New York")) = Returned r /\
    filter (fun c => negb (c =? Names.underscore)%N) r = Names.lit "newyork".
Proof.
  apply (@PinyinFacts.city_name_to_pinyin_keeps_letters
           Trial.ascii_only Trial.toy_pinyin (Names.lit "New York")).
  - vm_compute; discriminate.
  - intros c Hc.
    assert (forallb Names.english_char (Names.strip (Names.lit "New York")) = true)
      as Hall by reflexivity.
    rewrite forallb_forall in Hall; now apply Hall.
Defined.

(* ------------------------------------------------------------------ *)
(** ** The list of cities and the whole pipeline *)

(** From here on the strings of the frames are read as UTF-8: this is how
    their characters are got at. *)
Fixpoint decode_bytes (l : list N) : Names.pystr :=
  match l with
  | [] => []
  | b0 :: r0 =>
      if (b0 <? 128)%N then b0 :: decode_bytes r0
      else if (b0 <? 224)%N then
        match r0 with
        | b1 :: r1 => ((b0 - 192) * 64 + (b1 - 128))%N :: decode_bytes r1
        | [] => [65533%N]
        end
      else if (b0 <? 240)%N then
        match r0 with
        | b1 :: b2 :: r2 =>
            ((b0 - 224) * 4096 + (b1 - 128) * 64 + (b2 - 128))%N
              :: decode_bytes r2
        | _ => [65533%N]
        end
      else
        match r0 with
        | b1 :: b2 :: b3 :: r3 =>
            ((b0 - 240) * 262144 + (b1 - 128) * 4096 + (b2 - 128) * 64
             + (b3 - 128))%N :: decode_bytes r3
        | _ => [65533%N]
        end
  end.

Definition code_points_of (s : string) : Names.pystr :=
  decode_bytes (map N_of_ascii (list_ascii_of_string s)).

(** A cell as an argument of the naming functions. *)
Definition name_of (v : pyval) : Names.name_arg :=
  match v with
  | PNone | PNaN => Names.NameNull
  | _ => Names.NameStr (code_points_of (py_str v))
  end.

(** [pd.notna]. *)
Definition notna (v : pyval) : bool :=
  match v with
  | PNone | PNaN => false
  | _ => true
  end.

(** Equality of the members of a set of cell values. *)
Definition pyval_eqb (a b : pyval) : bool :=
  match a, b with
  | PStr s, PStr t => String.eqb s t
  | PInt x, PInt y => Z.eqb x y
  | PNone, PNone => true
  | PNaN, PNaN => true
  | _, _ => false
  end.

(** [if city]. *)
Definition truthy_value (v : pyval) : bool :=
  match v with
  | PStr s => truthy s
  | PInt z => negb (Z.eqb z 0)
  | PNone => false
  | PNaN => true
  end.

(** [a < b]: between a string and a number it raises [TypeError]. *)
Definition py_lt (a b : pyval) : option bool :=
  match a, b with
  | PStr s, PStr t => Some (String.ltb s t)
  | PInt x, PInt y => Some (Z.ltb x y)
  | _, _ => None
  end.

(** [sorted(l)]. *)
Fixpoint insert_sorted (x : pyval) (l : list pyval) : outcome (list pyval) :=
  match l with
  | [] => Returned [x]
  | y :: t =>
      match py_lt y x with
      | None => Raised
      | Some true => r <- insert_sorted x t ;; Returned (y :: r)
      | Some false => Returned (x :: y :: t)
      end
  end.

Fixpoint py_sorted (l : list pyval) : outcome (list pyval) :=
  match l with
  | [] => Returned []
  | x :: t => r <- py_sorted t ;; insert_sorted x r
  end.

(** The order in which [list(s)] enumerates a set of cell values. *)
Class ValueSets : Type := {
  iter_values : list pyval -> list pyval;
  iter_values_perm : forall s, Permutation (iter_values s) s
}.

(** [set(frame['city_en'].dropna().unique())], empty without the column. *)
Definition column_cities (has_column : bool) (cells : list (option pyval))
  : list pyval :=
  if has_column then
    first_seen pyval_eqb
      (filter notna
         (flat_map (fun cell => match cell with Some v => [v] | None => [] end)
                   cells))
  else [].

(** The test of the set comprehension:
    [city and str(city).strip() != '']. *)
Definition usable_city (city : pyval) : bool :=
  truthy_value city &&
  match Names.strip (code_points_of (py_str city)) with
  | [] => false
  | _ :: _ => true
  end.

Section Cities.

Context {value_sets : ValueSets}.

(** [get_unique_cities]. *)
Definition get_unique_cities (stops_gdf : StopsTable) (routes_gdf : RoutesFrame)
  : outcome (list pyval) :=
  let stops_cities :=
    column_cities (stops_has_city_en stops_gdf)
                  (map st_city_en (frame_rows (stops_frame stops_gdf))) in
  let routes_cities :=
    column_cities (routes_has_city_en routes_gdf)
                  (map rt_city_en (route_rows routes_gdf)) in
  let all_cities := first_seen pyval_eqb (stops_cities ++ routes_cities) in
  let all_cities := filter usable_city all_cities in
  py_sorted (iter_values all_cities).

End Cities.

(** [self.global_stats]. *)
Record Stats : Type := mkStats {
  total_cities : nat;
  processed_cities : nat;
  failed_cities : nat;
  total_routes : nat;
  total_stops : nat;
  total_segments : nat;
  total_unique_segments : nat;
  total_unique_stops : nat
}.

(** An entry of [city_results]. *)
Record CityResult : Type := mkCityResult {
  cr_city_en : pyval;
  cr_city_pinyin : Names.pystr;
  cr_segments_count : nat;
  cr_stops_count : nat;
  cr_success : bool
}.

(** What touches the disk.  Of the result of [save_city_shapefiles] the
    pipeline reads only whether each of its two entries is [None]: the pair
    says whether the segments entry and the stops entry are set. *)
Class Disk {floats : Floats} (Report : Type) : Type := {
  load_shapefiles : outcome (RoutesFrame * StopsTable);
  save_city_shapefiles :
    pyval -> list AggregatedSegment -> list UniqueStop -> outcome (bool * bool);
  save_global_summary_report : list CityResult -> Stats -> outcome Report
}.

(** The dictionary [process_all_cities] returns. *)
Record PipelineResult (Report : Type) : Type := mkPipelineResult {
  city_results : list CityResult;
  global_stats : Stats;
  report : Report
}.
Arguments mkPipelineResult {Report} _ _ _.
Arguments city_results {Report} _.
Arguments global_stats {Report} _.
Arguments report {Report} _.

Section Pipeline.

Context {floats : Floats} {shapely : Shapely} {pandas : Pandas} {runtime : Runtime}
        {value_sets : ValueSets} {unicode : Names.Unicode}
        {pypinyin : Names.Pypinyin} {Report : Type} {disk : Disk Report}.

Definition record_failure (city_en : pyval) (state : list CityResult * Stats)
  : outcome (list CityResult * Stats) :=
  city_pinyin <- Names.city_name_to_pinyin (name_of city_en) ;;
  let '(results, stats) := state in
  Returned
    (results ++ [ {| cr_city_en := city_en; cr_city_pinyin := city_pinyin;
                     cr_segments_count := 0; cr_stops_count := 0;
                     cr_success := false |} ],
     {| total_cities := total_cities stats;
        processed_cities := processed_cities stats;
        failed_cities := failed_cities stats + 1;
        total_routes := total_routes stats;
        total_stops := total_stops stats;
        total_segments := total_segments stats;
        total_unique_segments := total_unique_segments stats;
        total_unique_stops := total_unique_stops stats |}).

Definition record_success (city_en : pyval) (segments_list : list Segment)
           (aggregated_segments : list AggregatedSegment)
           (unique_stops : list UniqueStop) (state : list CityResult * Stats)
  : outcome (list CityResult * Stats) :=
  city_pinyin <- Names.city_name_to_pinyin (name_of city_en) ;;
  let '(results, stats) := state in
  Returned
    (results ++ [ {| cr_city_en := city_en; cr_city_pinyin := city_pinyin;
                     cr_segments_count := List.length aggregated_segments;
                     cr_stops_count := List.length unique_stops;
                     cr_success := true |} ],
     {| total_cities := total_cities stats;
        processed_cities := processed_cities stats + 1;
        failed_cities := failed_cities stats;
        total_routes := total_routes stats;
        total_stops := total_stops stats;
        total_segments := total_segments stats + List.length segments_list;
        total_unique_segments :=
          total_unique_segments stats + List.length aggregated_segments;
        total_unique_stops :=
          total_unique_stops stats + List.length unique_stops |}).

(** The body of the [try] of one turn of the loop over the cities. *)
Definition process_one_city (routes_gdf : RoutesFrame) (stops_gdf : StopsTable)
           (city_en : pyval) (state : list CityResult * Stats)
  : outcome (list CityResult * Stats) :=
  r <- process_city_segments city_en routes_gdf stops_gdf ;;
  let '(segments_list, city_stops) := r in
  match segments_list with
  | [] => record_failure city_en state
  | _ :: _ =>
      aggregated_segments <- aggregate_segments segments_list ;;
      unique_stops <-
        match city_stops with
        | CityStopsFrame f => create_unique_stops f
        | NoCityStops => Raised
        end ;;
      save_result <- save_city_shapefiles city_en aggregated_segments unique_stops ;;
      if fst save_result || snd save_result
      then record_success city_en segments_list aggregated_segments unique_stops state
      else record_failure city_en state
  end.

(** The loop over the cities: an exception in the body of a turn is caught
    and the city recorded as failed; an exception while recording it leaves
    the loop. *)
Fixpoint run_cities (routes_gdf : RoutesFrame) (stops_gdf : StopsTable)
         (cities : list pyval) (state : list CityResult * Stats)
  : option (list CityResult) * Stats :=
  match cities with
  | [] => (Some (fst state), snd state)
  | city_en :: rest =>
      match try_except (process_one_city routes_gdf stops_gdf city_en state)
                       (record_failure city_en state) with
      | Returned state' => run_cities routes_gdf stops_gdf rest state'
      | Raised => (None, snd state)
      end
  end.

(** [process_all_cities]: the result ([None] on any failure) and the
    counters of the object afterwards. *)
Definition process_all_cities (stats : Stats)
  : option (PipelineResult Report) * Stats :=
  match load_shapefiles with
  | Raised => (None, stats)
  | Returned (routes_gdf, stops_gdf) =>
      let stats :=
        {| total_cities := total_cities stats;
           processed_cities := processed_cities stats;
           failed_cities := failed_cities stats;
           total_routes := List.length (route_rows routes_gdf);
           total_stops := List.length (frame_rows (stops_frame stops_gdf));
           total_segments := total_segments stats;
           total_unique_segments := total_unique_segments stats;
           total_unique_stops := total_unique_stops stats |} in
      match get_unique_cities stops_gdf routes_gdf with
      | Raised => (None, stats)
      | Returned cities =>
          let stats :=
            {| total_cities := List.length cities;
               processed_cities := processed_cities stats;
               failed_cities := failed_cities stats;
               total_routes := total_routes stats;
               total_stops := total_stops stats;
               total_segments := total_segments stats;
               total_unique_segments := total_unique_segments stats;
               total_unique_stops := total_unique_stops stats |} in
          match cities with
          | [] => (None, stats)
          | _ :: _ =>
              match run_cities routes_gdf stops_gdf cities ([], stats) with
              | (None, stats) => (None, stats)
              | (Some results, stats) =>
                  match save_global_summary_report results stats with
                  | Raised => (None, stats)
                  | Returned report =>
                      (Some (mkPipelineResult results stats report), stats)
                  end
              end
          end
      end
  end.

End Pipeline.

(* ------------------------------------------------------------------ *)
(** ** The list of cities *)

Lemma pyval_eqb_spec (a b : pyval) : pyval_eqb a b = true <-> a = b.
Proof.
  destruct a, b; cbn; try (split; [discriminate|congruence]);
    try (split; reflexivity).
  - rewrite String.eqb_eq; split; congruence.
  - rewrite Z.eqb_eq; split; congruence.
Qed.

(** Strictly ascending, for two neighbours of a sorted list. *)
Definition ascending (a b : pyval) : Prop := py_lt a b = Some true.

Lemma py_lt_trichotomy (x y : pyval) :
  py_lt y x = Some false -> x <> y -> py_lt x y = Some true.
Proof.
  destruct x as [s|a| |], y as [t|b| |]; cbn; try discriminate.
  - unfold String.ltb; intros H Hne; f_equal.
    rewrite String.compare_antisym.
    destruct (String.compare t s) eqn:E; cbn; try reflexivity.
    + apply String.compare_eq_iff in E; subst; congruence.
    + discriminate.
  - intros H Hne; injection H as H; f_equal.
    apply Z.ltb_lt. apply Z.ltb_ge in H.
    assert (a <> b) by congruence. lia.
Qed.

Lemma insert_sorted_perm (x : pyval) (l r : list pyval) :
  insert_sorted x l = Returned r -> Permutation r (x :: l).
Proof.
  revert r; induction l as [|y t IH]; intros r; cbn.
  - intros E; injection E as <-; reflexivity.
  - destruct (py_lt y x) as [[|]|]; [| |discriminate].
    + destruct (insert_sorted x t) as [r'|]; cbn; [|discriminate].
      intros E; injection E as <-.
      rewrite (IH r' eq_refl). apply perm_swap.
    + intros E; injection E as <-; reflexivity.
Qed.

Lemma py_sorted_perm (l r : list pyval) :
  py_sorted l = Returned r -> Permutation r l.
Proof.
  revert r; induction l as [|x t IH]; intros r; cbn.
  - intros E; injection E as <-; constructor.
  - destruct (py_sorted t) as [r'|]; cbn; [|discriminate].
    intros E; apply insert_sorted_perm in E.
    rewrite E; constructor; now apply IH.
Qed.

Lemma insert_sorted_hd (a x : pyval) (l r : list pyval) :
  insert_sorted x l = Returned r ->
  ascending a x -> HdRel ascending a l -> HdRel ascending a r.
Proof.
  destruct l as [|y t]; cbn.
  - intros E; injection E as <-; now constructor.
  - intros E Hax Hal; inversion Hal; subst.
    destruct (py_lt y x) as [[|]|]; [| |discriminate].
    + destruct (insert_sorted x t); cbn in E; [|discriminate].
      injection E as <-; now constructor.
    + injection E as <-; now constructor.
Qed.

Lemma insert_sorted_ascending (x : pyval) (l r : list pyval) :
  insert_sorted x l = Returned r ->
  Sorted ascending l -> ~ In x l -> Sorted ascending r.
Proof.
  revert r; induction l as [|y t IH]; intros r; cbn.
  - intros E; injection E as <-; repeat constructor.
  - intros E Hs Hx; inversion Hs as [|? ? Ht Hy]; subst.
    destruct (py_lt y x) as [[|]|] eqn:Elt; [| |discriminate].
    + destruct (insert_sorted x t) as [r'|] eqn:Er; cbn in E; [|discriminate].
      injection E as <-.
      constructor; [apply IH; auto|].
      eapply insert_sorted_hd; eassumption.
    + injection E as <-.
      constructor; [assumption|]. constructor.
      apply py_lt_trichotomy; [assumption|]. intros ->; apply Hx; now left.
Qed.

Lemma py_sorted_ascending (l r : list pyval) :
  py_sorted l = Returned r -> NoDup l -> Sorted ascending r.
Proof.
  revert r; induction l as [|x t IH]; intros r; cbn.
  - intros E; injection E as <-; constructor.
  - destruct (py_sorted t) as [r'|] eqn:Er; cbn; [|discriminate].
    intros E Hnd; inversion Hnd as [|? ? Hx Hnd']; subst.
    eapply insert_sorted_ascending; [eassumption|now apply IH|].
    intros Hin; apply Hx.
    eapply Permutation_in; [apply py_sorted_perm; eassumption|assumption].
Qed.

Lemma insert_sorted_mixed (x y : pyval) (l : list pyval) :
  In y l -> (forall z, In z l -> py_lt z x = None) -> insert_sorted x l = Raised.
Proof.
  destruct l as [|z t]; [intros []|]; intros _ H; cbn.
  now rewrite (H z (or_introl eq_refl)).
Qed.

Lemma py_sorted_mixed (l : list pyval) (s : string) (z : Z) :
  In (PStr s) l -> In (PInt z) l -> py_sorted l = Raised.
Proof.
  revert s z; induction l as [|x t IH]; intros s z; [intros []|];
    intros Hs Hz; cbn.
  destruct (py_sorted t) as [r|] eqn:Er; [|reflexivity]; cbn.
  pose proof (py_sorted_perm _ _ Er) as HP.
  assert (forall v, In v r <-> In v t) as Hin.
  { intros v; split; apply Permutation_in; [assumption|now symmetry]. }
  destruct r as [|y r']; [|cbn].
  { destruct Hs as [->|Hs]; [|now apply Hin in Hs].
    destruct Hz as [Hz|Hz]; [discriminate Hz|now apply Hin in Hz]. }
  assert (In y t) as Hy by (apply Hin; now left).
  destruct (py_lt y x) as [b|] eqn:Elt; [|reflexivity].
  exfalso.
  destruct x as [sx|zx| |], y as [sy|zy| |]; cbn in Elt; try discriminate.
  - destruct Hz as [Hz|Hz]; [discriminate Hz|].
    discriminate (IH sy z Hy Hz).
  - destruct Hs as [Hs|Hs]; [discriminate Hs|].
    discriminate (IH s zy Hs Hy).
Qed.

Lemma column_cities_In (has_column : bool) (cells : list (option pyval)) (c : pyval) :
  In c (column_cities has_column cells) <->
  has_column = true /\ notna c = true /\ In (Some c) cells.
Proof.
  unfold column_cities; destruct has_column.
  - rewrite (first_seen_In pyval_eqb pyval_eqb_spec), filter_In, in_flat_map.
    split.
    + intros [(cell & Hcell & Hc) Hn]; destruct cell as [v|]; [|destruct Hc].
      destruct Hc as [<-|[]]; auto.
    + intros (_ & Hn & Hc); split; [|assumption].
      exists (Some c); split; [assumption|now left].
  - split; [intros []|intros [H _]; discriminate].
Qed.

Section CitiesProps.

Context {value_sets : ValueSets}.

(** X23. The cities [get_unique_cities] returns are in strictly ascending
    order (so none comes twice), and they are exactly the non-null values
    of the [city_en] columns of the two frames that are truthy and not
    blank. *)
Theorem get_unique_cities_sorted (stops_gdf : StopsTable) (routes_gdf : RoutesFrame)
        (cities : list pyval) :
  get_unique_cities stops_gdf routes_gdf = Returned cities ->
  Sorted ascending cities /\
  forall c,
    In c cities <->
    usable_city c = true /\ notna c = true /\
    ((stops_has_city_en stops_gdf = true /\
      In (Some c) (map st_city_en (frame_rows (stops_frame stops_gdf)))) \/
     (routes_has_city_en routes_gdf = true /\
      In (Some c) (map rt_city_en (route_rows routes_gdf)))).
Proof.
  unfold get_unique_cities; intros H.
  set (sc := column_cities (stops_has_city_en stops_gdf) _) in H.
  set (rc := column_cities (routes_has_city_en routes_gdf) _) in H.
  set (all := filter usable_city (first_seen pyval_eqb (sc ++ rc))) in H.
  assert (NoDup all) as Hnd
      by (apply NoDup_filter, first_seen_NoDup, pyval_eqb_spec).
  split.
  - eapply py_sorted_ascending; [eassumption|].
    eapply Permutation_NoDup; [symmetry; apply iter_values_perm|assumption].
  - intros c.
    assert (In c cities <-> In c all) as ->.
    { split; intros Hc.
      + eapply Permutation_in; [apply iter_values_perm|].
        eapply Permutation_in; [apply py_sorted_perm; eassumption|assumption].
      + eapply Permutation_in; [symmetry; apply py_sorted_perm; eassumption|].
        eapply Permutation_in; [symmetry; apply iter_values_perm|assumption]. }
    unfold all, sc, rc.
    rewrite filter_In, (first_seen_In pyval_eqb pyval_eqb_spec), in_app_iff,
      !column_cities_In.
    tauto.
Qed.

(** X24. When the usable cities of the two frames hold both a string and
    a number, sorting them raises, and so does [get_unique_cities]. *)
Theorem get_unique_cities_mixed (stops_gdf : StopsTable) (routes_gdf : RoutesFrame)
        (s : string) (z : Z) :
  stops_has_city_en stops_gdf = true -> routes_has_city_en routes_gdf = true ->
  usable_city (PStr s) = true -> usable_city (PInt z) = true ->
  In (Some (PStr s)) (map st_city_en (frame_rows (stops_frame stops_gdf)) ++
                      map rt_city_en (route_rows routes_gdf)) ->
  In (Some (PInt z)) (map st_city_en (frame_rows (stops_frame stops_gdf)) ++
                      map rt_city_en (route_rows routes_gdf)) ->
  get_unique_cities stops_gdf routes_gdf = Raised.
Proof.
  intros Hs Hr Hus Huz Hins Hinz; unfold get_unique_cities.
  apply (py_sorted_mixed _ s z);
    (eapply Permutation_in; [symmetry; apply iter_values_perm|]);
    apply filter_In; (split; [|assumption]);
    apply (first_seen_In pyval_eqb pyval_eqb_spec), in_app_iff;
    rewrite !column_cities_In, Hs, Hr.
  - apply in_app_iff in Hins; destruct Hins; [left|right]; auto.
  - apply in_app_iff in Hinz; destruct Hinz; [left|right]; auto.
Qed.

End CitiesProps.

(* ------------------------------------------------------------------ *)
(** ** The counters of the pipeline *)

(** How one entry of [city_results] shows in the counters. *)
Definition accounted (entry : CityResult) (stats stats' : Stats) : Prop :=
  total_cities stats' = total_cities stats /\
  total_routes stats' = total_routes stats /\
  total_stops stats' = total_stops stats /\
  if cr_success entry then
    processed_cities stats' = processed_cities stats + 1 /\
    failed_cities stats' = failed_cities stats /\
    total_unique_segments stats' = total_unique_segments stats + cr_segments_count entry /\
    total_unique_stops stats' = total_unique_stops stats + cr_stops_count entry /\
    total_segments stats + cr_segments_count entry <= total_segments stats' /\
    1 <= cr_segments_count entry
  else
    processed_cities stats' = processed_cities stats /\
    failed_cities stats' = failed_cities stats + 1 /\
    total_unique_segments stats' = total_unique_segments stats /\
    total_unique_stops stats' = total_unique_stops stats /\
    total_segments stats' = total_segments stats /\
    cr_segments_count entry = 0 /\ cr_stops_count entry = 0.

(** The same for a run of entries. *)
Definition all_accounted (entries : list CityResult) (stats stats' : Stats) : Prop :=
  total_cities stats' = total_cities stats /\
  total_routes stats' = total_routes stats /\
  total_stops stats' = total_stops stats /\
  processed_cities stats' =
    processed_cities stats + List.length (filter cr_success entries) /\
  failed_cities stats' =
    failed_cities stats + List.length (filter (fun e => negb (cr_success e)) entries) /\
  total_unique_segments stats' =
    total_unique_segments stats + list_sum (map cr_segments_count entries) /\
  total_unique_stops stats' =
    total_unique_stops stats + list_sum (map cr_stops_count entries) /\
  total_segments stats + list_sum (map cr_segments_count entries)
    <= total_segments stats' /\
  Forall (fun e => if cr_success e then 1 <= cr_segments_count e
                   else cr_segments_count e = 0 /\ cr_stops_count e = 0) entries.

Section PipelineProps.

Context {floats : Floats} {shapely : Shapely} {pandas : Pandas} {runtime : Runtime}
        {value_sets : ValueSets} {unicode : Names.Unicode}
        {pypinyin : Names.Pypinyin} {Report : Type} {disk : Disk Report}.

Lemma record_failure_accounted (city : pyval) (results results' : list CityResult)
      (stats stats' : Stats) :
  record_failure city (results, stats) = Returned (results', stats') ->
  exists entry,
    results' = results ++ [entry] /\ cr_city_en entry = city /\
    accounted entry stats stats'.
Proof.
  unfold record_failure.
  destruct (Names.city_name_to_pinyin (name_of city)) as [pin|]; cbn;
    [|discriminate].
  intros E; injection E as <- <-.
  eexists; split; [reflexivity|]; split; [reflexivity|].
  unfold accounted; cbn; repeat apply conj; reflexivity.
Qed.

Lemma record_success_accounted (city : pyval) (segs : list Segment)
      (agg : list AggregatedSegment) (uniq : list UniqueStop)
      (results results' : list CityResult) (stats stats' : Stats) :
  1 <= List.length agg <= List.length segs ->
  record_success city segs agg uniq (results, stats) = Returned (results', stats') ->
  exists entry,
    results' = results ++ [entry] /\ cr_city_en entry = city /\
    accounted entry stats stats'.
Proof.
  intros Hlen; unfold record_success.
  destruct (Names.city_name_to_pinyin (name_of city)) as [pin|]; cbn;
    [|discriminate].
  intros E; injection E as <- <-.
  eexists; split; [reflexivity|]; split; [reflexivity|].
  unfold accounted; cbn; repeat apply conj; lia.
Qed.

Lemma aggregate_segments_length (segs : list Segment) (agg : list AggregatedSegment) :
  segs <> [] -> aggregate_segments segs = Returned agg ->
  1 <= List.length agg <= List.length segs.
Proof.
  intros Hne H.
  destruct (aggregate_segments_groups segs) as (out & Hout & HF).
  assert (out = agg) as -> by congruence.
  pose proof (Forall2_length HF) as Hlen.
  pose proof (first_seen_length_le key_eqb (map segment_key segs)) as Hle.
  rewrite length_map in Hle.
  split; [|lia].
  destruct (first_seen key_eqb (map segment_key segs)) eqn:E; cbn in *; [|lia].
  apply (first_seen_nil key_eqb key_eqb_spec) in E.
  apply map_eq_nil in E; contradiction.
Qed.

Lemma city_turn_accounted (routes_gdf : RoutesFrame) (stops_gdf : StopsTable)
      (city : pyval) (results results' : list CityResult) (stats stats' : Stats) :
  try_except (process_one_city routes_gdf stops_gdf city (results, stats))
             (record_failure city (results, stats))
  = Returned (results', stats') ->
  exists entry,
    results' = results ++ [entry] /\ cr_city_en entry = city /\
    accounted entry stats stats'.
Proof.
  unfold try_except.
  destruct (process_one_city routes_gdf stops_gdf city (results, stats))
    as [[r s]|] eqn:Ebody; [|apply record_failure_accounted].
  intros E; injection E as <- <-.
  unfold process_one_city in Ebody.
  destruct (process_city_segments city routes_gdf stops_gdf) as [[segs cs]|];
    cbn in Ebody; [|discriminate].
  destruct segs as [|s0 segs]; [now apply record_failure_accounted in Ebody|].
  destruct (aggregate_segments (s0 :: segs)) as [agg|] eqn:Eagg; cbn in Ebody;
    [|discriminate].
  destruct (match cs with
            | NoCityStops => Raised
            | CityStopsFrame f => create_unique_stops f
            end) as [uniq|]; cbn in Ebody; [|discriminate].
  destruct (save_city_shapefiles city agg uniq) as [save|]; cbn in Ebody;
    [|discriminate].
  destruct (fst save || snd save).
  - eapply record_success_accounted; [|eassumption].
    apply aggregate_segments_length; [discriminate|assumption].
  - now apply record_failure_accounted in Ebody.
Qed.

Lemma run_cities_accounted (routes_gdf : RoutesFrame) (stops_gdf : StopsTable)
      (cities : list pyval) (results results' : list CityResult)
      (stats stats' : Stats) :
  run_cities routes_gdf stops_gdf cities (results, stats) = (Some results', stats') ->
  exists entries,
    results' = results ++ entries /\ map cr_city_en entries = cities /\
    all_accounted entries stats stats'.
Proof.
  revert results stats; induction cities as [|city rest IH]; intros results stats.
  - cbn; intros E; injection E as <- <-.
    exists []; rewrite app_nil_r; split; [reflexivity|]; split; [reflexivity|].
    unfold all_accounted; cbn; repeat apply conj; try lia. constructor.
  - cbn [run_cities].
    destruct (try_except _ _) as [[r1 s1]|] eqn:Eturn; [|discriminate].
    intros Hrest.
    destruct (city_turn_accounted _ _ _ _ _ _ _ Eturn) as (entry & -> & Hc & Ha).
    destruct (IH _ _ Hrest) as (entries & -> & Hcs & Hall).
    exists (entry :: entries); split; [now rewrite <- app_assoc|].
    split; [cbn; congruence|].
    unfold accounted in Ha; unfold all_accounted, list_sum in *; cbn.
    destruct Ha as (A1 & A2 & A3 & A4).
    destruct Hall as (B1 & B2 & B3 & B4 & B5 & B6 & B7 & B8 & B9).
    destruct (cr_success entry) eqn:Es; cbn.
    + destruct A4 as (C1 & C2 & C3 & C4 & C5 & C6).
      repeat apply conj; try lia.
      constructor; [now rewrite Es|assumption].
    + destruct A4 as (C1 & C2 & C3 & C4 & C5 & C6 & C7).
      repeat apply conj; try lia.
      constructor; [now rewrite Es|assumption].
Qed.

(** What a successful run of the pipeline went through. *)
Lemma process_all_cities_trace (stats0 stats : Stats) (res : PipelineResult Report) :
  process_all_cities stats0 = (Some res, stats) ->
  exists routes_gdf stops_gdf cities,
    load_shapefiles = Returned (routes_gdf, stops_gdf) /\
    get_unique_cities stops_gdf routes_gdf = Returned cities /\
    cities <> [] /\
    global_stats res = stats /\
    total_routes stats = List.length (route_rows routes_gdf) /\
    total_stops stats = List.length (frame_rows (stops_frame stops_gdf)) /\
    total_cities stats = List.length cities /\
    map cr_city_en (city_results res) = cities /\
    exists stats2,
      processed_cities stats2 = processed_cities stats0 /\
      failed_cities stats2 = failed_cities stats0 /\
      total_segments stats2 = total_segments stats0 /\
      total_unique_segments stats2 = total_unique_segments stats0 /\
      total_unique_stops stats2 = total_unique_stops stats0 /\
      all_accounted (city_results res) stats2 stats.
Proof.
  unfold process_all_cities.
  destruct load_shapefiles as [[routes_gdf stops_gdf]|] eqn:Eload; [|discriminate].
  destruct (get_unique_cities stops_gdf routes_gdf) as [cities|] eqn:Ecities;
    [|discriminate].
  destruct cities as [|c0 cs]; [discriminate|].
  set (cities := c0 :: cs) in *.
  match goal with
  | |- context [run_cities _ _ _ ([], ?s)] => set (stats2 := s)
  end.
  destruct (run_cities routes_gdf stops_gdf cities ([], stats2))
    as [[results|] s] eqn:Erun; [|discriminate].
  destruct (save_global_summary_report results s) as [rep|]; [|discriminate].
  intros E; injection E as <- <-.
  destruct (run_cities_accounted _ _ _ _ _ _ _ Erun) as (entries & Hres & Hcs & Hall).
  cbn [app] in Hres; subst results.
  exists routes_gdf, stops_gdf, cities.
  pose proof Hall as (B1 & B2 & B3 & _).
  split; [first [reflexivity|exact Eload]|].
  split; [first [reflexivity|exact Ecities]|].
  split; [discriminate|].
  split; [reflexivity|]. cbn [global_stats city_results].
  split; [exact B2|]. split; [exact B3|].
  split; [rewrite B1; reflexivity|].
  split; [assumption|].
  exists stats2; repeat apply conj; try reflexivity; apply Hall.
Qed.

Lemma get_unique_cities_ascending (stops_gdf : StopsTable) (routes_gdf : RoutesFrame)
      (cities : list pyval) :
  get_unique_cities stops_gdf routes_gdf = Returned cities ->
  Sorted ascending cities.
Proof.
  unfold get_unique_cities; intros H.
  eapply py_sorted_ascending; [eassumption|].
  eapply Permutation_NoDup; [symmetry; apply iter_values_perm|].
  apply NoDup_filter, first_seen_NoDup, pyval_eqb_spec.
Qed.

(** X25. When the pipeline returns a result, every city of the list has
    exactly one entry in [city_results], in the ascending order of the
    cities; the list is not empty; and each entry was counted once, as
    processed when it is marked successful and as failed otherwise, so
    that processed and failed cities add up to the total.  The cities of
    the entries are, in order, the cities [get_unique_cities] found in the
    frames that were loaded. *)
Theorem pipeline_accounts_for_every_city (stats0 stats : Stats)
        (res : PipelineResult Report) :
  process_all_cities stats0 = (Some res, stats) ->
  global_stats res = stats /\
  city_results res <> [] /\
  total_cities stats = List.length (city_results res) /\
  Sorted ascending (map cr_city_en (city_results res)) /\
  processed_cities stats =
    processed_cities stats0 + List.length (filter cr_success (city_results res)) /\
  failed_cities stats =
    failed_cities stats0 +
    List.length (filter (fun e => negb (cr_success e)) (city_results res)) /\
  processed_cities stats + failed_cities stats =
    processed_cities stats0 + failed_cities stats0 + total_cities stats /\
  (exists routes_gdf stops_gdf,
      load_shapefiles = Returned (routes_gdf, stops_gdf) /\
      get_unique_cities stops_gdf routes_gdf
      = Returned (map cr_city_en (city_results res))).
Proof.
  intros H.
  destruct (process_all_cities_trace _ _ _ H)
    as (routes_gdf & stops_gdf & cities & Hload & Hcities & Hne & Hg & _ & _ & Htc
        & Hmap & stats2 & P & F & _ & _ & _ & Hall).
  destruct Hall as (_ & _ & _ & B4 & B5 & _).
  assert (List.length (city_results res) = List.length cities) as Hlen
      by (rewrite <- Hmap; now rewrite length_map).
  repeat apply conj; try assumption.
  - intros E; rewrite E in Hmap; cbn in Hmap; congruence.
  - congruence.
  - rewrite Hmap.
    now apply (get_unique_cities_ascending stops_gdf routes_gdf).
  - lia.
  - lia.
  - pose proof (filter_length cr_success (city_results res)) as Hfl.
    cbv beta in Hfl. lia.
  - exists routes_gdf, stops_gdf; split; [assumption|]. now rewrite Hmap.
Qed.

(** X26. When the pipeline returns a result, the counters of unique
    segments and unique stops have grown by the sums of the counts of the
    entries, the counter of raw segments by at least as much as that of
    unique segments (aggregation never adds any), a failed entry shows no
    segments and no stops, and a successful one at least one segment. *)
Theorem pipeline_totals (stats0 stats : Stats) (res : PipelineResult Report) :
  process_all_cities stats0 = (Some res, stats) ->
  total_unique_segments stats =
    total_unique_segments stats0 + list_sum (map cr_segments_count (city_results res)) /\
  total_unique_stops stats =
    total_unique_stops stats0 + list_sum (map cr_stops_count (city_results res)) /\
  total_unique_segments stats - total_unique_segments stats0
    <= total_segments stats - total_segments stats0 /\
  (forall e, In e (city_results res) -> cr_success e = false ->
             cr_segments_count e = 0 /\ cr_stops_count e = 0) /\
  (forall e, In e (city_results res) -> cr_success e = true ->
             1 <= cr_segments_count e).
Proof.
  intros H.
  destruct (process_all_cities_trace _ _ _ H)
    as (_ & _ & _ & _ & _ & _ & _ & _ & _ & _ & _
        & stats2 & _ & _ & TS & TUS & TUST & Hall).
  destruct Hall as (_ & _ & _ & _ & _ & B6 & B7 & B8 & B9).
  rewrite Forall_forall in B9.
  repeat apply conj; try lia.
  - intros e He Hs; specialize (B9 e He); now rewrite Hs in B9.
  - intros e He Hs; specialize (B9 e He); now rewrite Hs in B9.
Qed.

End PipelineProps.

(* ------------------------------------------------------------------ *)
(** ** The pipeline on the second small world *)

Module TrialRun.

(** Sets of values that enumerate in insertion order. *)
Definition in_order : ValueSets := {|
  iter_values := fun s => s;
  iter_values_perm := fun s => Permutation_refl s
|}.

(** A disk that holds the two-city frames and on which every write
    succeeds. *)
Definition good_disk : @Disk Binary64.arithmetic unit := {|
  load_shapefiles := Returned (Trial.two_city_routes, Trial.two_city_stops);
  save_city_shapefiles := fun _ _ _ => Returned (true, true);
  save_global_summary_report := fun _ _ => Returned tt
|}.

(** The counters as [__init__] sets them. *)
Definition fresh : Stats :=
  {| total_cities := 0; processed_cities := 0; failed_cities := 0;
     total_routes := 0; total_stops := 0; total_segments := 0;
     total_unique_segments := 0; total_unique_stops := 0 |}.

Definition run : option (PipelineResult unit) * Stats :=
  @process_all_cities Binary64.arithmetic Demo.straight_line Demo.by_sequence
    Demo.encounter_order in_order Trial.ascii_only Trial.toy_pinyin unit good_disk
    fresh.

(** Frames whose [city_en] cells hold a string here and a number there. *)
Definition mixed_routes : RoutesFrame :=
  {| routes_has_city_en := true;
     route_rows :=
       [ {| rt_route_id := PStr "r7"; rt_route_cn := None;
            rt_city_cn := None; rt_city_en := Some (PInt 7);
            rt_geometry := None |} ] |}.

End TrialRun.

Lemma get_unique_cities_sorted_witness :
  @get_unique_cities TrialRun.in_order Trial.two_city_stops Trial.two_city_routes
  = Returned [PStr "x"; PStr "y"] /\
  Sorted ascending [PStr "x"; PStr "y"].
Proof.
  split; [reflexivity|].
  apply (@get_unique_cities_sorted TrialRun.in_order
           Trial.two_city_stops Trial.two_city_routes).
  reflexivity.
Defined.

Lemma get_unique_cities_mixed_witness :
  @get_unique_cities TrialRun.in_order Trial.two_city_stops TrialRun.mixed_routes
  = Raised.
Proof.
  apply (@get_unique_cities_mixed TrialRun.in_order
           Trial.two_city_stops TrialRun.mixed_routes "x" 7);
    try reflexivity.
  - cbn; auto.
  - cbn; auto 10.
Defined.

Lemma pipeline_accounts_for_every_city_witness :
  exists res,
    fst TrialRun.run = Some res /\
    List.length (city_results res) = 2 /\
    processed_cities (snd TrialRun.run) = 1 /\
    failed_cities (snd TrialRun.run) = 1 /\
    total_cities (snd TrialRun.run) = 2.
Proof.
  destruct TrialRun.run as [[res|] stats] eqn:E;
    [|vm_compute in E; discriminate E].
  pose proof (@pipeline_accounts_for_every_city Binary64.arithmetic
                Demo.straight_line Demo.by_sequence Demo.encounter_order
                TrialRun.in_order Trial.ascii_only Trial.toy_pinyin unit
                TrialRun.good_disk TrialRun.fresh stats res E)
    as (_ & _ & Htotal & _ & Hp & Hf & _).
  vm_compute in E; injection E as <- <-.
  eexists; cbn [fst snd].
  repeat apply conj; reflexivity.
Defined.

Lemma pipeline_totals_witness :
  exists res,
    fst TrialRun.run = Some res /\
    total_unique_segments (snd TrialRun.run) = 2 /\
    total_segments (snd TrialRun.run) = 2 /\
    map cr_segments_count (city_results res) = [2; 0].
Proof.
  destruct TrialRun.run as [[res|] stats] eqn:E;
    [|vm_compute in E; discriminate E].
  pose proof (@pipeline_totals Binary64.arithmetic
                Demo.straight_line Demo.by_sequence Demo.encounter_order
                TrialRun.in_order Trial.ascii_only Trial.toy_pinyin unit
                TrialRun.good_disk TrialRun.fresh stats res E)
    as (Hus & _).
  vm_compute in E; injection E as <- <-.
  eexists; cbn [fst snd].
  repeat apply conj; reflexivity.
Defined.
